(** * The itinerary generation service: model and properties

    A shallow embedding of [src/services/ItineraryGenerator.ts]: the
    validation of the trip input, the cascade over the fallback models with
    its retry loop and exponential backoff, the extraction of JSON from the
    model's text, the zod schemas, the chronological sort and the final
    error mapping.

    JavaScript strings are sequences of UTF-16 code units.  The functions of
    the JavaScript library that the service calls ([JSON.parse], the text of
    the errors that [JSON.parse] and zod throw) and the generative model
    behind [aiClient] are parameters of the development, gathered in
    [Library] and [Client]; a reference JSON reader is given for closed
    examples.

    The callers of the service are embedded as well: the route
    [POST /api/itinerary] with its request schema and [requireAuth], and
    the validation of the form [DestinationForm] whose submissions the page
    posts to the route.  The session store, the repository and the
    messages of zod are gathered in [Server]. *)

From Stdlib Require Import List NArith ZArith Bool Ascii String Lia.
From Stdlib Require Import Sorted Permutation.
Import ListNotations.

Set Implicit Arguments.
Set Warnings "-register-all".
Open Scope list_scope.

(* ================================================================== *)
(** * JavaScript strings *)
(* ================================================================== *)

Module Js.

(** A JavaScript string: its UTF-16 code units. *)
Definition jsstring := list N.

(** The bytes of a literal of this file. *)
Fixpoint bytes (s : string) : list N :=
  match s with
  | EmptyString => []
  | String c r => N_of_ascii c :: bytes r
  end.

(** UTF-8 decoding of a byte sequence into UTF-16 code units (code points
    above the basic plane become a surrogate pair). *)
Fixpoint utf16 (bs : list N) : jsstring :=
  match bs with
  | [] => []
  | b0 :: r0 =>
    if (b0 <? 128)%N then b0 :: utf16 r0
    else match r0 with
      | [] => [b0]
      | b1 :: r1 =>
        if (b0 <? 224)%N then
          ((b0 - 192) * 64 + (b1 - 128))%N :: utf16 r1
        else match r1 with
          | [] => [b0; b1]
          | b2 :: r2 =>
            if (b0 <? 240)%N then
              ((b0 - 224) * 4096 + (b1 - 128) * 64 + (b2 - 128))%N :: utf16 r2
            else match r2 with
              | [] => [b0; b1; b2]
              | b3 :: r3 =>
                let cp := ((b0 - 240) * 262144 + (b1 - 128) * 4096
                           + (b2 - 128) * 64 + (b3 - 128))%N in
                let v := (cp - 65536)%N in
                (55296 + v / 1024)%N :: (56320 + v mod 1024)%N :: utf16 r3
              end
          end
      end
  end.

(** A string literal of the source. *)
Definition lit (s : string) : jsstring := utf16 (bytes s).

(** A literal of the source written with an apostrophe wherever the source
    text has a double quote (code unit 34). *)
Definition quoted (s : string) : jsstring :=
  map (fun c => if (c =? 39)%N then 34%N else c) (lit s).

Definition length (s : jsstring) : nat := List.length s.

(** Equality of strings ([===] on two strings). *)
Fixpoint eqb (a b : jsstring) : bool :=
  match a, b with
  | [], [] => true
  | x :: a', y :: b' => (x =? y)%N && eqb a' b'
  | _, _ => false
  end.

(** [s.startsWith(p)] *)
Fixpoint startsWith (s p : jsstring) : bool :=
  match p with
  | [] => true
  | c :: p' =>
    match s with
    | [] => false
    | d :: s' => (d =? c)%N && startsWith s' p'
    end
  end.

(** [s.includes(needle)] *)
Fixpoint includes (s needle : jsstring) : bool :=
  startsWith s needle ||
  match s with
  | [] => false
  | _ :: s' => includes s' needle
  end.

(** [needles.some(term => s.includes(term))] *)
Definition includesSome (s : jsstring) (needles : list jsstring) : bool :=
  existsb (includes s) needles.

(** White space and line terminators of ECMAScript: what [trim] strips and
    what the class [\s] of a regular expression matches. *)
Definition isWhiteSpace (c : N) : bool :=
  ((9 <=? c) && (c <=? 13) || (c =? 32) || (c =? 160) || (c =? 5760)
   || (8192 <=? c) && (c <=? 8202) || (c =? 8232) || (c =? 8233)
   || (c =? 8239) || (c =? 8287) || (c =? 12288) || (c =? 65279))%N.

Fixpoint trimStart (s : jsstring) : jsstring :=
  match s with
  | [] => []
  | c :: r => if isWhiteSpace c then trimStart r else s
  end.

Definition trimEnd (s : jsstring) : jsstring := rev (trimStart (rev s)).

(** [s.trim()] *)
Definition trim (s : jsstring) : jsstring := trimEnd (trimStart s).

(** [s.toLowerCase()].  The letters A to Z, the Kelvin sign (to [k]) and
    the dotted capital I (to [i] and a combining dot) are the code units
    whose lower case contains an ASCII letter.  Other cased letters are
    kept as they are: their lower-case forms are outside ASCII as well,
    and the service only searches lowered text for ASCII terms. *)
Definition lowerUnit (c : N) : list N :=
  if ((65 <=? c) && (c <=? 90))%N then [(c + 32)%N]
  else if (c =? 8490)%N then [107%N]
  else if (c =? 304)%N then [105%N; 775%N]
  else [c].

Definition toLowerCase (s : jsstring) : jsstring := flat_map lowerUnit s.

(** Lexicographic comparison of code units. *)
Fixpoint compare (a b : jsstring) : comparison :=
  match a, b with
  | [], [] => Eq
  | [], _ :: _ => Lt
  | _ :: _, [] => Gt
  | x :: a', y :: b' =>
    match (x ?= y)%N with
    | Eq => compare a' b'
    | o => o
    end
  end.

Definition isDigit (c : N) : bool := ((48 <=? c) && (c <=? 57))%N.

(** Decimal digits of a natural number, [String(n)]. *)
Fixpoint digitsFuel (fuel : nat) (n : N) (acc : jsstring) : jsstring :=
  match fuel with
  | O => acc
  | S f =>
    let acc' := (48 + n mod 10)%N :: acc in
    if (n <? 10)%N then acc' else digitsFuel f (n / 10)%N acc'
  end.

Definition ofN (n : N) : jsstring := digitsFuel (S (N.to_nat (N.log2 n))) n [].

(** [String(z)] for an integer below 2^53 in magnitude: its decimal
    digits. *)
Definition ofZ (z : Z) : jsstring :=
  match z with
  | Zneg p => 45%N :: ofN (Npos p)
  | _ => ofN (Z.to_N z)
  end.

End Js.

Import Js.

(* ================================================================== *)
(** * Parsed JSON values *)
(* ================================================================== *)

(** What [JSON.parse] returns (the type [unknown] of the source).  A number
    is kept at the exact decimal value of its literal,
    [mantissa * 10 ^ exponent]; JavaScript rounds it to a binary64, which
    is the same number for every integer below 2^53 in magnitude.  An
    object lists its members in source order. *)
Inductive json : Type :=
| JNull
| JBool (b : bool)
| JNum (mantissa exponent : Z)
| JStr (s : jsstring)
| JArr (items : list json)
| JObj (members : list (jsstring * json)).

(** [o[key]] on a parsed object: when a key is repeated in the text,
    [JSON.parse] keeps the last value. *)
Fixpoint lookup (members : list (jsstring * json)) (key : jsstring)
  : option json :=
  match members with
  | [] => None
  | (k, v) :: rest =>
    match lookup rest key with
    | Some later => Some later
    | None => if Js.eqb k key then Some v else None
    end
  end.

(* ================================================================== *)
(** * Data model ([src/types]) *)
(* ================================================================== *)

Record TripInput : Type := {
  destination : jsstring;
  duration : Z;   (* days *)
}.

Module Activity.
Record t : Type := {
  time : jsstring;   (* HH:mm format *)
  name : jsstring;
  location : jsstring;
  description : jsstring;
}.
End Activity.

Module DailySchedule.
Record t : Type := {
  day : Z;
  activities : list Activity.t;
}.
End DailySchedule.

Inductive Category : Type := place | restaurant | experience.

(** A recommendation as the schema returns it (no [id] yet). *)
Module RecommendationData.
Record t : Type := {
  category : Category;
  name : jsstring;
  description : jsstring;
  location : option jsstring;
}.
End RecommendationData.

Module Recommendation.
Record t : Type := {
  id : jsstring;
  category : Category;
  name : jsstring;
  description : jsstring;
  location : option jsstring;
}.
End Recommendation.

(** The output type of [ItineraryResponseSchema]. *)
Module ItineraryResponse.
Record t : Type := {
  dailySchedules : list DailySchedule.t;
  recommendations : list RecommendationData.t;
}.
End ItineraryResponse.

Module Itinerary.
Record t : Type := {
  id : jsstring;
  destination : jsstring;
  duration : Z;
  dailySchedules : list DailySchedule.t;
  recommendations : list Recommendation.t;
  generatedAt : N;   (* the instant of [new Date()] *)
}.
End Itinerary.

(* ================================================================== *)
(** * The zod schemas *)
(* ================================================================== *)

(** A schema maps a parsed value to its typed output, or rejects it (zod
    then throws a [ZodError]).  [z.object] keeps the declared keys only. *)
Definition Schema (A : Type) : Type := json -> option A.

Module z.

Definition bind {A B} (o : option A) (f : A -> option B) : option B :=
  match o with Some a => f a | None => None end.

Fixpoint traverse {A B} (f : A -> option B) (l : list A) : option (list B) :=
  match l with
  | [] => Some []
  | x :: r =>
    bind (f x) (fun y => bind (traverse f r) (fun ys => Some (y :: ys)))
  end.

(** [z.string()] *)
Definition string : Schema jsstring :=
  fun v => match v with JStr s => Some s | _ => None end.

(** [schema.regex(re)], the regular expression given by its test. *)
Definition regex (s : Schema jsstring) (test : jsstring -> bool)
  : Schema jsstring :=
  fun v => bind (s v) (fun x => if test x then Some x else None).

(** [z.number().int().positive()] *)
Definition number_int_positive : Schema Z :=
  fun v =>
    match v with
    | JNum m e =>
      if (m <=? 0)%Z then None
      else if (0 <=? e)%Z then Some (m * 10 ^ e)%Z
      else if (m mod 10 ^ (- e) =? 0)%Z then Some (m / 10 ^ (- e))%Z
      else None
    | _ => None
    end.

(** [z.array(item)] *)
Definition array {A} (item : Schema A) : Schema (list A) :=
  fun v => match v with JArr items => traverse item items | _ => None end.

(** [schema.min(n)] on an array schema *)
Definition min {A} (s : Schema (list A)) (n : nat) : Schema (list A) :=
  fun v => bind (s v) (fun l => if (n <=? List.length l)%nat then Some l else None).

(** A required key of [z.object]. *)
Definition field {A} (members : list (jsstring * json)) (key : String.string)
  (s : Schema A) : option A :=
  bind (lookup members (lit key)) s.

(** A key whose schema is [.optional()]: the key may be absent. *)
Definition optional {A} (members : list (jsstring * json))
  (key : String.string) (s : Schema A) : option (option A) :=
  match lookup members (lit key) with
  | None => Some None
  | Some v => bind (s v) (fun a => Some (Some a))
  end.

(** [z.object({...})]: the value must be an object (not an array, not
    [null]). *)
Definition object {A} (shape : list (jsstring * json) -> option A) : Schema A :=
  fun v => match v with JObj members => shape members | _ => None end.

End z.

(** The test of [/^\d{2}:\d{2}$/]. *)
Definition timeRegex (s : jsstring) : bool :=
  match s with
  | [h1; h2; c; m1; m2] =>
    isDigit h1 && isDigit h2 && (c =? 58)%N && isDigit m1 && isDigit m2
  | _ => false
  end.

Definition ActivitySchema : Schema Activity.t :=
  z.object (fun o =>
    z.bind (z.field o "time" (z.regex z.string timeRegex)) (fun time =>
    z.bind (z.field o "name" z.string) (fun name =>
    z.bind (z.field o "location" z.string) (fun location =>
    z.bind (z.field o "description" z.string) (fun description =>
    Some {| Activity.time := time; Activity.name := name;
            Activity.location := location;
            Activity.description := description |}))))).

Definition DailyScheduleSchema : Schema DailySchedule.t :=
  z.object (fun o =>
    z.bind (z.field o "day" z.number_int_positive) (fun day =>
    z.bind (z.field o "activities" (z.min (z.array ActivitySchema) 3))
      (fun activities =>
    Some {| DailySchedule.day := day;
            DailySchedule.activities := activities |}))).

(** [z.enum(['place', 'restaurant', 'experience'])] *)
Definition CategorySchema : Schema Category :=
  fun v =>
    z.bind (z.string v) (fun s =>
      if Js.eqb s (lit "place") then Some place
      else if Js.eqb s (lit "restaurant") then Some restaurant
      else if Js.eqb s (lit "experience") then Some experience
      else None).

Definition RecommendationSchema : Schema RecommendationData.t :=
  z.object (fun o =>
    z.bind (z.field o "category" CategorySchema) (fun category =>
    z.bind (z.field o "name" z.string) (fun name =>
    z.bind (z.field o "description" z.string) (fun description =>
    z.bind (z.optional o "location" z.string) (fun location =>
    Some {| RecommendationData.category := category;
            RecommendationData.name := name;
            RecommendationData.description := description;
            RecommendationData.location := location |}))))).

Definition ItineraryResponseSchema : Schema ItineraryResponse.t :=
  z.object (fun o =>
    z.bind (z.field o "dailySchedules" (z.array DailyScheduleSchema))
      (fun dailySchedules =>
    z.bind (z.field o "recommendations" (z.array RecommendationSchema))
      (fun recommendations =>
    Some {| ItineraryResponse.dailySchedules := dailySchedules;
            ItineraryResponse.recommendations := recommendations |}))).

(* ================================================================== *)
(** * Chronological sort *)
(* ================================================================== *)

(** [a.localeCompare(b)].  The service compares only times that passed
    [ActivitySchema] (two digits, a colon, two digits), on which the
    collation order is the order of the code units. *)
Definition localeCompare (a b : jsstring) : comparison := Js.compare a b.

(** [Array.prototype.sort] is stable: it returns the one arrangement that
    is ordered by the comparator and keeps equal elements in their
    original order.  Insertion from the right computes it. *)
Section ArraySort.
Variable A : Type.
Variable compareFn : A -> A -> comparison.

Fixpoint insert (x : A) (l : list A) : list A :=
  match l with
  | [] => [x]
  | y :: r =>
    match compareFn x y with
    | Gt => y :: insert x r
    | _ => x :: l
    end
  end.

Definition sort (l : list A) : list A := fold_right insert [] l.
End ArraySort.

(** [x] may come before [y]: the comparator does not put it after. *)
Definition orderedBy {A : Type} (compareFn : A -> A -> comparison)
  (x y : A) : Prop :=
  compareFn x y <> Gt.

(** [schedule.activities.sort((a, b) => a.time.localeCompare(b.time))] *)
Definition sortActivities (schedule : DailySchedule.t) : DailySchedule.t :=
  {| DailySchedule.day := DailySchedule.day schedule;
     DailySchedule.activities :=
       sort (fun a b => localeCompare (Activity.time a) (Activity.time b))
            (DailySchedule.activities schedule) |}.

(* ================================================================== *)
(** * Errors and the JavaScript library *)
(* ================================================================== *)

(** A thrown value: the service reads only its [message], which a value
    that is not an [Error] may lack.  The values are objects, as the
    errors of the provider's client and of the library are; [undefined]
    and [null], on which reading [message] itself throws, are not among
    them. *)
Record JsError : Type := { message : option jsstring }.

(** [new Error(msg)] *)
Definition Error (msg : jsstring) : JsError := {| message := Some msg |}.

(** The result of a call that may throw. *)
Inductive Outcome (A : Type) : Type :=
| Ok (value : A)
| Throw (error : JsError).
Arguments Ok {A} value.
Arguments Throw {A} error.

(** Library functions whose code is outside the repository. *)
Record Library : Type := {
  (** [JSON.parse(text)]: the value, or the [SyntaxError] it throws. *)
  JSON_parse : jsstring -> Outcome json;
  (** The [ZodError] that [ItineraryResponseSchema.parse] throws on a value
      it rejects; its message lists the issues found. *)
  ZodError : json -> JsError;
  (** [String(n)] for an integer of magnitude 2^53 or more, which
      JavaScript writes with the shortest digits that denote the same
      binary64: followed by zeros below 1e21, in exponent form from there
      on. *)
  Number_toString : Z -> jsstring;
}.

(** The text of an integer in a template literal: all its decimal digits
    below 2^53 in magnitude, where every integer is a binary64 of its own;
    what the library prints from there on. *)
Definition numberText (lib : Library) (n : Z) : jsstring :=
  if (Z.abs n <? 2 ^ 53)%Z then ofZ n else Number_toString lib n.

(* ================================================================== *)
(** * parseAIResponse *)
(* ================================================================== *)

(** [s.endsWith(p)] *)
Definition endsWith (s p : jsstring) : bool := startsWith (rev s) (rev p).

Definition fence : jsstring := lit "```".
Definition fenceJson : jsstring := lit "```json".

(** [s.replace(/^```json\s*/, '')] and [s.replace(/^```\s*/, '')], on a
    string that starts with the marker. *)
Definition dropOpening (marker s : jsstring) : jsstring :=
  trimStart (skipn (Js.length marker) s).

(** [s.replace(/\s*```$/, '')]: a closing fence at the very end goes, with
    the white space before it. *)
Definition dropClosing (s : jsstring) : jsstring :=
  if endsWith s fence
  then trimEnd (firstn (Js.length s - Js.length fence) s)
  else s.

(** The suffix of [s] that starts at the first [c]. *)
Fixpoint fromFirst (c : N) (s : jsstring) : option jsstring :=
  match s with
  | [] => None
  | d :: r => if (d =? c)%N then Some s else fromFirst c r
  end.

(** The prefix of [s] that ends at the last [c]. *)
Definition uptoLast (c : N) (s : jsstring) : option jsstring :=
  option_map (@rev N) (fromFirst c (rev s)).

(** [text.match(/\{[\s\S]*\}/)]: the star is greedy, so the match runs from
    the first opening brace to the last closing brace after it. *)
Definition matchBraces (text : jsstring) : option jsstring :=
  match fromFirst 123 text with
  | None => None
  | Some s => uptoLast 125 s
  end.

Definition stripFences (text : jsstring) : jsstring :=
  let jsonText := trim text in
  if startsWith jsonText fenceJson
  then dropClosing (dropOpening fenceJson jsonText)
  else if startsWith jsonText fence
  then dropClosing (dropOpening fence jsonText)
  else jsonText.

Definition parseAIResponse (lib : Library) (text : jsstring) : Outcome json :=
  let jsonText := stripFences text in
  match JSON_parse lib jsonText with
  | Ok v => Ok v
  | Throw _ =>
    match matchBraces text with
    | Some jsonMatch => JSON_parse lib jsonMatch
    | None => Throw (Error (lit "No valid JSON found in AI response"))
    end
  end.

(* ================================================================== *)
(** * The model client and the service *)
(* ================================================================== *)

(** How one call of [aiClient.models.generateContent] ends, seen from
    [generateWithTimeout]. *)
Inductive ClientOutcome : Type :=
| Rejected (error : JsError)
    (** the promise rejects before the deadline, with an object *)
| Responded (generatedText : option jsstring)
    (** it resolves before the deadline; the text that the two look-ups
        ([response.text], [response.output[0].content]) find, if any *)
| Pending.
    (** it has not settled when [timeoutPromise] fires *)

(** The environment of a run: the state of the outside world, the client,
    [generateId] (the clock and [Math.random]) and [new Date()].  The prompt
    is a function of destination, duration and locale ([buildPrompt]), which
    the client receives as they are. *)
Record Client (World : Type) : Type := {
  generateContent :
    World -> jsstring -> TripInput -> jsstring -> ClientOutcome * World;
  generateId : World -> nat -> jsstring;
  newDate : World -> N;
}.

(** The list of models and the private fields of the class.  [timeout] is
    the deadline of [timeoutPromise], in milliseconds: a call that has not
    settled by then is [Pending]. *)
Record Config : Type := {
  models : list jsstring;
  maxRetries : nat;
  retryDelay : Z;
  timeout : Z;
}.

(** Available models to try, in order of preference. *)
Definition FALLBACK_MODELS : list jsstring :=
  [ lit "gemini-2.5-flash"; lit "gemini-2.5-pro";
    lit "gemini-1.5-pro"; lit "gemini-1.5-flash" ].

(** The values of the source. *)
Definition defaultConfig : Config :=
  {| models := FALLBACK_MODELS; maxRetries := 3;
     retryDelay := 1000; timeout := 45000 |}.

(** What a run does that the outside can observe, in order. *)
Inductive Event : Type :=
| Attempt (model : jsstring) (attempt : nat) (failure : option JsError)
    (** one [generateWithTimeout]; [None] when it returned an itinerary *)
| Sleep (ms : Z).

(** [error.message?.includes(term)] *)
Definition messageIncludes (error : JsError) (term : String.string) : bool :=
  match message error with
  | Some m => includes m (lit term)
  | None => false
  end.

(** The test of line 79: the model is not available. *)
Definition isNotFound (error : JsError) : bool :=
  messageIncludes error "not found" || messageIncludes error "404".

Definition retryableTerms : list jsstring :=
  map lit ["timeout"; "rate limit"; "429"; "503"; "network"; "unavailable"]%string.

Definition isRetryableError (error : JsError) : bool :=
  let msg := match message error with
             | Some m => toLowerCase m
             | None => []
             end in
  includesSome msg retryableTerms.

(** The five errors that [handleError] can return. *)
Inductive ErrorKind : Type :=
| KTimeout | KRateLimit | KAuth | KModelUnavailable | KUnknown.

Definition kindMessage (k : ErrorKind) : jsstring :=
  match k with
  | KTimeout => lit "การสร้างแผนใช้เวลานานเกินไป กรุณาลองใหม่"
  | KRateLimit => lit "ระบบมีผู้ใช้งานมาก กรุณารอสักครู่"
  | KAuth => lit "เกิดข้อผิดพลาดในการเชื่อมต่อ AI"
  | KModelUnavailable => lit "โมเดล AI ไม่พร้อมใช้งาน"
  | KUnknown => lit "เกิดข้อผิดพลาดในการสร้างแผนการท่องเที่ยว กรุณาลองใหม่"
  end.

(** The branch of [handleError] that an error takes. *)
Definition classify (error : JsError) : ErrorKind :=
  let msg := match message error with
             | Some [] | None => lit "Unknown error"
             | Some m => m
             end in
  if includes msg (lit "timeout") then KTimeout
  else if includes msg (lit "rate limit") || includes msg (lit "429") then KRateLimit
  else if includes msg (lit "API key") || includes msg (lit "401") then KAuth
  else if includes msg (lit "not found") || includes msg (lit "404") then KModelUnavailable
  else KUnknown.

Definition handleError (error : JsError) : JsError :=
  Error (kindMessage (classify error)).

Section Service.
Variable lib : Library.
Variable World : Type.
Variable client : Client World.
Variable cfg : Config.

(** Lines 146 to 168 of [callGeminiAPI]: from the text of the response to
    the itinerary.  [w] is the world when the response has arrived. *)
Definition buildItinerary (input : TripInput) (w : World)
  (generatedText : jsstring) : Outcome Itinerary.t :=
  match parseAIResponse lib generatedText with
  | Throw e => Throw e
  | Ok itineraryData =>
    match ItineraryResponseSchema itineraryData with
    | None => Throw (ZodError lib itineraryData)
    | Some validated =>
      let dailySchedules :=
        map sortActivities (ItineraryResponse.dailySchedules validated) in
      if negb (Z.of_nat (List.length dailySchedules) =? duration input)%Z
      then Throw (Error (lit "Expected " ++ numberText lib (duration input)
                         ++ lit " days but got "
                         ++ ofN (N.of_nat (List.length dailySchedules))))
      else
        Ok {| Itinerary.id := generateId client w 0;
              Itinerary.destination := destination input;
              Itinerary.duration := duration input;
              Itinerary.dailySchedules := dailySchedules;
              Itinerary.recommendations :=
                map (fun '(i, rec) =>
                       {| Recommendation.id := generateId client w (S i);
                          Recommendation.category := RecommendationData.category rec;
                          Recommendation.name := RecommendationData.name rec;
                          Recommendation.description := RecommendationData.description rec;
                          Recommendation.location := RecommendationData.location rec |})
                    (combine (seq 0 (List.length (ItineraryResponse.recommendations validated)))
                             (ItineraryResponse.recommendations validated));
              Itinerary.generatedAt := newDate client w |}
    end
  end.

(** [callGeminiAPI]; [None] while the client's promise is pending. *)
Definition callGeminiAPI (model : jsstring) (input : TripInput)
  (locale : jsstring) (w : World) : option (Outcome Itinerary.t) * World :=
  match generateContent client w model input locale with
  | (Rejected e, w') => (Some (Throw e), w')
  | (Pending, w') => (None, w')
  | (Responded None, w') | (Responded (Some []), w') =>
    (Some (Throw (Error (lit "Empty response from AI"))), w')
  | (Responded (Some text), w') => (Some (buildItinerary input w' text), w')
  end.

(** [Promise.race] of the call and [timeoutPromise]. *)
Definition generateWithTimeout (model : jsstring) (input : TripInput)
  (locale : jsstring) (w : World) : Outcome Itinerary.t * World :=
  match callGeminiAPI model input locale w with
  | (Some r, w') => (r, w')
  | (None, w') => (Throw (Error (lit "Request timeout")), w')
  end.

(** How the loop over the attempts of one model ends. *)
Inductive LoopExit : Type :=
| Return (result : Itinerary.t)
| Break (lastError : option JsError).

(** The inner loop, [for (attempt; attempt <= maxRetries; attempt++)],
    entered with [remaining] iterations to go. *)
Fixpoint attempts (remaining attempt : nat) (model : jsstring)
  (input : TripInput) (locale : jsstring) (w : World)
  (lastError : option JsError) : LoopExit * World * list Event :=
  match remaining with
  | O => (Break lastError, w, [])
  | S remaining' =>
    match generateWithTimeout model input locale w with
    | (Ok result, w') => (Return result, w', [Attempt model attempt None])
    | (Throw error, w') =>
      if isNotFound error then
        (Break (Some error), w', [Attempt model attempt (Some error)])
      else if isRetryableError error && (attempt <? maxRetries cfg)%nat then
        let delay := (retryDelay cfg * 2 ^ (Z.of_nat attempt - 1))%Z in
        let '(exit, w'', events) :=
          attempts remaining' (S attempt) model input locale w' (Some error) in
        (exit, w'', Attempt model attempt (Some error) :: Sleep delay :: events)
      else
        (Break (Some error), w', [Attempt model attempt (Some error)])
    end
  end.

(** The outer loop, [for (const model of FALLBACK_MODELS)]. *)
Fixpoint cascade (remainingModels : list jsstring) (input : TripInput)
  (locale : jsstring) (w : World) (lastError : option JsError)
  : LoopExit * World * list Event :=
  match remainingModels with
  | [] => (Break lastError, w, [])
  | model :: rest =>
    match attempts (maxRetries cfg) 1 model input locale w lastError with
    | (Return result, w', events) => (Return result, w', events)
    | (Break lastError', w', events) =>
      let '(exit, w'', events') := cascade rest input locale w' lastError' in
      (exit, w'', events ++ events')
    end
  end.

Definition isBlank (s : jsstring) : bool :=
  match s with
  | [] => true
  | _ => (Js.length (trim s) =? 0)%nat
  end.

Definition generateItinerary (input : TripInput) (locale : jsstring)
  (w : World) : Outcome Itinerary.t * list Event :=
  if isBlank (destination input) then
    (Throw (Error (lit "Destination is required")), [])
  else if (duration input <? 1)%Z then
    (Throw (Error (lit "Duration must be at least 1 day")), [])
  else
    match cascade (models cfg) input locale w None with
    | (Return result, _, events) => (Ok result, events)
    | (Break lastError, _, events) =>
      (Throw (handleError
                (match lastError with
                 | Some e => e
                 | None => Error (lit "All models failed")
                 end)),
       events)
    end.

End Service.

(* ================================================================== *)
(** * A reference [JSON.parse] and a scripted client *)
(* ================================================================== *)

(** A reader for the JSON grammar (ECMA-404), used where a closed example
    needs a concrete [JSON.parse]. *)
Module Reader.

Definition isSpace (c : N) : bool :=
  ((c =? 32) || (c =? 9) || (c =? 10) || (c =? 13))%N.

Fixpoint skipSpace (s : jsstring) : jsstring :=
  match s with
  | c :: r => if isSpace c then skipSpace r else s
  | [] => []
  end.

Definition hexValue (c : N) : option N :=
  if isDigit c then Some (c - 48)%N
  else if ((97 <=? c) && (c <=? 102))%N then Some (c - 87)%N
  else if ((65 <=? c) && (c <=? 70))%N then Some (c - 55)%N
  else None.

Definition escape (c : N) : option N :=
  if (c =? 34)%N then Some 34%N            (* quote *)
  else if (c =? 92)%N then Some 92%N       (* backslash *)
  else if (c =? 47)%N then Some 47%N       (* slash *)
  else if (c =? 98)%N then Some 8%N        (* backspace *)
  else if (c =? 102)%N then Some 12%N      (* form feed *)
  else if (c =? 110)%N then Some 10%N      (* line feed *)
  else if (c =? 114)%N then Some 13%N      (* carriage return *)
  else if (c =? 116)%N then Some 9%N       (* tab *)
  else None.

(** The characters of a string after its opening quote, up to the closing
    quote; [acc] holds the characters read so far, last first. *)
Fixpoint readString (s : jsstring) (acc : jsstring)
  : option (jsstring * jsstring) :=
  match s with
  | [] => None
  | c :: r =>
    if (c =? 34)%N then Some (rev acc, r)
    else if (c =? 92)%N then
      match r with
      | [] => None
      | e :: r' =>
        if (e =? 117)%N then
          match r' with
          | h1 :: h2 :: h3 :: h4 :: r'' =>
            match hexValue h1, hexValue h2, hexValue h3, hexValue h4 with
            | Some a, Some b, Some c', Some d =>
              readString r'' ((a * 4096 + b * 256 + c' * 16 + d)%N :: acc)
            | _, _, _, _ => None
            end
          | _ => None
          end
        else
          match escape e with
          | Some x => readString r' (x :: acc)
          | None => None
          end
      end
    else if (c <? 32)%N then None
    else readString r (c :: acc)
  end.

Fixpoint spanDigits (s : jsstring) : jsstring * jsstring :=
  match s with
  | c :: r =>
    if isDigit c then let '(ds, rest) := spanDigits r in (c :: ds, rest)
    else ([], s)
  | [] => ([], [])
  end.

Definition digitsValue (ds : jsstring) : Z :=
  fold_left (fun a d => (a * 10 + (Z.of_N d - 48))%Z) ds 0%Z.

(** A number: an optional minus sign; an integer part, which is a single
    zero or digits that do not start with zero; an optional fraction (a dot
    and digits); an optional exponent (e or E, an optional sign, digits).
    The reader keeps the value of the literal as it is written, which is
    what [JSON.parse] gives for the literals that a binary64 holds exactly,
    the integers below 2^53 in magnitude among them. *)
Definition readNumber (s : jsstring) : option (json * jsstring) :=
  let '(negative, s1) :=
    match s with
    | 45%N :: r => (true, r)
    | _ => (false, s)
    end in
  let '(int, s2) := spanDigits s1 in
  match int with
  | [] => None
  | d :: more =>
    if (d =? 48)%N && negb (Nat.eqb (List.length more) 0) then None
    else
      let fraction :=
        match s2 with
        | 46%N :: r =>
          let '(ds, rest) := spanDigits r in
          match ds with [] => None | _ => Some (ds, rest) end
        | _ => Some ([], s2)
        end in
      match fraction with
      | None => None
      | Some (frac, s3) =>
        let exponent :=
          match s3 with
          | e :: r =>
            if ((e =? 101) || (e =? 69))%N then
              let '(minus, r') :=
                match r with
                | 45%N :: r1 => (true, r1)
                | 43%N :: r1 => (false, r1)
                | _ => (false, r)
                end in
              let '(ds, rest) := spanDigits r' in
              match ds with
              | [] => None
              | _ => Some (if minus then (- digitsValue ds)%Z
                           else digitsValue ds, rest)
              end
            else Some (0%Z, s3)
          | [] => Some (0%Z, s3)
          end in
        match exponent with
        | None => None
        | Some (e, s4) =>
          let m := digitsValue (int ++ frac) in
          Some (JNum (if negative then (- m)%Z else m)
                     (e - Z.of_nat (List.length frac))%Z, s4)
        end
      end
  end.

Definition keyword (word : String.string) (v : json) (s : jsstring)
  : option (json * jsstring) :=
  if startsWith s (lit word)
  then Some (v, skipn (Js.length (lit word)) s)
  else None.

Fixpoint readValue (fuel : nat) (s : jsstring) : option (json * jsstring) :=
  match fuel with
  | O => None
  | S fuel' =>
    match skipSpace s with
    | [] => None
    | c :: r =>
      if (c =? 34)%N then
        match readString r [] with
        | Some (str, rest) => Some (JStr str, rest)
        | None => None
        end
      else if (c =? 91)%N then
        match skipSpace r with
        | 93%N :: rest => Some (JArr [], rest)
        | _ => readElements fuel' r []
        end
      else if (c =? 123)%N then
        match skipSpace r with
        | 125%N :: rest => Some (JObj [], rest)
        | _ => readMembers fuel' r []
        end
      else if (c =? 110)%N then keyword "null" JNull (c :: r)
      else if (c =? 116)%N then keyword "true" (JBool true) (c :: r)
      else if (c =? 102)%N then keyword "false" (JBool false) (c :: r)
      else readNumber (c :: r)
    end
  end

with readElements (fuel : nat) (s : jsstring) (acc : list json)
  : option (json * jsstring) :=
  match fuel with
  | O => None
  | S fuel' =>
    match readValue fuel' s with
    | None => None
    | Some (v, rest) =>
      match skipSpace rest with
      | 44%N :: rest' => readElements fuel' rest' (v :: acc)
      | 93%N :: rest' => Some (JArr (rev (v :: acc)), rest')
      | _ => None
      end
    end
  end

with readMembers (fuel : nat) (s : jsstring) (acc : list (jsstring * json))
  : option (json * jsstring) :=
  match fuel with
  | O => None
  | S fuel' =>
    match skipSpace s with
    | 34%N :: r =>
      match readString r [] with
      | None => None
      | Some (key, rest) =>
        match skipSpace rest with
        | 58%N :: rest' =>
          match readValue fuel' rest' with
          | None => None
          | Some (v, rest'') =>
            match skipSpace rest'' with
            | 44%N :: more => readMembers fuel' more ((key, v) :: acc)
            | 125%N :: more => Some (JObj (rev ((key, v) :: acc)), more)
            | _ => None
            end
          end
        | _ => None
        end
      end
    | _ => None
    end
  end.

(** The text of a [SyntaxError] depends on the engine; a fixed text stands
    for it. *)
Definition SyntaxError : JsError := Error (lit "Unexpected token in JSON").

Definition parse (text : jsstring) : Outcome json :=
  match readValue (2 * Js.length text + 2) text with
  | Some (v, rest) =>
    match skipSpace rest with
    | [] => Ok v
    | _ => Throw SyntaxError
    end
  | None => Throw SyntaxError
  end.

End Reader.

(** A string from its first code unit that is not the digit zero. *)
Fixpoint fromNonZero (s : jsstring) : jsstring :=
  match s with
  | [] => []
  | c :: r => if (c =? 48)%N then fromNonZero r else s
  end.

(** The digits of a number without the zeros at their end. *)
Definition significantDigits (digits : jsstring) : jsstring :=
  rev (fromNonZero (rev digits)).

(** The text of a large integer from its decimal digits: the digits
    themselves below 1e21, the exponent form [d.ddd e+x] from there on.
    This is what JavaScript prints when the digits, without the zeros at
    their end, are the shortest that denote the number, as they are for
    every number of at most 15 significant digits. *)
Definition textOfDigits (n : Z) : jsstring :=
  let digits := ofN (Z.to_N (Z.abs n)) in
  let sign := if (n <? 0)%Z then [45%N] else [] in
  if (Z.abs n <? 10 ^ 21)%Z then sign ++ digits
  else
    match significantDigits digits with
    | [] => digits
    | d :: [] => sign ++ d :: lit "e+" ++ ofN (N.of_nat (Js.length digits - 1))
    | d :: more =>
      sign ++ d :: 46%N :: more
           ++ lit "e+" ++ ofN (N.of_nat (Js.length digits - 1))
    end.

(** The library instance of the closed examples.  The message of a
    [ZodError] is a listing of issues; a fixed text stands for it. *)
Definition referenceLibrary : Library :=
  {| JSON_parse := Reader.parse;
     ZodError := fun _ => Error (lit "Invalid input");
     Number_toString := textOfDigits |}.

(** A client that plays a script: the world is what remains of it.  When
    the script has run out the client no longer answers. *)
Definition scripted : Client (list ClientOutcome) :=
  {| generateContent := fun w _ _ _ =>
       match w with
       | [] => (Pending, [])
       | outcome :: rest => (outcome, rest)
       end;
     generateId := fun _ i => lit "id-" ++ ofN (N.of_nat i);
     newDate := fun _ => 0%N |}.

(* ================================================================== *)
(** * Observations on a run *)
(* ================================================================== *)

(** The number of attempts made, over all models. *)
Fixpoint attemptCount (events : list Event) : nat :=
  match events with
  | [] => 0
  | Attempt _ _ _ :: rest => S (attemptCount rest)
  | Sleep _ :: rest => attemptCount rest
  end.

(** The error of the latest failed attempt, [initial] when none failed. *)
Definition lastErrorOf (initial : option JsError) (events : list Event)
  : option JsError :=
  fold_left (fun last event =>
               match event with
               | Attempt _ _ (Some e) => Some e
               | _ => last
               end) events initial.

Definition categoryName (c : Category) : jsstring :=
  match c with
  | place => lit "place"
  | restaurant => lit "restaurant"
  | experience => lit "experience"
  end.

(** The own properties of the object that a recommendation of the result
    stands for. *)
Definition recommendationMembers (r : Recommendation.t)
  : list (jsstring * json) :=
  [ (lit "category", JStr (categoryName (Recommendation.category r)));
    (lit "name", JStr (Recommendation.name r));
    (lit "description", JStr (Recommendation.description r)) ]
  ++ match Recommendation.location r with
     | Some l => [ (lit "location", JStr l) ]
     | None => []
     end
  ++ [ (lit "id", JStr (Recommendation.id r)) ].

(** A recommendation without its [id]. *)
Definition recommendationData (r : Recommendation.t) : RecommendationData.t :=
  {| RecommendationData.category := Recommendation.category r;
     RecommendationData.name := Recommendation.name r;
     RecommendationData.description := Recommendation.description r;
     RecommendationData.location := Recommendation.location r |}.

(** A time of day: two digits from 00 to 23, a colon, two digits from 00
    to 59. *)
Definition validHHmm (s : jsstring) : bool :=
  match s with
  | [h1; h2; c; m1; m2] =>
    isDigit h1 && isDigit h2 && (c =? 58)%N && isDigit m1 && isDigit m2
    && ((h1 - 48) * 10 + (h2 - 48) <=? 23)%N
    && ((m1 - 48) * 10 + (m2 - 48) <=? 59)%N
  | _ => false
  end.

(** Ascending order of the time strings. *)
Definition timeLe (a b : Activity.t) : Prop :=
  Js.compare (Activity.time a) (Activity.time b) <> Gt.

(* ================================================================== *)
(** * The response parser in the words of the specification *)
(* ================================================================== *)

(** The text after an opening brace, up to the brace that closes it;
    [depth] counts the braces opened since and not yet closed. *)
Fixpoint upToClosing (depth : nat) (s : jsstring) : option jsstring :=
  match s with
  | [] => None
  | c :: r =>
    if (c =? 125)%N then
      match depth with
      | O => Some [c]
      | S d => option_map (cons c) (upToClosing d r)
      end
    else if (c =? 123)%N then option_map (cons c) (upToClosing (S depth) r)
    else option_map (cons c) (upToClosing depth r)
  end.

(** The first balanced substring that opens and closes with a brace. *)
Fixpoint firstBalanced (s : jsstring) : option jsstring :=
  match s with
  | [] => None
  | c :: r =>
    if (c =? 123)%N then
      match upToClosing 0 r with
      | Some body => Some (c :: body)
      | None => firstBalanced r
      end
    else firstBalanced r
  end.

(** The parser as the specification describes it: strip the fences, parse
    directly, fall back on the first balanced substring, else fail. *)
Definition parseAIResponse_spec (lib : Library) (text : jsstring)
  : Outcome json :=
  match JSON_parse lib (stripFences text) with
  | Ok v => Ok v
  | Throw _ =>
    match firstBalanced text with
    | Some balanced => JSON_parse lib balanced
    | None => Throw (Error (lit "No valid JSON found in AI response"))
    end
  end.

(** Two outcomes agree: the same value, or a failure on both sides. *)
Definition agree {A} (x y : Outcome A) : Prop :=
  match x, y with
  | Ok a, Ok b => a = b
  | Throw _, Throw _ => True
  | _, _ => False
  end.

(* ================================================================== *)
(** * Sample data *)
(* ================================================================== *)

Definition sampleInput : TripInput :=
  {| destination := lit "Chiang Mai"; duration := 1 |}.

Definition sampleActivities : String.string :=
  "[{'time':'14:00','name':'Museum','location':'Old town','description':'Afternoon'},
    {'time':'09:00','name':'Temple','location':'Hill','description':'Morning'},
    {'time':'12:00','name':'Lunch','location':'Market','description':'Noon'}]".

(** A response that follows the prompt. *)
Definition sampleResponse : jsstring :=
  quoted ("{'dailySchedules':[{'day':1,'activities':" ++ sampleActivities ++ "}],
           'recommendations':[{'category':'place','name':'Park','description':'Green'}]}").

(** The same response with the day numbered 7. *)
Definition responseDaySeven : jsstring :=
  quoted ("{'dailySchedules':[{'day':7,'activities':" ++ sampleActivities ++ "}],
           'recommendations':[]}").

(** A response with a time outside the clock. *)
Definition responseLateHour : jsstring :=
  quoted "{'dailySchedules':[{'day':1,'activities':[
     {'time':'25:61','name':'a','location':'b','description':'c'},
     {'time':'99:99','name':'a','location':'b','description':'c'},
     {'time':'09:00','name':'a','location':'b','description':'c'}]}],
   'recommendations':[]}".

(** A response whose recommendation brings an [id] of its own, and whose
    first activity brings an [icon]. *)
Definition responseExtraKeys : jsstring :=
  quoted "{'dailySchedules':[{'day':1,'activities':[
     {'time':'09:00','name':'a','location':'b','description':'c','icon':'sun'},
     {'time':'10:00','name':'a','location':'b','description':'c'},
     {'time':'11:00','name':'a','location':'b','description':'c'}]}],
   'recommendations':[{'category':'place','name':'Park','description':'Green','id':'rec-1'}]}".

(** Two JSON objects in one answer. *)
Definition responseTwoObjects : jsstring :=
  quoted "Here you go: {'a':1} or maybe {'b':2}".

(** A response with an hour written with one digit. *)
Definition responseShortHour : jsstring :=
  quoted "{'dailySchedules':[{'day':1,'activities':[
     {'time':'9:00','name':'a','location':'b','description':'c'},
     {'time':'10:00','name':'a','location':'b','description':'c'},
     {'time':'11:00','name':'a','location':'b','description':'c'}]}],
   'recommendations':[]}".

(** What the reference reader makes of a text ([null] if it fails). *)
Definition parsed (text : jsstring) : json :=
  match Reader.parse text with
  | Ok v => v
  | Throw _ => JNull
  end.

Definition sampleParsed : json := Eval vm_compute in parsed sampleResponse.

Definition sampleValidated : ItineraryResponse.t :=
  Eval vm_compute in
    match ItineraryResponseSchema sampleParsed with
    | Some r => r
    | None => {| ItineraryResponse.dailySchedules := [];
                 ItineraryResponse.recommendations := [] |}
    end.

Definition lateHourParsed : json := Eval vm_compute in parsed responseLateHour.

Definition shortHourParsed : json := Eval vm_compute in parsed responseShortHour.

Definition extraKeysParsed : json := Eval vm_compute in parsed responseExtraKeys.

Definition extraKeysMembers : list (jsstring * json) :=
  Eval vm_compute in
    match extraKeysParsed with
    | JObj o => o
    | _ => []
    end.

(** An answer in a fence, and an answer inside a sentence. *)
Definition responseFenced : jsstring :=
  lit "```json
" ++ quoted "{'a':1}" ++ lit "
```".

Definition responseInProse : jsstring :=
  quoted "Here is your plan: {'a':1} Enjoy!".

(** An answer in a fence, with a sentence after the fence; and what is
    left of it when the opening marker is removed. *)
Definition responseFencedThenProse : jsstring :=
  lit "```json
" ++ quoted "{'a':1}" ++ lit "
```
Enjoy!".

Definition responseFencedThenProseBody : jsstring :=
  quoted "{'a':1}" ++ lit "
```
Enjoy!".

Definition blankInput : TripInput :=
  {| destination := lit "   "; duration := 3 |}.

Definition twoDayInput : TripInput :=
  {| destination := lit "Chiang Mai"; duration := 2 |}.

(** A trip of 1e21 days. *)
Definition longTripInput : TripInput :=
  {| destination := lit "Chiang Mai"; duration := 10 ^ 21 |}.

Definition unauthorized : JsError := Error (lit "401 Unauthorized").

Definition modelMissing : JsError :=
  Error (lit "404 models/gemini-2.5-flash is not found").

Definition tooManyRequests : JsError := Error (lit "429 Too Many Requests").

(** A message that reads as a timeout and as a missing model. *)
Definition timeoutOnMissingModel : JsError :=
  Error (lit "504 Gateway timeout: model 404").

Definition rateLimited : JsError := Error (lit "Rate limit exceeded").

(** A message with a transient signal that also reads as a missing
    model. *)
Definition missingOrUnavailable : JsError :=
  Error (lit "Model is not found or temporarily unavailable").

Definition oneModelConfig : Config :=
  {| models := [lit "gemini-2.5-flash"]; maxRetries := 3;
     retryDelay := 1000; timeout := 45000 |}.

Definition twoModelConfig : Config :=
  {| models := [lit "gemini-2.5-flash"; lit "gemini-2.5-pro"];
     maxRetries := 3; retryDelay := 1000; timeout := 45000 |}.

Definition twoModelTwoTriesConfig : Config :=
  {| models := [lit "gemini-2.5-flash"; lit "gemini-2.5-pro"];
     maxRetries := 2; retryDelay := 1000; timeout := 45000 |}.

Definition emptyItinerary : Itinerary.t :=
  {| Itinerary.id := []; Itinerary.destination := [];
     Itinerary.duration := 0; Itinerary.dailySchedules := [];
     Itinerary.recommendations := []; Itinerary.generatedAt := 0 |}.

(** The itinerary made from [sampleResponse]. *)
Definition sampleItinerary : Itinerary.t :=
  Eval vm_compute in
    match buildItinerary referenceLibrary scripted sampleInput []
            sampleResponse with
    | Ok it => it
    | Throw _ => emptyItinerary
    end.

(* ================================================================== *)
(** * How the typed values read a parsed value *)
(* ================================================================== *)

(** The integer [d] is the value of the literal [m * 10 ^ e]. *)
Definition numberIs (m e d : Z) : Prop :=
  if (0 <=? e)%Z then d = (m * 10 ^ e)%Z else m = (d * 10 ^ (- e))%Z.

Definition readsActivity (v : json) (a : Activity.t) : Prop :=
  exists o, v = JObj o
    /\ lookup o (lit "time") = Some (JStr (Activity.time a))
    /\ lookup o (lit "name") = Some (JStr (Activity.name a))
    /\ lookup o (lit "location") = Some (JStr (Activity.location a))
    /\ lookup o (lit "description") = Some (JStr (Activity.description a)).

Definition readsSchedule (v : json) (s : DailySchedule.t) : Prop :=
  exists o m e items, v = JObj o
    /\ lookup o (lit "day") = Some (JNum m e)
    /\ numberIs m e (DailySchedule.day s)
    /\ lookup o (lit "activities") = Some (JArr items)
    /\ Forall2 readsActivity items (DailySchedule.activities s).

Definition readsRecommendation (v : json) (r : RecommendationData.t) : Prop :=
  exists o, v = JObj o
    /\ lookup o (lit "category")
       = Some (JStr (categoryName (RecommendationData.category r)))
    /\ lookup o (lit "name") = Some (JStr (RecommendationData.name r))
    /\ lookup o (lit "description")
       = Some (JStr (RecommendationData.description r))
    /\ lookup o (lit "location")
       = option_map JStr (RecommendationData.location r).

Definition readsResponse (v : json) (r : ItineraryResponse.t) : Prop :=
  exists o schedules recs, v = JObj o
    /\ lookup o (lit "dailySchedules") = Some (JArr schedules)
    /\ Forall2 readsSchedule schedules (ItineraryResponse.dailySchedules r)
    /\ lookup o (lit "recommendations") = Some (JArr recs)
    /\ Forall2 readsRecommendation recs (ItineraryResponse.recommendations r).

(** The parsed response [v] holds, in some activity of some day, the value
    [t] under the key [time]. *)
Definition hasActivityTime (v t : json) : Prop :=
  exists o schedules i so items j ao,
    v = JObj o
    /\ lookup o (lit "dailySchedules") = Some (JArr schedules)
    /\ nth_error schedules i = Some (JObj so)
    /\ lookup so (lit "activities") = Some (JArr items)
    /\ nth_error items j = Some (JObj ao)
    /\ lookup ao (lit "time") = Some t.

(** Two decimal digits, a colon, two decimal digits. *)
Definition twoDigitsColonTwoDigits (s : jsstring) : Prop :=
  exists h1 h2 m1 m2,
    s = [h1; h2; 58%N; m1; m2]
    /\ isDigit h1 = true /\ isDigit h2 = true
    /\ isDigit m1 = true /\ isDigit m2 = true.

(* ================================================================== *)
(** * Scenarios of a run *)
(* ================================================================== *)

(** Every attempt ends in a timeout: it fails with an error whose message
    contains [timeout] and does not read as a missing model. *)
Definition alwaysTimesOut (lib : Library) (World : Type)
  (client : Client World) (input : TripInput) (locale : jsstring) : Prop :=
  forall (w : World) (model : jsstring),
  exists e w' msg,
    generateWithTimeout lib client model input locale w = (Throw e, w')
    /\ message e = Some msg
    /\ includes msg (lit "timeout") = true
    /\ isNotFound e = false.

(** A client that never answers. *)
Definition silent : Client unit :=
  {| generateContent := fun w _ _ _ => (Pending, w);
     generateId := fun _ i => lit "id-" ++ ofN (N.of_nat i);
     newDate := fun _ => 0%N |}.

(* ================================================================== *)
(** * Statements of the specification that the code does not meet *)
(* ================================================================== *)

(** The message names a problem with the API key. *)
Definition isAuthMessage (msg : jsstring) : Prop :=
  includes (toLowerCase msg) (lit "api key") = true
  \/ includes msg (lit "401") = true.

(** The message carries one of the transient signals. *)
Definition isTransientMessage (msg : jsstring) : Prop :=
  exists term, In term retryableTerms /\ includes (toLowerCase msg) term = true.

(** A failure that the loop retries: a transient signal in the message,
    and nothing in it that reads as a missing model. *)
Definition transientFailure (e : JsError) : Prop :=
  exists msg, message e = Some msg
    /\ isTransientMessage msg
    /\ includes msg (lit "not found") = false
    /\ includes msg (lit "404") = false.

(** "An auth error on the first model ends the cascade at once, with that
    error, and no other model is called." *)
Definition auth_error_aborts_cascade : Prop :=
  forall (lib : Library) (World : Type) (client : Client World)
         (cfg : Config) (input : TripInput) (locale : jsstring)
         (w w' : World) (first : jsstring) (rest : list jsstring)
         (e : JsError) (msg : jsstring),
    models cfg = first :: rest ->
    (1 <= maxRetries cfg)%nat ->
    isBlank (destination input) = false ->
    (1 <= duration input)%Z ->
    generateContent client w first input locale = (Rejected e, w') ->
    message e = Some msg ->
    isAuthMessage msg ->
    generateItinerary lib client cfg input locale w
    = (Throw (handleError e), [Attempt first 1 (Some e)]).

(** "Every failure with a transient signal, on an attempt before the last,
    is followed by the backoff delay and another attempt on the same
    model." *)
Definition transient_failure_always_retried : Prop :=
  forall (lib : Library) (World : Type) (client : Client World)
         (cfg : Config) (input : TripInput) (locale : jsstring)
         (w w' : World) (model : jsstring) (lastError : option JsError)
         (e : JsError) (msg : jsstring) (remaining attempt : nat),
    generateWithTimeout lib client model input locale w = (Throw e, w') ->
    message e = Some msg ->
    isTransientMessage msg ->
    (1 <= attempt < maxRetries cfg)%nat ->
    (attempt + remaining = maxRetries cfg)%nat ->
    exists exit w'' next events,
      attempts lib client cfg (S remaining) attempt model input locale w lastError
      = (exit, w'',
         Attempt model attempt (Some e)
           :: Sleep (retryDelay cfg * 2 ^ (Z.of_nat attempt - 1))
           :: Attempt model (S attempt) next
           :: events).

(** "When two models time out on every attempt, the error returned
    carries the number of attempts, [maxRetries * 2]": some way of reading
    a count off the error gives that number in every such run. *)
Definition error_carries_attempt_count : Prop :=
  exists attemptCountOf : JsError -> nat,
    forall (lib : Library) (World : Type) (client : Client World)
           (cfg : Config) (input : TripInput) (locale : jsstring) (w : World)
           (a b : jsstring) (err : JsError) (events : list Event),
      models cfg = [a; b] ->
      (1 <= maxRetries cfg)%nat ->
      isBlank (destination input) = false ->
      (1 <= duration input)%Z ->
      alwaysTimesOut lib client input locale ->
      generateItinerary lib client cfg input locale w = (Throw err, events) ->
      attemptCountOf err = (maxRetries cfg * 2)%nat.

(** "In an accepted result each schedule's day is its position, counted
    from one." *)
Definition days_equal_positions : Prop :=
  forall (lib : Library) (World : Type) (client : Client World)
         (input : TripInput) (w : World) (text : jsstring) (it : Itinerary.t),
    buildItinerary lib client input w text = Ok it ->
    forall (i : nat) (s : DailySchedule.t),
      nth_error (Itinerary.dailySchedules it) i = Some s ->
      DailySchedule.day s = Z.of_nat (S i).

(** "A response is accepted only if every time is a time of day." *)
Definition times_within_the_clock : Prop :=
  forall (v : json) (r : ItineraryResponse.t),
    ItineraryResponseSchema v = Some r ->
    forall (s : DailySchedule.t) (a : Activity.t),
      In s (ItineraryResponse.dailySchedules r) ->
      In a (DailySchedule.activities s) ->
      validHHmm (Activity.time a) = true.

(** "The parser does what the specification describes." *)
Definition parser_follows_specification : Prop :=
  forall (lib : Library) (text : jsstring),
    agree (parseAIResponse lib text) (parseAIResponse_spec lib text).

(** "Every member of a recommendation of the parsed value is a member of
    the recommendation at the same place in the result, with the same
    value." *)
Definition recommendation_fields_pass_through : Prop :=
  forall (lib : Library) (World : Type) (client : Client World)
         (input : TripInput) (w : World) (text : jsstring)
         (o : list (jsstring * json)) (it : Itinerary.t),
    parseAIResponse lib text = Ok (JObj o) ->
    buildItinerary lib client input w text = Ok it ->
    forall (recs : list json) (i : nat) (ro : list (jsstring * json))
           (r : Recommendation.t) (key : jsstring) (x : json),
      lookup o (lit "recommendations") = Some (JArr recs) ->
      nth_error recs i = Some (JObj ro) ->
      nth_error (Itinerary.recommendations it) i = Some r ->
      lookup ro key = Some x ->
      lookup (recommendationMembers r) key = Some x.

(* ================================================================== *)
(** * Further observations on a run *)
(* ================================================================== *)

(** The delays slept, in order. *)
Fixpoint delays (events : list Event) : list Z :=
  match events with
  | [] => []
  | Sleep ms :: rest => ms :: delays rest
  | Attempt _ _ _ :: rest => delays rest
  end.

(** The attempts made, in order: the model and the number of the attempt. *)
Fixpoint attemptsMade (events : list Event) : list (jsstring * nat) :=
  match events with
  | [] => []
  | Attempt model attempt _ :: rest => (model, attempt) :: attemptsMade rest
  | Sleep _ :: rest => attemptsMade rest
  end.

(** The event is an attempt that returned an itinerary. *)
Definition succeeded (event : Event) : bool :=
  match event with
  | Attempt _ _ None => true
  | _ => false
  end.

Definition sumZ (l : list Z) : Z := fold_right Z.add 0%Z l.

(** The attempts numbered 1 to [k] on one model. *)
Definition block (model : jsstring) (k : nat) : list (jsstring * nat) :=
  map (pair model) (seq 1 k).

(** The attempts of a run in which the [i]-th model got [counts[i]]
    attempts, and the delays of such a run. *)
Definition blocksOf (ms : list jsstring) (counts : list nat)
  : list (jsstring * nat) :=
  List.concat (map (fun '(m, k) => block m k) (combine ms counts)).

Definition backoff (cfg : Config) (k : nat) : list Z :=
  map (fun j => (retryDelay cfg * 2 ^ (Z.of_nat j - 1))%Z) (seq 1 (k - 1)).

Definition backoffOf (cfg : Config) (counts : list nat) : list Z :=
  List.concat (map (backoff cfg) counts).

(** The parsed response [v] holds the object [so] among its daily
    schedules, or the object [ro] among its recommendations. *)
Definition hasSchedule (v : json) (so : list (jsstring * json)) : Prop :=
  exists o schedules i,
    v = JObj o
    /\ lookup o (lit "dailySchedules") = Some (JArr schedules)
    /\ nth_error schedules i = Some (JObj so).

Definition hasRecommendation (v : json) (ro : list (jsstring * json)) : Prop :=
  exists o recs i,
    v = JObj o
    /\ lookup o (lit "recommendations") = Some (JArr recs)
    /\ nth_error recs i = Some (JObj ro).

(** What the schemas ask of a validated response beyond the shape of its
    objects. *)
Definition wellFormedSchedule (s : DailySchedule.t) : Prop :=
  (0 < DailySchedule.day s)%Z
  /\ (3 <= List.length (DailySchedule.activities s))%nat
  /\ Forall (fun a => twoDigitsColonTwoDigits (Activity.time a))
            (DailySchedule.activities s).

(** Every attempt on [model] fails in a way that the loop retries. *)
Definition alwaysTransient (lib : Library) (World : Type)
  (client : Client World) (model : jsstring) (input : TripInput)
  (locale : jsstring) : Prop :=
  forall w : World,
  exists e w',
    generateWithTimeout lib client model input locale w = (Throw e, w')
    /\ transientFailure e.

(** A client that always rejects with the same error. *)
Definition rejecting (error : JsError) : Client unit :=
  {| generateContent := fun w _ _ _ => (Rejected error, w);
     generateId := fun _ i => lit "id-" ++ ofN (N.of_nat i);
     newDate := fun _ => 0%N |}.

(** A configuration with no model to try. *)
Definition noModelConfig : Config :=
  {| models := []; maxRetries := 3; retryDelay := 1000; timeout := 45000 |}.

(** An answer in prose, with no JSON in it. *)
Definition responseNoJson : jsstring := lit "Sorry, I cannot plan this trip.".

(** A response with two activities on its only day. *)
Definition responseTwoActivities : jsstring :=
  quoted "{'dailySchedules':[{'day':1,'activities':[
     {'time':'09:00','name':'a','location':'b','description':'c'},
     {'time':'10:00','name':'a','location':'b','description':'c'}]}],
   'recommendations':[]}".

(** A response whose day is numbered zero. *)
Definition responseDayZero : jsstring :=
  quoted ("{'dailySchedules':[{'day':0,'activities':" ++ sampleActivities ++ "}],
           'recommendations':[]}").

(** A response whose recommendation is a hotel. *)
Definition responseHotel : jsstring :=
  quoted ("{'dailySchedules':[{'day':1,'activities':" ++ sampleActivities ++ "}],
           'recommendations':[{'category':'hotel','name':'Inn','description':'Old'}]}").

(* ================================================================== *)
(** * The route [POST /api/itinerary] *)
(* ================================================================== *)

(** The texts of the Thai localization that the route and the form use. *)
Module th.
Definition validation_required : jsstring := lit "กรุณากรอกข้อมูลนี้".
Definition validation_destinationRequired : jsstring :=
  lit "กรุณากรอกจุดหมายปลายทาง".
Definition validation_durationRequired : jsstring := lit "กรุณากรอกจำนวนวัน".
Definition validation_durationMinimum : jsstring :=
  lit "กรุณากรอกจำนวนวันที่ถูกต้อง (ตั้งแต่ 1 วันขึ้นไป)".
Definition errors_generic : jsstring := lit "เกิดข้อผิดพลาด กรุณาลองอีกครั้ง".
Definition errors_aiGenerationFailed : jsstring :=
  lit "การสร้างแผนการเดินทางล้มเหลว กรุณาลองอีกครั้ง".
Definition errors_databaseError : jsstring :=
  lit "เกิดข้อผิดพลาดในการบันทึกข้อมูล".
Definition success_itineraryGenerated : jsstring :=
  lit "สร้างแผนการเดินทางสำเร็จ".
End th.

(** [a || b] on strings: the empty string is falsy. *)
Definition orElse (a b : jsstring) : jsstring :=
  match a with
  | [] => b
  | _ => a
  end.

(** An issue of a failed [safeParse].  A value of the wrong type (with
    [received] absent when the key is missing, and [integer] expected where
    [int()] meets a fraction) has a message of zod's own; a value below a
    minimum has the message that the schema gives. *)
Inductive ZodIssue : Type :=
| invalid_type (path : list jsstring) (expected : String.string)
    (received : option json)
| too_small (path : list jsstring) (message : jsstring).

(** [Number.isInteger] on the value of a literal. *)
Definition isInteger (m e : Z) : bool :=
  ((0 <=? e) || (m mod 10 ^ (- e) =? 0))%Z.

(** The value of a literal that denotes an integer. *)
Definition integerValue (m e : Z) : Z :=
  if (0 <=? e)%Z then (m * 10 ^ e)%Z else (m / 10 ^ (- e))%Z.

(** [value < 1] on the value of a literal. *)
Definition belowOne (m e : Z) : bool :=
  if (0 <=? e)%Z then (m * 10 ^ e <? 1)%Z else (m <? 10 ^ (- e))%Z.

(** [z.string().min(1, th.validation.destinationRequired)] on the value
    under the key [destination]. *)
Definition destinationIssues (v : option json) : list ZodIssue :=
  match v with
  | Some (JStr s) =>
    if (Js.length s <? 1)%nat
    then [too_small [lit "destination"] th.validation_destinationRequired]
    else []
  | _ => [invalid_type [lit "destination"] "string" v]
  end.

(** [z.number().int().min(1, th.validation.durationMinimum)] on the value
    under the key [duration]: both checks run, in this order. *)
Definition durationIssues (v : option json) : list ZodIssue :=
  match v with
  | Some (JNum m e) =>
    (if isInteger m e then [] else [invalid_type [lit "duration"] "integer" v])
    ++ (if belowOne m e
        then [too_small [lit "duration"] th.validation_durationMinimum]
        else [])
  | _ => [invalid_type [lit "duration"] "number" v]
  end.

(** [ItineraryRequestSchema.safeParse(body)]: the data, or the issues in
    the order of the keys of the schema. *)
Definition ItineraryRequestSchema (body : json) : TripInput + list ZodIssue :=
  match body with
  | JObj o =>
    let destination := lookup o (lit "destination") in
    let duration := lookup o (lit "duration") in
    match destination, duration,
          destinationIssues destination ++ durationIssues duration with
    | Some (JStr s), Some (JNum m e), [] =>
      inl {| destination := s; duration := integerValue m e |}
    | _, _, issues => inr issues
    end
  | _ => inr [invalid_type [] "object" (Some body)]
  end.

(** The user of a session; the route reads its [id]. *)
Module User.
Record t : Type := {
  id : jsstring;
  email : jsstring;
}.
End User.

(** What the route sees of a request: the parameter [dev] of its URL, the
    cookie [sessionId], and what [request.json()] gives. *)
Module NextRequest.
Record t : Type := {
  dev : option jsstring;
  sessionId : option jsstring;
  json : Outcome json;
}.
End NextRequest.

(** The argument of [itineraryRepository.create]. *)
Module NewItinerary.
Record t : Type := {
  userId : jsstring;
  destination : jsstring;
  duration : Z;
  dailySchedules : list DailySchedule.t;
  recommendations : list Recommendation.t;
}.
End NewItinerary.

(** The body of a response: [{error}], or [{success: true, message,
    itinerary}]. *)
Inductive ResponseBody : Type :=
| ErrorBody (error : jsstring)
| CreatedBody (message : jsstring) (itinerary : Itinerary.t).

Record NextResponse : Type := {
  status : nat;
  body : ResponseBody;
}.

(** What surrounds the route: the environment variable, the session
    store behind [AuthService.verifySession], the repository, and the
    messages that zod gives to an issue of type.  Each is consulted at
    most once in a run. *)
Record Server : Type := {
  NODE_ENV : option jsstring;
  verifySession : jsstring -> Outcome (option User.t);
  create : NewItinerary.t -> Outcome Itinerary.t;
  typeMessage : list jsstring -> String.string -> option json -> jsstring;
}.

(** [issue.message] *)
Definition issueMessage (server : Server) (issue : ZodIssue) : jsstring :=
  match issue with
  | invalid_type path expected received =>
    typeMessage server path expected received
  | too_small _ message => message
  end.

(** What [requireAuth] returns. *)
Inductive AuthResult : Type :=
| Authenticated (user : User.t)
| Refused (response : NextResponse).

(** A run of the route: its response, the calls of the model and the
    records handed to the repository. *)
Record Run : Type := {
  response : NextResponse;
  modelEvents : list Event;
  createCalls : list NewItinerary.t;
}.

Definition errorResponse (code : nat) (error : jsstring) : NextResponse :=
  {| status := code; body := ErrorBody error |}.

(** A response sent before the generator is reached. *)
Definition early (r : NextResponse) : Run :=
  {| response := r; modelEvents := []; createCalls := [] |}.

Definition devUser : User.t :=
  {| User.id := lit "dev-test-user"; User.email := lit "dev@test.com" |}.

Section Route.
Variable lib : Library.
Variable World : Type.
Variable client : Client World.
Variable server : Server.

(** [verifyAuth]: no cookie, or an empty one, is no session. *)
Definition verifyAuth (request : NextRequest.t) : Outcome (option User.t) :=
  match NextRequest.sessionId request with
  | None | Some [] => Ok None
  | Some sessionId => verifySession server sessionId
  end.

Definition requireAuth (request : NextRequest.t) : Outcome AuthResult :=
  match verifyAuth request with
  | Throw e => Throw e
  | Ok None => Ok (Refused (errorResponse 401 (lit "กรุณาเข้าสู่ระบบ")))
  | Ok (Some user) => Ok (Authenticated user)
  end.

(** [url.searchParams.get('dev') === 'true' &&
     process.env.NODE_ENV === 'development'] *)
Definition isDev (request : NextRequest.t) : bool :=
  match NextRequest.dev request, NODE_ENV server with
  | Some dev, Some env =>
    Js.eqb dev (lit "true") && Js.eqb env (lit "development")
  | _, _ => false
  end.

(** [errors[0] || th.validation.required] *)
Definition firstMessage (issues : list ZodIssue) : jsstring :=
  match map (issueMessage server) issues with
  | m :: _ => orElse m th.validation_required
  | [] => th.validation_required
  end.

(** [error?.message || th.errors.aiGenerationFailed] *)
Definition errorMessage (error : JsError) : jsstring :=
  match message error with
  | Some m => orElse m th.errors_aiGenerationFailed
  | None => th.errors_aiGenerationFailed
  end.

(** The handler.  An exception outside the inner [try] blocks (the session
    store failing) ends in the outer [catch]. *)
Definition POST (request : NextRequest.t) (w : World) : Run :=
  match (if isDev request then Ok (Authenticated devUser)
         else requireAuth request) with
  | Throw _ => early (errorResponse 500 th.errors_generic)
  | Ok (Refused authResult) => early authResult
  | Ok (Authenticated user) =>
    match NextRequest.json request with
    | Throw _ => early (errorResponse 400 th.validation_required)
    | Ok body =>
      match ItineraryRequestSchema body with
      | inr issues => early (errorResponse 400 (firstMessage issues))
      | inl input =>
        match generateItinerary lib client defaultConfig input (lit "th") w with
        | (Throw error, events) =>
          {| response := errorResponse 500 (errorMessage error);
             modelEvents := events;
             createCalls := [] |}
        | (Ok itinerary, events) =>
          let data :=
            {| NewItinerary.userId := User.id user;
               NewItinerary.destination := Itinerary.destination itinerary;
               NewItinerary.duration := Itinerary.duration itinerary;
               NewItinerary.dailySchedules :=
                 Itinerary.dailySchedules itinerary;
               NewItinerary.recommendations :=
                 Itinerary.recommendations itinerary |} in
          match create server data with
          | Ok savedItinerary =>
            {| response :=
                 {| status := 201;
                    body := CreatedBody th.success_itineraryGenerated
                                        savedItinerary |};
               modelEvents := events;
               createCalls := [data] |}
          | Throw _ =>
            {| response := errorResponse 500 th.errors_databaseError;
               modelEvents := events;
               createCalls := [data] |}
          end
        end
      end
    end
  end.

End Route.

(** How a request body reads as a trip input. *)
Definition readsRequest (body : json) (input : TripInput) : Prop :=
  exists o m e,
    body = JObj o
    /\ lookup o (lit "destination") = Some (JStr (destination input))
    /\ lookup o (lit "duration") = Some (JNum m e)
    /\ numberIs m e (duration input).

(** The user on whose behalf a request is served. *)
Definition servedAs (server : Server) (request : NextRequest.t)
  (user : User.t) : Prop :=
  if isDev server request then user = devUser
  else verifyAuth server request = Ok (Some user).

(* ================================================================== *)
(** * The form [DestinationForm] and the page that posts it *)
(* ================================================================== *)

(** The longest run of decimal digits at the head of a string. *)
Fixpoint leadingDigits (s : jsstring) : jsstring :=
  match s with
  | [] => []
  | c :: r => if isDigit c then c :: leadingDigits r else []
  end.

(** The number that a run of decimal digits denotes. *)
Definition decimalValue (digits : jsstring) : Z :=
  fold_left (fun acc c => (acc * 10 + (Z.of_N c - 48))%Z) digits 0%Z.

(** [parseInt(s, 10)]: white space is skipped, a sign is read, then the
    longest run of digits; [None] stands for [NaN].  The value is exact;
    JavaScript rounds it to a binary64, which is the same number below
    2^53. *)
Definition parseInt (s : jsstring) : option Z :=
  let trimmed := trimStart s in
  let '(sign, rest) :=
    match trimmed with
    | 45%N :: r => ((-1)%Z, r)
    | 43%N :: r => (1%Z, r)
    | _ => (1%Z, trimmed)
    end in
  match leadingDigits rest with
  | [] => None
  | digits => Some (sign * decimalValue digits)%Z
  end.

Definition validateDestination (destination : jsstring) : bool :=
  (1 <=? Js.length (trim destination))%nat.

Definition validateDuration (duration : jsstring) : bool :=
  match parseInt duration with
  | None => false
  | Some num => (1 <=? num)%Z
  end.

(** The state [validationErrors]. *)
Module ValidationErrors.
Record t : Type := {
  destination : option jsstring;
  duration : option jsstring;
}.
End ValidationErrors.

(** [validateForm]: the errors that it sets, and whether there is none. *)
Definition validateForm (destination duration : jsstring)
  : ValidationErrors.t * bool :=
  let destinationError :=
    match trim destination with
    | [] => Some th.validation_destinationRequired
    | _ =>
      if negb (validateDestination destination)
      then Some th.validation_destinationRequired
      else None
    end in
  let durationError :=
    match duration with
    | [] => Some th.validation_durationRequired
    | _ =>
      if negb (validateDuration duration)
      then Some th.validation_durationMinimum
      else None
    end in
  ({| ValidationErrors.destination := destinationError;
      ValidationErrors.duration := durationError |},
   match destinationError, durationError with
   | None, None => true
   | _, _ => false
   end).

(** What the form hands to [onSubmit]; the duration is a number, [None]
    being [NaN]. *)
Module Submission.
Record t : Type := {
  destination : jsstring;
  duration : option Z;
}.
End Submission.

(** [handleSubmit] of the form: the data that it submits, if any. *)
Definition handleSubmit (destination duration : jsstring)
  : option Submission.t :=
  if snd (validateForm destination duration)
  then Some {| Submission.destination := trim destination;
               Submission.duration := parseInt duration |}
  else None.

(** What the route reads from the body [JSON.stringify(data)] that the
    page posts, for a duration below 2^53 in magnitude; [NaN] is written
    as [null]. *)
Definition requestBody (data : Submission.t) : json :=
  JObj [ (lit "destination", JStr (Submission.destination data));
         (lit "duration",
          match Submission.duration data with
          | Some n => JNum n 0
          | None => JNull
          end) ].

(** A user, a server that knows one session and stores what it is given,
    and requests from that session. *)
Definition sampleUser : User.t :=
  {| User.id := lit "user-1"; User.email := lit "traveller@example.com" |}.

Definition sampleServer : Server :=
  {| NODE_ENV := Some (lit "production");
     verifySession := fun sessionId =>
       if Js.eqb sessionId (lit "session-1") then Ok (Some sampleUser)
       else Ok None;
     create := fun data =>
       Ok {| Itinerary.id := lit "stored-1";
             Itinerary.destination := NewItinerary.destination data;
             Itinerary.duration := NewItinerary.duration data;
             Itinerary.dailySchedules := NewItinerary.dailySchedules data;
             Itinerary.recommendations := NewItinerary.recommendations data;
             Itinerary.generatedAt := 1%N |};
     typeMessage := fun _ _ _ => lit "Invalid input" |}.

Definition requestWith (body : String.string) : NextRequest.t :=
  {| NextRequest.dev := None;
     NextRequest.sessionId := Some (lit "session-1");
     NextRequest.json := Reader.parse (quoted body) |}.

Definition sampleRequest : NextRequest.t :=
  requestWith "{'destination':'Chiang Mai','duration':1}".

Definition blankRequest : NextRequest.t :=
  requestWith "{'destination':'   ','duration':3}".

Definition emptyDestinationRequest : NextRequest.t :=
  requestWith "{'destination':'','duration':0}".

Definition zeroDayRequest : NextRequest.t :=
  requestWith "{'destination':'Chiang Mai','duration':0}".

(** What the form submits for the texts [  Chiang Mai ] and [1 day], and
    the request that the page makes of it. *)
Definition sampleSubmission : Submission.t :=
  {| Submission.destination := lit "Chiang Mai";
     Submission.duration := Some 1%Z |}.

Definition formRequest : NextRequest.t :=
  {| NextRequest.dev := None;
     NextRequest.sessionId := Some (lit "session-1");
     NextRequest.json := Ok (requestBody sampleSubmission) |}.

(* ================================================================== *)
(** * Facts on strings *)
(* ================================================================== *)

Lemma trimStart_blank (s : jsstring) :
  Forall (fun c => isWhiteSpace c = true) s -> trimStart s = [].
Proof.
  induction 1 as [|c r Hc _ IH]; simpl; [reflexivity|].
  now rewrite Hc.
Qed.

Lemma trimStart_nil_inv (s : jsstring) :
  trimStart s = [] -> Forall (fun c => isWhiteSpace c = true) s.
Proof.
  induction s as [|c r IH]; simpl; intros H; [constructor|].
  destruct (isWhiteSpace c) eqn:Hc; [|discriminate].
  constructor; auto.
Qed.

Lemma trim_blank (s : jsstring) :
  Forall (fun c => isWhiteSpace c = true) s -> trim s = [].
Proof.
  intros H. unfold trim, trimEnd. now rewrite (trimStart_blank H).
Qed.

Lemma trimStart_head (s : jsstring) (d : N) (t : jsstring) :
  trimStart s = d :: t -> isWhiteSpace d = false.
Proof.
  induction s as [|x l IH]; simpl; [discriminate|].
  destruct (isWhiteSpace x) eqn:Hx; [exact IH|].
  intros E. injection E as -> _. exact Hx.
Qed.

Lemma trim_nil_inv (s : jsstring) :
  trim s = [] -> Forall (fun c => isWhiteSpace c = true) s.
Proof.
  unfold trim, trimEnd. intros H.
  apply (f_equal (@rev N)) in H. rewrite rev_involutive in H.
  change (rev []) with (@nil N) in H.
  apply trimStart_nil_inv in H.
  destruct (trimStart s) as [|d t] eqn:Ht.
  - now apply trimStart_nil_inv.
  - exfalso. apply trimStart_head in Ht.
    change (rev (d :: t)) with (rev t ++ [d]) in H.
    apply Forall_app in H. destruct H as [_ H].
    inversion H as [|? ? Hws _]; subst. congruence.
Qed.

Lemma isBlank_spec (s : jsstring) :
  isBlank s = true <-> Forall (fun c => isWhiteSpace c = true) s.
Proof.
  split.
  - destruct s as [|c r]; [constructor|].
    unfold isBlank, Js.length. intros H.
    apply Nat.eqb_eq, length_zero_iff_nil in H.
    now apply trim_nil_inv.
  - intros H. destruct s as [|c r]; [reflexivity|].
    unfold isBlank. now rewrite (trim_blank H).
Qed.

Lemma compare_flip (a b : jsstring) :
  Js.compare b a = CompOpp (Js.compare a b).
Proof.
  revert b. induction a as [|x a IH]; intros [|y b]; simpl; try reflexivity.
  rewrite (N.compare_antisym x y).
  destruct (x ?= y)%N; simpl; auto.
Qed.

Lemma compare_le_trans (a b c : jsstring) :
  Js.compare a b <> Gt -> Js.compare b c <> Gt -> Js.compare a c <> Gt.
Proof.
  revert b c. induction a as [|x a IH]; intros [|y b] [|z c]; simpl;
    try congruence.
  destruct (N.compare_spec x y) as [->|Hxy|Hxy]; [| |congruence].
  - destruct (y ?= z)%N eqn:Hyz; try congruence. eauto.
  - destruct (N.compare_spec y z) as [->|Hyz|Hyz]; [| |congruence]; intros _ _.
    + rewrite (proj2 (N.compare_lt_iff x z) Hxy). discriminate.
    + rewrite (proj2 (N.compare_lt_iff x z) (N.lt_trans _ _ _ Hxy Hyz)).
      discriminate.
Qed.

(* ================================================================== *)
(** * Facts on the sort *)
(* ================================================================== *)

Section SortFacts.
Variable A : Type.
Variable compareFn : A -> A -> comparison.

Hypothesis compare_total : forall x y, compareFn x y = Gt -> orderedBy compareFn y x.
Hypothesis compare_trans : forall x y z, orderedBy compareFn x y -> orderedBy compareFn y z -> orderedBy compareFn x z.

Lemma insert_permutation (x : A) (l : list A) :
  Permutation (x :: l) (insert compareFn x l).
Proof.
  induction l as [|y r IH]; simpl; [apply Permutation_refl|].
  destruct (compareFn x y); try apply Permutation_refl.
  eapply Permutation_trans; [apply perm_swap|]. now apply perm_skip.
Qed.

Lemma sort_permutation (l : list A) : Permutation l (sort compareFn l).
Proof.
  induction l as [|x r IH]; simpl; [constructor|].
  eapply Permutation_trans; [|apply insert_permutation].
  now apply perm_skip.
Qed.

Lemma insert_ordered (x : A) (l : list A) :
  StronglySorted (orderedBy compareFn) l -> StronglySorted (orderedBy compareFn) (insert compareFn x l).
Proof.
  induction 1 as [|y r Hr IH Hy]; simpl.
  - repeat constructor.
  - destruct (compareFn x y) eqn:Hxy.
    + constructor; [now constructor|].
      assert (Hle : orderedBy compareFn x y) by (unfold orderedBy; congruence).
      constructor; [exact Hle|].
      eapply Forall_impl; [|exact Hy]. intros z Hz. eauto.
    + constructor; [now constructor|].
      assert (Hle : orderedBy compareFn x y) by (unfold orderedBy; congruence).
      constructor; [exact Hle|].
      eapply Forall_impl; [|exact Hy]. intros z Hz. eauto.
    + constructor; [exact IH|].
      eapply Permutation_Forall; [apply insert_permutation|].
      constructor; auto.
Qed.

Lemma sort_ordered (l : list A) : StronglySorted (orderedBy compareFn) (sort compareFn l).
Proof.
  induction l as [|x r IH]; simpl; [constructor|].
  now apply insert_ordered.
Qed.

End SortFacts.

Lemma sortActivities_ordered (s : DailySchedule.t) :
  StronglySorted timeLe (DailySchedule.activities (sortActivities s)).
Proof.
  unfold sortActivities; simpl.
  apply (@sort_ordered _ (fun a b => localeCompare (Activity.time a) (Activity.time b))).
  - intros x y H. unfold orderedBy, localeCompare in *.
    rewrite compare_flip, H. discriminate.
  - intros x y z. unfold localeCompare. apply compare_le_trans.
Qed.

Lemma sortActivities_permutation (s : DailySchedule.t) :
  Permutation (DailySchedule.activities s)
              (DailySchedule.activities (sortActivities s)).
Proof. apply sort_permutation. Qed.


(* ================================================================== *)
(** * Facts on the schemas *)
(* ================================================================== *)

Lemma eqb_eq (a b : jsstring) : Js.eqb a b = true -> a = b.
Proof.
  revert b. induction a as [|x a IH]; intros [|y b]; simpl;
    try discriminate; [reflexivity|].
  intros H. apply andb_prop in H. destruct H as [Hxy Hab].
  apply N.eqb_eq in Hxy. subst. f_equal. auto.
Qed.

Lemma timeRegex_spec (s : jsstring) :
  timeRegex s = true <-> twoDigitsColonTwoDigits s.
Proof.
  split.
  - destruct s as [|h1 [|h2 [|c [|m1 [|m2 [|x r]]]]]]; unfold timeRegex;
      try discriminate.
    destruct (isDigit h1) eqn:H1, (isDigit h2) eqn:H2, (c =? 58)%N eqn:Hc,
      (isDigit m1) eqn:H3, (isDigit m2) eqn:H4; try discriminate.
    intros _. apply N.eqb_eq in Hc. subst c.
    exists h1, h2, m1, m2. auto.
  - intros (h1 & h2 & m1 & m2 & -> & H1 & H2 & H3 & H4). unfold timeRegex.
    now rewrite H1, H2, H3, H4.
Qed.

Lemma bind_inv {A B} (o : option A) (f : A -> option B) (b : B) :
  z.bind o f = Some b -> exists a, o = Some a /\ f a = Some b.
Proof. destruct o; simpl; [eauto|discriminate]. Qed.

Lemma traverse_Forall2 {A B} (f : A -> option B) (l : list A) (l' : list B) :
  z.traverse f l = Some l' -> Forall2 (fun x y => f x = Some y) l l'.
Proof.
  revert l'. induction l as [|x r IH]; simpl; intros l' H.
  - injection H as <-. constructor.
  - apply bind_inv in H. destruct H as (y & Hy & H).
    apply bind_inv in H. destruct H as (ys & Hys & H).
    injection H as <-. constructor; auto.
Qed.

Lemma field_inv {A} (o : list (jsstring * json)) (k : String.string)
  (s : Schema A) (a : A) :
  z.field o k s = Some a -> exists v, lookup o (lit k) = Some v /\ s v = Some a.
Proof. apply bind_inv. Qed.

Lemma string_inv (v : json) (s : jsstring) : z.string v = Some s -> v = JStr s.
Proof. destruct v; simpl; try discriminate. now intros [= ->]. Qed.

Lemma field_string_inv (o : list (jsstring * json)) (k : String.string)
  (s : jsstring) :
  z.field o k z.string = Some s -> lookup o (lit k) = Some (JStr s).
Proof.
  intros H. apply field_inv in H. destruct H as (v & Hv & H).
  apply string_inv in H. now subst.
Qed.

Lemma object_inv {A} (shape : list (jsstring * json) -> option A)
  (v : json) (a : A) :
  z.object shape v = Some a -> exists o, v = JObj o /\ shape o = Some a.
Proof. destruct v; simpl; try discriminate. eauto. Qed.

Lemma array_inv {A} (item : Schema A) (v : json) (l : list A) :
  z.array item v = Some l ->
  exists items, v = JArr items /\ Forall2 (fun x y => item x = Some y) items l.
Proof.
  destruct v; simpl; try discriminate. intros H.
  eexists; split; [reflexivity|]. now apply traverse_Forall2.
Qed.

Lemma number_int_positive_inv (v : json) (d : Z) :
  z.number_int_positive v = Some d ->
  exists m e, v = JNum m e /\ numberIs m e d /\ (0 < d)%Z.
Proof.
  destruct v as [| |m e| | |]; simpl; try discriminate.
  destruct (m <=? 0)%Z eqn:Hm; [discriminate|].
  apply Z.leb_gt in Hm.
  destruct (0 <=? e)%Z eqn:He.
  - intros [= <-]. exists m, e. unfold numberIs. rewrite He.
    repeat split; auto.
    apply Z.leb_le in He.
    assert (0 < 10 ^ e)%Z by (apply Z.pow_pos_nonneg; lia). nia.
  - destruct (m mod 10 ^ (- e) =? 0)%Z eqn:Hmod; [|discriminate].
    intros [= <-]. exists m, e. unfold numberIs. rewrite He.
    apply Z.leb_gt in He. apply Z.eqb_eq in Hmod.
    assert (Hp : (0 < 10 ^ (- e))%Z) by (apply Z.pow_pos_nonneg; lia).
    assert (Hdiv : (m = 10 ^ (- e) * (m / 10 ^ (- e)))%Z).
    { pose proof (Z.div_mod m (10 ^ (- e))) as D. lia. }
    repeat split; auto; nia.
Qed.

Lemma ActivitySchema_inv (v : json) (a : Activity.t) :
  ActivitySchema v = Some a ->
  readsActivity v a /\ timeRegex (Activity.time a) = true.
Proof.
  intros H. apply object_inv in H. destruct H as (o & -> & H).
  apply bind_inv in H. destruct H as (time & Htime & H).
  apply bind_inv in H. destruct H as (name & Hname & H).
  apply bind_inv in H. destruct H as (location & Hlocation & H).
  apply bind_inv in H. destruct H as (description & Hdescription & H).
  injection H as <-. simpl.
  apply field_inv in Htime. destruct Htime as (t & Ht & Hre).
  apply bind_inv in Hre. destruct Hre as (t' & Hstr & Hre).
  apply string_inv in Hstr. subst t.
  destruct (timeRegex t') eqn:Hshape; [|discriminate]. injection Hre as <-.
  apply field_string_inv in Hname, Hlocation, Hdescription.
  split; [|exact Hshape].
  exists o. simpl. auto.
Qed.

Lemma DailyScheduleSchema_inv (v : json) (s : DailySchedule.t) :
  DailyScheduleSchema v = Some s ->
  readsSchedule v s
  /\ (0 < DailySchedule.day s)%Z
  /\ (3 <= List.length (DailySchedule.activities s))%nat
  /\ Forall (fun a => timeRegex (Activity.time a) = true)
            (DailySchedule.activities s).
Proof.
  intros H. apply object_inv in H. destruct H as (o & -> & H).
  apply bind_inv in H. destruct H as (day & Hday & H).
  apply bind_inv in H. destruct H as (acts & Hacts & H).
  injection H as <-. simpl.
  apply field_inv in Hday. destruct Hday as (n & Hn & Hday).
  apply number_int_positive_inv in Hday. destruct Hday as (m & e & -> & Hval & Hpos).
  apply field_inv in Hacts. destruct Hacts as (arr & Harr & Hacts).
  apply bind_inv in Hacts. destruct Hacts as (l & Hl & Hmin).
  destruct (3 <=? List.length l)%nat eqn:Hlen; [|discriminate].
  injection Hmin as <-. apply Nat.leb_le in Hlen.
  apply array_inv in Hl. destruct Hl as (items & -> & Hitems).
  repeat split; auto.
  - exists o, m, e, items. simpl. repeat split; auto.
    eapply Forall2_impl; [|exact Hitems].
    intros x y Hxy. now apply ActivitySchema_inv in Hxy.
  - clear - Hitems. induction Hitems as [|x y r r' Hxy _ IH]; constructor; auto.
    now apply ActivitySchema_inv in Hxy.
Qed.

Lemma CategorySchema_inv (v : json) (c : Category) :
  CategorySchema v = Some c -> v = JStr (categoryName c).
Proof.
  intros H. apply bind_inv in H. destruct H as (s & Hs & H).
  apply string_inv in Hs. subst v.
  destruct (Js.eqb s (lit "place")) eqn:E1.
  { injection H as <-. now apply eqb_eq in E1; subst. }
  destruct (Js.eqb s (lit "restaurant")) eqn:E2.
  { injection H as <-. now apply eqb_eq in E2; subst. }
  destruct (Js.eqb s (lit "experience")) eqn:E3; [|discriminate].
  injection H as <-. now apply eqb_eq in E3; subst.
Qed.

Lemma RecommendationSchema_inv (v : json) (r : RecommendationData.t) :
  RecommendationSchema v = Some r -> readsRecommendation v r.
Proof.
  intros H. apply object_inv in H. destruct H as (o & -> & H).
  apply bind_inv in H. destruct H as (category & Hcategory & H).
  apply bind_inv in H. destruct H as (name & Hname & H).
  apply bind_inv in H. destruct H as (description & Hdescription & H).
  apply bind_inv in H. destruct H as (location & Hlocation & H).
  injection H as <-.
  apply field_inv in Hcategory. destruct Hcategory as (c & Hc & Hcategory).
  apply CategorySchema_inv in Hcategory. subst c.
  apply field_string_inv in Hname, Hdescription.
  exists o. simpl. repeat split; auto.
  unfold z.optional in Hlocation.
  destruct (lookup o (lit "location")) as [l|]; [|now injection Hlocation as <-].
  apply bind_inv in Hlocation. destruct Hlocation as (x & Hx & Hlocation).
  apply string_inv in Hx. injection Hlocation as <-. now subst.
Qed.

Lemma ItineraryResponseSchema_inv (v : json) (r : ItineraryResponse.t) :
  ItineraryResponseSchema v = Some r ->
  readsResponse v r
  /\ Forall (fun s => (0 < DailySchedule.day s)%Z
                      /\ (3 <= List.length (DailySchedule.activities s))%nat
                      /\ Forall (fun a => timeRegex (Activity.time a) = true)
                                (DailySchedule.activities s))
            (ItineraryResponse.dailySchedules r).
Proof.
  intros H. apply object_inv in H. destruct H as (o & -> & H).
  apply bind_inv in H. destruct H as (ds & Hds & H).
  apply bind_inv in H. destruct H as (recs & Hrecs & H).
  injection H as <-. simpl.
  apply field_inv in Hds. destruct Hds as (a1 & Ha1 & Hds).
  apply array_inv in Hds. destruct Hds as (schedules & -> & Hds).
  apply field_inv in Hrecs. destruct Hrecs as (a2 & Ha2 & Hrecs).
  apply array_inv in Hrecs. destruct Hrecs as (items & -> & Hrecs).
  split.
  - exists o, schedules, items. simpl. repeat split; auto.
    + eapply Forall2_impl; [|exact Hds].
      intros x y Hxy. now apply DailyScheduleSchema_inv in Hxy.
    + eapply Forall2_impl; [|exact Hrecs].
      intros x y Hxy. now apply RecommendationSchema_inv in Hxy.
  - clear - Hds. induction Hds as [|x y l l' Hxy _ IH]; constructor; auto.
    now apply DailyScheduleSchema_inv in Hxy.
Qed.

(* ================================================================== *)
(** * Facts on [includes] *)
(* ================================================================== *)

Lemma startsWith_spec (s p : jsstring) :
  startsWith s p = true <-> exists post, s = p ++ post.
Proof.
  revert s. induction p as [|c p IH]; intros s; simpl.
  - destruct s; simpl; split; eauto.
  - destruct s as [|d s]; [split; [discriminate|intros [post H]; discriminate]|].
    cbn [startsWith]. rewrite andb_true_iff, N.eqb_eq, IH. split.
    + intros [-> [post ->]]. eauto.
    + intros [post [= -> ->]]. eauto.
Qed.

Lemma includes_spec (s needle : jsstring) :
  includes s needle = true <-> exists pre post, s = pre ++ needle ++ post.
Proof.
  induction s as [|d s IH].
  - cbn [includes]. rewrite orb_false_r, startsWith_spec. split.
    + intros [post H]. exists [], post. exact H.
    + intros (pre & post & H). destruct pre; [eauto|discriminate].
  - cbn [includes]. rewrite orb_true_iff, startsWith_spec, IH. split.
    + intros [[post H]|(pre & post & H)].
      * exists [], post. exact H.
      * exists (d :: pre), post. simpl. now rewrite H.
    + intros (pre & post & H). destruct pre as [|x pre].
      * left. eauto.
      * right. injection H as _ H. eauto.
Qed.

(** Lowering a text keeps the terms that are in lower case already. *)
Lemma includes_toLowerCase (s needle : jsstring) :
  toLowerCase needle = needle ->
  includes s needle = true -> includes (toLowerCase s) needle = true.
Proof.
  intros Hfix H. apply includes_spec in H. destruct H as (pre & post & ->).
  apply includes_spec. exists (toLowerCase pre), (toLowerCase post).
  unfold toLowerCase in *. now rewrite !flat_map_app, Hfix.
Qed.

Lemma isRetryableError_spec (e : JsError) (msg : jsstring) :
  message e = Some msg ->
  (isRetryableError e = true <-> isTransientMessage msg).
Proof.
  intros Hmsg. unfold isRetryableError, includesSome, isTransientMessage.
  rewrite Hmsg, existsb_exists. reflexivity.
Qed.

Lemma isNotFound_spec (e : JsError) (msg : jsstring) :
  message e = Some msg ->
  (isNotFound e = true
   <-> includes msg (lit "not found") = true \/ includes msg (lit "404") = true).
Proof.
  intros Hmsg. unfold isNotFound, messageIncludes. rewrite Hmsg.
  apply orb_true_iff.
Qed.

(* ================================================================== *)
(** * Facts on [buildItinerary] *)
(* ================================================================== *)

Lemma generated_ids (f : nat * RecommendationData.t -> Recommendation.t)
  (g : nat -> jsstring) (recs : list RecommendationData.t) (start : nat) :
  (forall i rec, Recommendation.id (f (i, rec)) = g i) ->
  map Recommendation.id (map f (combine (seq start (List.length recs)) recs))
  = map g (seq start (List.length recs)).
Proof.
  intros Hf. revert start.
  induction recs as [|rec recs IH]; intros start; simpl; [reflexivity|].
  now rewrite Hf, IH.
Qed.

Lemma strip_ids (f : nat * RecommendationData.t -> Recommendation.t)
  (recs : list RecommendationData.t) (start : nat) :
  (forall i rec, recommendationData (f (i, rec)) = rec) ->
  map recommendationData (map f (combine (seq start (List.length recs)) recs))
  = recs.
Proof.
  intros Hf. revert start.
  induction recs as [|rec recs IH]; intros start; simpl; [reflexivity|].
  now rewrite Hf, IH.
Qed.

Section BuildFacts.
Variable lib : Library.
Variable World : Type.
Variable client : Client World.
Variable input : TripInput.
Variable w : World.
Variable text : jsstring.

(** What an accepted response went through. *)
Lemma buildItinerary_accepts (it : Itinerary.t) :
  buildItinerary lib client input w text = Ok it ->
  exists v validated,
    parseAIResponse lib text = Ok v
    /\ ItineraryResponseSchema v = Some validated
    /\ Z.of_nat (List.length (ItineraryResponse.dailySchedules validated))
       = duration input
    /\ Itinerary.dailySchedules it
       = map sortActivities (ItineraryResponse.dailySchedules validated)
    /\ map recommendationData (Itinerary.recommendations it)
       = ItineraryResponse.recommendations validated
    /\ map Recommendation.id (Itinerary.recommendations it)
       = map (fun i => generateId client w (S i))
             (seq 0 (List.length (ItineraryResponse.recommendations validated)))
    /\ Itinerary.destination it = destination input
    /\ Itinerary.duration it = duration input.
Proof.
  unfold buildItinerary.
  destruct (parseAIResponse lib text) as [v|e] eqn:Hparse; [|discriminate].
  destruct (ItineraryResponseSchema v) as [validated|] eqn:Hschema;
    [|discriminate].
  rewrite length_map.
  destruct (Z.of_nat _ =? duration input)%Z eqn:Hlen; [|discriminate].
  simpl. intros [= <-]. apply Z.eqb_eq in Hlen. simpl.
  exists v, validated. repeat split; auto.
  - apply strip_ids. intros i []. reflexivity.
  - apply (generated_ids _ (fun i => generateId client w (S i))).
    intros i []. reflexivity.
Qed.

(** A response that parses and passes the schema is accepted when it has
    one schedule per day, and refused otherwise. *)
Lemma buildItinerary_validated (v : json) (validated : ItineraryResponse.t) :
  parseAIResponse lib text = Ok v ->
  ItineraryResponseSchema v = Some validated ->
  let given := ItineraryResponse.dailySchedules validated in
  if (Z.of_nat (List.length given) =? duration input)%Z
  then exists it, buildItinerary lib client input w text = Ok it
  else buildItinerary lib client input w text
       = Throw (Error (lit "Expected " ++ numberText lib (duration input)
                       ++ lit " days but got "
                       ++ ofN (N.of_nat (List.length given)))).
Proof.
  intros Hparse Hschema given. unfold buildItinerary.
  rewrite Hparse, Hschema, length_map. fold given.
  destruct (Z.of_nat _ =? duration input)%Z; simpl; eauto.
Qed.

Lemma buildItinerary_rejected (v : json) :
  parseAIResponse lib text = Ok v ->
  ItineraryResponseSchema v = None ->
  buildItinerary lib client input w text = Throw (ZodError lib v).
Proof.
  intros Hparse Hschema. unfold buildItinerary. now rewrite Hparse, Hschema.
Qed.
End BuildFacts.

(* ================================================================== *)
(** * Properties of the validation of a response *)
(* ================================================================== *)

Lemma Forall2_nth_error {A B} (R : A -> B -> Prop) (l : list A) (l' : list B) :
  Forall2 R l l' ->
  forall i x, nth_error l i = Some x ->
  exists y, nth_error l' i = Some y /\ R x y.
Proof.
  induction 1 as [|a b r r' Hab _ IH]; intros [|i] x; simpl; try discriminate.
  - intros [= <-]. eauto.
  - apply IH.
Qed.

Lemma sorted_schedules (schedules : list DailySchedule.t) :
  Forall2 (fun given s =>
             DailySchedule.day s = DailySchedule.day given
             /\ Permutation (DailySchedule.activities given)
                            (DailySchedule.activities s))
          schedules (map sortActivities schedules).
Proof.
  induction schedules as [|s r IH]; simpl; constructor; auto.
  split; [reflexivity|apply sortActivities_permutation].
Qed.

(** C5 (amended).  A response that parses and passes the schema is accepted
    exactly when it has one daily schedule per requested day.  The accepted
    result has that many schedules, each with at least three activities and
    a day that is a positive integer: the day the response gave at that
    position, which the validator never compares with the position.  A
    response with another number of schedules is refused with an error,
    neither truncated nor padded; the error names the two numbers as
    JavaScript prints them, the requested one with all its decimal digits
    when it is below 2^53. *)
Theorem schedules_match_duration
  (lib : Library) (World : Type) (client : Client World)
  (input : TripInput) (w : World) (text : jsstring)
  (v : json) (validated : ItineraryResponse.t) :
  parseAIResponse lib text = Ok v ->
  ItineraryResponseSchema v = Some validated ->
  let given := ItineraryResponse.dailySchedules validated in
  if (Z.of_nat (List.length given) =? duration input)%Z
  then exists it,
      buildItinerary lib client input w text = Ok it
      /\ Z.of_nat (List.length (Itinerary.dailySchedules it)) = duration input
      /\ Forall (fun s => (3 <= List.length (DailySchedule.activities s))%nat
                          /\ (0 < DailySchedule.day s)%Z)
                (Itinerary.dailySchedules it)
      /\ map DailySchedule.day (Itinerary.dailySchedules it)
         = map DailySchedule.day given
      /\ readsResponse v validated
  else buildItinerary lib client input w text
       = Throw (Error (lit "Expected " ++ numberText lib (duration input)
                       ++ lit " days but got "
                       ++ ofN (N.of_nat (List.length given))))
       /\ ((Z.abs (duration input) < 2 ^ 53)%Z ->
           numberText lib (duration input) = ofZ (duration input)).
Proof.
  intros Hparse Hschema given.
  pose proof (@buildItinerary_validated lib World client input w text
                v validated Hparse Hschema) as H.
  cbv zeta in H. fold given in H.
  destruct (Z.of_nat (List.length given) =? duration input)%Z eqn:Hlen.
  2:{ split; [exact H|]. intros Hbound. unfold numberText.
      apply Z.ltb_lt in Hbound. now rewrite Hbound. }
  destruct H as [it Hit]. exists it. split; [exact Hit|].
  apply buildItinerary_accepts in Hit.
  destruct Hit as (v' & validated' & Hparse' & Hschema' & Hn & Hds & _).
  rewrite Hparse in Hparse'. injection Hparse' as <-.
  rewrite Hschema in Hschema'. injection Hschema' as <-.
  apply ItineraryResponseSchema_inv in Hschema. destruct Hschema as [Hreads Hall].
  rewrite Hds, length_map. repeat split; auto.
  - apply Forall_map. eapply Forall_impl; [|exact Hall].
    intros s (Hday & Hlen3 & _). split; [|exact Hday].
    now rewrite <- (Permutation_length (sortActivities_permutation s)).
  - rewrite map_map. reflexivity.
Qed.

(** C6 (amended).  A parsed response in which some activity has, under
    [time], anything but a string of two decimal digits, a colon and two
    decimal digits is refused by the schema, and the attempt fails with the
    [ZodError].  The digits are not checked against the clock. *)
Theorem malformed_time_rejected
  (lib : Library) (World : Type) (client : Client World)
  (input : TripInput) (w : World) (text : jsstring) (v t : json) :
  parseAIResponse lib text = Ok v ->
  hasActivityTime v t ->
  (forall s, t = JStr s -> ~ twoDigitsColonTwoDigits s) ->
  ItineraryResponseSchema v = None
  /\ buildItinerary lib client input w text = Throw (ZodError lib v).
Proof.
  intros Hparse Htime Hshape.
  assert (Hnone : ItineraryResponseSchema v = None).
  { destruct (ItineraryResponseSchema v) as [r|] eqn:Hschema; [|reflexivity].
    exfalso.
    apply ItineraryResponseSchema_inv in Hschema.
    destruct Hschema as [(o & schedules & recs & -> & Hds & Hread & _) Hall].
    destruct Htime as (o' & schedules' & i & so & items & j & ao
                       & [= <-] & Hds' & Hi & Hitems & Hj & Ht).
    rewrite Hds in Hds'. injection Hds' as <-.
    destruct (Forall2_nth_error Hread _ Hi) as (s & Hs & Hrs).
    destruct Hrs as (so' & m & e & items' & [= <-] & _ & _ & Hitems' & Hacts).
    rewrite Hitems in Hitems'. injection Hitems' as <-.
    destruct (Forall2_nth_error Hacts _ Hj) as (a & Ha & Hra).
    destruct Hra as (ao' & [= <-] & Ht' & _).
    rewrite Ht in Ht'. injection Ht' as ->.
    apply (Hshape _ eq_refl). apply timeRegex_spec.
    rewrite Forall_forall in Hall.
    destruct (Hall s (nth_error_In _ _ Hs)) as (_ & _ & Htimes).
    rewrite Forall_forall in Htimes.
    exact (Htimes a (nth_error_In _ _ Ha)). }
  split; [exact Hnone|]. now apply buildItinerary_rejected.
Qed.

(** C7.  In an accepted result every day holds the activities that the
    response gave for that day, all of them and no other (a permutation of
    the validated ones, whatever their order in the response), in ascending
    order of their time strings. *)
Theorem activities_sorted_by_time
  (lib : Library) (World : Type) (client : Client World)
  (input : TripInput) (w : World) (text : jsstring) (it : Itinerary.t) :
  buildItinerary lib client input w text = Ok it ->
  exists v validated,
    parseAIResponse lib text = Ok v
    /\ readsResponse v validated
    /\ Forall2 (fun given s =>
                  Permutation (DailySchedule.activities given)
                              (DailySchedule.activities s)
                  /\ StronglySorted timeLe (DailySchedule.activities s))
               (ItineraryResponse.dailySchedules validated)
               (Itinerary.dailySchedules it).
Proof.
  intros H. apply buildItinerary_accepts in H.
  destruct H as (v & validated & Hparse & Hschema & _ & -> & _).
  exists v, validated. split; [exact Hparse|].
  apply ItineraryResponseSchema_inv in Hschema. split; [apply Hschema|].
  clear. induction (ItineraryResponse.dailySchedules validated) as [|s r IH];
    simpl; constructor; [|exact IH].
  split; [apply sortActivities_permutation|apply sortActivities_ordered].
Qed.

(** C9 (amended).  Between the parsed value and the result, the fields that
    the schemas declare are unchanged but for the order of the activities:
    the schedules keep their order and their day, the activities of a day
    are a permutation of the parsed ones with their four fields, and the
    recommendations keep their order, category, name, description and
    location.  Keys that the schemas do not declare are not carried over,
    and every recommendation receives a generated [id]. *)
Theorem declared_fields_pass_through
  (lib : Library) (World : Type) (client : Client World)
  (input : TripInput) (w : World) (text : jsstring) (it : Itinerary.t) :
  buildItinerary lib client input w text = Ok it ->
  exists v validated,
    parseAIResponse lib text = Ok v
    /\ readsResponse v validated
    /\ Forall2 (fun given s =>
                  DailySchedule.day s = DailySchedule.day given
                  /\ Permutation (DailySchedule.activities given)
                                 (DailySchedule.activities s))
               (ItineraryResponse.dailySchedules validated)
               (Itinerary.dailySchedules it)
    /\ map recommendationData (Itinerary.recommendations it)
       = ItineraryResponse.recommendations validated
    /\ map Recommendation.id (Itinerary.recommendations it)
       = map (fun i => generateId client w (S i))
             (seq 0 (List.length (ItineraryResponse.recommendations validated))).
Proof.
  intros H. apply buildItinerary_accepts in H.
  destruct H as (v & validated & Hparse & Hschema & _ & -> & Hrecs & Hids & _).
  exists v, validated. repeat split; auto.
  - now apply ItineraryResponseSchema_inv in Hschema.
  - apply sorted_schedules.
Qed.

(* ================================================================== *)
(** * Facts on the retry loop and the cascade *)
(* ================================================================== *)

Lemma attemptCount_app (xs ys : list Event) :
  attemptCount (xs ++ ys) = (attemptCount xs + attemptCount ys)%nat.
Proof.
  induction xs as [|[model k f|ms] xs IH]; simpl; auto.
Qed.

Lemma lastErrorOf_app (initial : option JsError) (xs ys : list Event) :
  lastErrorOf initial (xs ++ ys) = lastErrorOf (lastErrorOf initial xs) ys.
Proof. apply fold_left_app. Qed.

Lemma classify_timeout (e : JsError) (msg : jsstring) :
  message e = Some msg ->
  includes msg (lit "timeout") = true ->
  classify e = KTimeout.
Proof.
  intros Hmsg Hinc. unfold classify. rewrite Hmsg.
  destruct msg as [|c msg]; [discriminate|]. now rewrite Hinc.
Qed.

Lemma timeout_is_retryable (e : JsError) (msg : jsstring) :
  message e = Some msg ->
  includes msg (lit "timeout") = true ->
  isRetryableError e = true.
Proof.
  intros Hmsg Hinc. apply (isRetryableError_spec _ Hmsg).
  exists (lit "timeout"). split; [now left|].
  now apply includes_toLowerCase.
Qed.

Section CascadeFacts.
Variable lib : Library.
Variable World : Type.
Variable client : Client World.
Variable cfg : Config.
Variable input : TripInput.
Variable locale : jsstring.

(** The first result ends the attempts lib client cfg and the cascade. *)
Lemma attempts_success (remaining attempt : nat) (model : jsstring)
  (w w' : World) (lastError : option JsError) (result : Itinerary.t) :
  generateWithTimeout lib client model input locale w = (Ok result, w') ->
  attempts lib client cfg (S remaining) attempt model input locale w lastError
  = (Return result, w', [Attempt model attempt None]).
Proof. intros H. simpl. now rewrite H. Qed.

(** A model that is not found is left at once. *)
Lemma attempts_not_found (remaining attempt : nat) (model : jsstring)
  (w w' : World) (lastError : option JsError) (e : JsError) :
  generateWithTimeout lib client model input locale w = (Throw e, w') ->
  isNotFound e = true ->
  attempts lib client cfg (S remaining) attempt model input locale w lastError
  = (Break (Some e), w', [Attempt model attempt (Some e)]).
Proof. intros H Hnf. simpl. now rewrite H, Hnf. Qed.

(** A retryable failure before the last attempt: sleep, then go on. *)
Lemma attempts_retry (remaining attempt : nat) (model : jsstring)
  (w w' : World) (lastError : option JsError) (e : JsError) :
  generateWithTimeout lib client model input locale w = (Throw e, w') ->
  isNotFound e = false ->
  isRetryableError e = true ->
  (attempt < maxRetries cfg)%nat ->
  attempts lib client cfg (S remaining) attempt model input locale w lastError
  = let '(exit, w'', events) :=
      attempts lib client cfg remaining (S attempt) model input locale w' (Some e) in
    (exit, w'',
     Attempt model attempt (Some e)
       :: Sleep (retryDelay cfg * 2 ^ (Z.of_nat attempt - 1)) :: events).
Proof.
  intros H Hnf Hre Hlt. simpl.
  rewrite H, Hnf, Hre. apply Nat.ltb_lt in Hlt. now rewrite Hlt.
Qed.

(** Any other failure ends the attempts lib client cfg. *)
Lemma attempts_give_up (remaining attempt : nat) (model : jsstring)
  (w w' : World) (lastError : option JsError) (e : JsError) :
  generateWithTimeout lib client model input locale w = (Throw e, w') ->
  isRetryableError e && (attempt <? maxRetries cfg)%nat = false ->
  attempts lib client cfg (S remaining) attempt model input locale w lastError
  = (Break (Some e), w', [Attempt model attempt (Some e)]).
Proof.
  intros H Hno. simpl. rewrite H, Hno.
  now destruct (isNotFound e).
Qed.

(** A attempts lib client cfg with iterations left starts with an attempt on its model. *)
Lemma attempts_first_event (remaining attempt : nat) (model : jsstring)
  (w : World) (lastError : option JsError) :
  exists exit w' outcome events,
    attempts lib client cfg (S remaining) attempt model input locale w lastError
    = (exit, w', Attempt model attempt outcome :: events).
Proof.
  simpl.
  destruct (generateWithTimeout lib client model input locale w) as [[r|e] w'].
  - repeat eexists.
  - destruct (isNotFound e); [repeat eexists|].
    destruct (isRetryableError e && (attempt <? maxRetries cfg)%nat);
      [|repeat eexists].
    destruct (attempts lib client cfg remaining (S attempt) model input
                locale w' (Some e)) as [[exit w''] events].
    repeat eexists.
Qed.

Lemma cascade_step (model : jsstring) (rest : list jsstring) (w w' : World)
  (lastError lastError' : option JsError) (events : list Event) :
  attempts lib client cfg (maxRetries cfg) 1%nat model input locale w lastError
  = (Break lastError', w', events) ->
  cascade lib client cfg (model :: rest) input locale w lastError
  = let '(exit, w'', events') := cascade lib client cfg rest input locale w' lastError' in
    (exit, w'', events ++ events').
Proof. intros H. simpl. now rewrite H. Qed.

Lemma cascade_success (model : jsstring) (rest : list jsstring) (w w' : World)
  (lastError : option JsError) (result : Itinerary.t) (events : list Event) :
  attempts lib client cfg (maxRetries cfg) 1%nat model input locale w lastError
  = (Return result, w', events) ->
  cascade lib client cfg (model :: rest) input locale w lastError = (Return result, w', events).
Proof. intros H. simpl. now rewrite H. Qed.

(** The variable [lastError] holds the error of the latest failure. *)
Lemma attempts_lastError (remaining attempt : nat) (model : jsstring)
  (w w' : World) (lastError lastError' : option JsError)
  (events : list Event) :
  attempts lib client cfg remaining attempt model input locale w lastError
  = (Break lastError', w', events) ->
  lastError' = lastErrorOf lastError events.
Proof.
  revert attempt w lastError events.
  induction remaining as [|remaining IH]; intros attempt w lastError events;
    simpl.
  - now intros [= <- _ <-].
  - destruct (generateWithTimeout lib client model input locale w)
      as [[r|e] w1]; [discriminate|].
    destruct (isNotFound e); [now intros [= <- _ <-]|].
    destruct (isRetryableError e && (attempt <? maxRetries cfg)%nat);
      [|now intros [= <- _ <-]].
    destruct (attempts lib client cfg remaining (S attempt) model input
                locale w1 (Some e)) as [[exit w2] evs] eqn:Hrec.
    intros [= -> -> <-]. simpl. exact (IH _ _ _ _ Hrec).
Qed.

Lemma cascade_lastError (remainingModels : list jsstring) (w w' : World)
  (lastError lastError' : option JsError) (events : list Event) :
  cascade lib client cfg remainingModels input locale w lastError
  = (Break lastError', w', events) ->
  lastError' = lastErrorOf lastError events.
Proof.
  revert w lastError events.
  induction remainingModels as [|model rest IH]; intros w lastError events;
    simpl.
  - now intros [= <- _ <-].
  - destruct (attempts lib client cfg (maxRetries cfg) 1 model input locale
                w lastError) as [[[r|le] w1] evs] eqn:Hloop; [discriminate|].
    destruct (cascade lib client cfg rest input locale w1 le)
      as [[exit w2] evs'] eqn:Hrest.
    intros [= -> -> <-]. rewrite lastErrorOf_app.
    apply attempts_lastError in Hloop. rewrite <- Hloop.
    exact (IH _ _ _ Hrest).
Qed.

Lemma attempts_all_timeouts (model : jsstring) :
  alwaysTimesOut lib client input locale ->
  forall (remaining attempt : nat) (w : World) (lastError : option JsError),
    (attempt + remaining = maxRetries cfg)%nat ->
    exists e w' events,
      attempts lib client cfg (S remaining) attempt model input locale w lastError
      = (Break (Some e), w', events)
      /\ attemptCount events = S remaining
      /\ classify e = KTimeout.
Proof.
  intros Hall. induction remaining as [|remaining IH];
    intros attempt w lastError Hinv;
    destruct (Hall w model) as (e & w1 & msg & Hfail & Hmsg & Hinc & Hnf).
  - exists e, w1, [Attempt model attempt (Some e)].
    split; [|split; [reflexivity|exact (classify_timeout _ Hmsg Hinc)]].
    apply attempts_give_up; [exact Hfail|].
    apply andb_false_iff. right. apply Nat.ltb_ge. lia.
  - destruct (IH (S attempt) w1 (Some e)) as (e' & w2 & evs & Hloop & Hn & Hk);
      [lia|].
    exists e', w2, (Attempt model attempt (Some e)
                     :: Sleep (retryDelay cfg * 2 ^ (Z.of_nat attempt - 1))
                     :: evs).
    split; [|split; [simpl; now rewrite Hn|exact Hk]].
    rewrite (@attempts_retry (S remaining) attempt model w w1 lastError e
               Hfail Hnf (timeout_is_retryable _ Hmsg Hinc)); [|lia].
    now rewrite Hloop.
Qed.

Lemma cascade_all_timeouts :
  alwaysTimesOut lib client input locale ->
  (1 <= maxRetries cfg)%nat ->
  forall (remainingModels : list jsstring) (w : World)
         (lastError : option JsError),
    (forall e, lastError = Some e -> classify e = KTimeout) ->
    exists lastError' w' events,
      cascade lib client cfg remainingModels input locale w lastError
      = (Break lastError', w', events)
      /\ attemptCount events
         = (maxRetries cfg * List.length remainingModels)%nat
      /\ (forall e, lastError' = Some e -> classify e = KTimeout)
      /\ (remainingModels <> [] -> lastError' <> None).
Proof.
  intros Hall Hpos.
  induction remainingModels as [|model rest IH]; intros w lastError Hlast.
  - exists lastError, w, []. split; [reflexivity|]. simpl.
    split; [lia|]. split; [exact Hlast|congruence].
  - destruct (maxRetries cfg) as [|n] eqn:Hmax; [lia|].
    destruct (@attempts_all_timeouts model Hall n 1%nat w lastError)
      as (e & w1 & evs & Hloop & Hn & Hk); [lia|].
    destruct (IH w1 (Some e)) as (le & w2 & evs' & Hrest & Hn' & Hk' & Hsome).
    { now intros e' [= <-]. }
    exists le, w2, (evs ++ evs'). split; [|split; [|split]].
    + rewrite (@cascade_step model rest w w1 lastError (Some e) evs);
        [now rewrite Hrest|].
      rewrite Hmax. exact Hloop.
    + rewrite attemptCount_app, Hn, Hn'. simpl. lia.
    + exact Hk'.
    + intros _. destruct rest as [|m rest'].
      * simpl in Hrest. simpl in Hrest.
        injection Hrest as <- _ _. discriminate.
      * apply Hsome. discriminate.
Qed.
End CascadeFacts.

Lemma transientFailure_tests (e : JsError) :
  transientFailure e -> isNotFound e = false /\ isRetryableError e = true.
Proof.
  intros (msg & Hmsg & Htr & Hnf & H404). split.
  - unfold isNotFound, messageIncludes. now rewrite Hmsg, Hnf, H404.
  - now apply (isRetryableError_spec _ Hmsg).
Qed.

(* ================================================================== *)
(** * Properties of [generateItinerary] *)
(* ================================================================== *)

(** C10.  An empty or blank destination, or a duration below one day, makes
    [generateItinerary] fail with the validation error before any model is
    called; a blank destination gets the message of the empty one. *)
Theorem invalid_input_rejected
  (lib : Library) (World : Type) (client : Client World) (cfg : Config)
  (input : TripInput) (locale : jsstring) (w : World) :
  Forall (fun c => isWhiteSpace c = true) (destination input)
  \/ (duration input < 1)%Z ->
  exists msg,
    generateItinerary lib client cfg input locale w = (Throw (Error msg), [])
    /\ (Forall (fun c => isWhiteSpace c = true) (destination input) ->
        msg = lit "Destination is required")
    /\ (~ Forall (fun c => isWhiteSpace c = true) (destination input) ->
        msg = lit "Duration must be at least 1 day").
Proof.
  intros H. unfold generateItinerary.
  destruct (isBlank (destination input)) eqn:Hblank.
  - apply isBlank_spec in Hblank.
    exists (lit "Destination is required"). repeat split; auto.
    intros Hn. now elim Hn.
  - assert (Hnot : ~ Forall (fun c => isWhiteSpace c = true) (destination input)).
    { intros Hws. apply isBlank_spec in Hws. congruence. }
    destruct H as [Hws|Hd]; [now elim Hnot|].
    apply Z.ltb_lt in Hd. rewrite Hd.
    exists (lit "Duration must be at least 1 day"). repeat split; auto.
    intros Hws. now elim Hnot.
Qed.

(** C2.  When an attempt on a model fails with a message that contains
    [not found] or [404], the loop over that model ends there: no delay and
    no further attempt on it, and the cascade goes on with the next
    model. *)
Theorem model_not_found_skips_retries
  (lib : Library) (World : Type) (client : Client World) (cfg : Config)
  (input : TripInput) (locale : jsstring) (model : jsstring)
  (w w' : World) (e : JsError) (msg : jsstring) :
  (1 <= maxRetries cfg)%nat ->
  generateWithTimeout lib client model input locale w = (Throw e, w') ->
  message e = Some msg ->
  includes msg (lit "not found") = true \/ includes msg (lit "404") = true ->
  (forall (remaining attempt : nat) (lastError : option JsError),
      attempts lib client cfg (S remaining) attempt model input locale w
        lastError
      = (Break (Some e), w', [Attempt model attempt (Some e)]))
  /\ (forall (rest : list jsstring) (lastError : option JsError),
        cascade lib client cfg (model :: rest) input locale w lastError
        = let '(exit, w'', events) :=
            cascade lib client cfg rest input locale w' (Some e) in
          (exit, w'', Attempt model 1 (Some e) :: events)).
Proof.
  intros Hpos Hfail Hmsg Hinc.
  assert (Hnf : isNotFound e = true) by now apply (isNotFound_spec _ Hmsg).
  split.
  - intros remaining attempt lastError. now apply attempts_not_found.
  - intros rest lastError.
    destruct (maxRetries cfg) as [|n] eqn:Hmax; [lia|].
    rewrite (@cascade_step lib World client cfg input locale model rest w w'
               lastError (Some e) [Attempt model 1 (Some e)]).
    + destruct (cascade lib client cfg rest input locale w' (Some e))
        as [[exit w''] events]. reflexivity.
    + rewrite Hmax. now apply attempts_not_found.
Qed.

(** C3 (amended).  When an attempt numbered [k], below [maxRetries], fails
    with a transient signal in its message and the message contains neither
    [not found] nor [404], the loop sleeps [retryDelay * 2 ^ (k - 1)]
    milliseconds and then makes attempt [k + 1] on the same model.  With
    three attempts and a base delay of 1000 ms, two such failures followed
    by a success give the result of the third attempt after delays of 1000
    and 2000 ms. *)
Theorem transient_failure_backs_off :
  (forall (lib : Library) (World : Type) (client : Client World)
          (cfg : Config) (input : TripInput) (locale : jsstring)
          (model : jsstring) (w w' : World) (lastError : option JsError)
          (e : JsError) (remaining attempt : nat),
      generateWithTimeout lib client model input locale w = (Throw e, w') ->
      transientFailure e ->
      (1 <= attempt < maxRetries cfg)%nat ->
      (attempt + remaining = maxRetries cfg)%nat ->
      exists exit w'' next events,
        attempts lib client cfg (S remaining) attempt model input locale w
          lastError
        = (exit, w'',
           Attempt model attempt (Some e)
             :: Sleep (retryDelay cfg * 2 ^ (Z.of_nat attempt - 1))
             :: Attempt model (S attempt) next
             :: events))
  /\ (forall (lib : Library) (World : Type) (client : Client World)
             (cfg : Config) (input : TripInput) (locale : jsstring)
             (model : jsstring) (rest : list jsstring)
             (w0 w1 w2 w3 : World) (e1 e2 : JsError) (result : Itinerary.t),
        models cfg = model :: rest ->
        maxRetries cfg = 3%nat ->
        retryDelay cfg = 1000%Z ->
        isBlank (destination input) = false ->
        (1 <= duration input)%Z ->
        generateWithTimeout lib client model input locale w0 = (Throw e1, w1) ->
        transientFailure e1 ->
        generateWithTimeout lib client model input locale w1 = (Throw e2, w2) ->
        transientFailure e2 ->
        generateWithTimeout lib client model input locale w2 = (Ok result, w3) ->
        generateItinerary lib client cfg input locale w0
        = (Ok result,
           [ Attempt model 1 (Some e1); Sleep 1000;
             Attempt model 2 (Some e2); Sleep 2000;
             Attempt model 3 None ])).
Proof.
  split.
  - intros lib World client cfg input locale model w w' lastError e
      remaining attempt Hfail Htr Hk Hinv.
    destruct (transientFailure_tests Htr) as [Hnf Hre].
    destruct remaining as [|remaining]; [lia|].
    destruct (@attempts_first_event lib World client cfg input locale
                remaining (S attempt) model w' (Some e))
      as (exit & w'' & next & events & Hnext).
    exists exit, w'', next, events.
    rewrite (@attempts_retry lib World client cfg input locale (S remaining)
               attempt model w w' lastError e Hfail Hnf Hre); [|lia].
    now rewrite Hnext.
  - intros lib World client cfg input locale model rest w0 w1 w2 w3 e1 e2
      result Hmodels Hmax Hdelay Hdest Hdays Hfail1 Htr1 Hfail2 Htr2 Hok.
    destruct (transientFailure_tests Htr1) as [Hnf1 Hre1].
    destruct (transientFailure_tests Htr2) as [Hnf2 Hre2].
    unfold generateItinerary. rewrite Hdest.
    apply Z.ltb_ge in Hdays. rewrite Hdays, Hmodels.
    rewrite (@cascade_success lib World client cfg input locale model rest
               w0 w3 None result
               [ Attempt model 1 (Some e1); Sleep 1000;
                 Attempt model 2 (Some e2); Sleep 2000;
                 Attempt model 3 None ]); [reflexivity|].
    rewrite Hmax.
    rewrite (@attempts_retry lib World client cfg input locale 2 1 model
               w0 w1 None e1 Hfail1 Hnf1 Hre1); [|lia].
    rewrite (@attempts_retry lib World client cfg input locale 1 2 model
               w1 w2 (Some e1) e2 Hfail2 Hnf2 Hre2); [|lia].
    rewrite (@attempts_success lib World client cfg input locale 0 3 model
               w2 w3 (Some e2) result Hok).
    rewrite Hdelay. reflexivity.
Qed.

(** C1 (amended).  An error of the client whose message names the API key
    or carries [401] does not end the cascade.  When the message has no
    transient signal and contains neither [not found] nor [404], the model
    is not tried again and no delay is inserted, and the cascade goes on
    with the next model; the error is returned, through [handleError], when
    the failing model is the only one. *)
Theorem auth_error_moves_to_next_model
  (lib : Library) (World : Type) (client : Client World) (cfg : Config)
  (input : TripInput) (locale : jsstring) (model : jsstring)
  (w w' : World) (e : JsError) (msg : jsstring) :
  (1 <= maxRetries cfg)%nat ->
  generateContent client w model input locale = (Rejected e, w') ->
  message e = Some msg ->
  isAuthMessage msg ->
  ~ isTransientMessage msg ->
  includes msg (lit "not found") = false ->
  includes msg (lit "404") = false ->
  (forall (rest : list jsstring) (lastError : option JsError),
      cascade lib client cfg (model :: rest) input locale w lastError
      = let '(exit, w'', events) :=
          cascade lib client cfg rest input locale w' (Some e) in
        (exit, w'', Attempt model 1 (Some e) :: events))
  /\ (models cfg = [model] ->
      isBlank (destination input) = false ->
      (1 <= duration input)%Z ->
      generateItinerary lib client cfg input locale w
      = (Throw (handleError e), [Attempt model 1 (Some e)])).
Proof.
  intros Hpos Hcall Hmsg _ Hnt Hnf H404.
  assert (Hfail : generateWithTimeout lib client model input locale w
                  = (Throw e, w')).
  { unfold generateWithTimeout, callGeminiAPI. now rewrite Hcall. }
  assert (Hre : isRetryableError e = false).
  { destruct (isRetryableError e) eqn:Hre; [|reflexivity].
    elim Hnt. now apply (isRetryableError_spec _ Hmsg). }
  assert (Hloop : attempts lib client cfg (maxRetries cfg) 1 model input
                    locale w None
                  = (Break (Some e), w', [Attempt model 1 (Some e)])
                  /\ forall lastError,
                      attempts lib client cfg (maxRetries cfg) 1 model input
                        locale w lastError
                      = (Break (Some e), w', [Attempt model 1 (Some e)])).
  { destruct (maxRetries cfg) as [|n]; [lia|].
    split; [|intros lastError]; apply attempts_give_up; auto;
      now rewrite Hre. }
  destruct Hloop as [Hfirst Hloop]. split.
  - intros rest lastError.
    rewrite (@cascade_step lib World client cfg input locale model rest w w'
               lastError (Some e) [Attempt model 1 (Some e)] (Hloop lastError)).
    destruct (cascade lib client cfg rest input locale w' (Some e))
      as [[exit w''] events]. reflexivity.
  - intros Hmodels Hdest Hdays. unfold generateItinerary.
    apply Z.ltb_ge in Hdays. rewrite Hdest, Hdays, Hmodels.
    rewrite (@cascade_step lib World client cfg input locale model [] w w'
               None (Some e) [Attempt model 1 (Some e)] Hfirst).
    reflexivity.
Qed.

(** C4 (amended).  When the models are exhausted [generateItinerary] fails
    with one error, made by [handleError] from the last error seen; it is
    one of the five errors of [handleError], which differ in their message.
    When every attempt times out the error is the timeout one and the run
    has made [maxRetries] attempts on each model, [maxRetries * 2] for two
    models.  The error carries its message and nothing else. *)
Theorem exhausted_cascade_returns_last_error
  (lib : Library) (World : Type) (client : Client World) (cfg : Config)
  (input : TripInput) (locale : jsstring) (w : World) :
  isBlank (destination input) = false ->
  (1 <= duration input)%Z ->
  (forall (err : JsError) (events : list Event),
      generateItinerary lib client cfg input locale w = (Throw err, events) ->
      let last := match lastErrorOf None events with
                  | Some e => e
                  | None => Error (lit "All models failed")
                  end in
      err = handleError last /\ err = Error (kindMessage (classify last)))
  /\ (forall k k' : ErrorKind, kindMessage k = kindMessage k' -> k = k')
  /\ (models cfg <> [] ->
      (1 <= maxRetries cfg)%nat ->
      alwaysTimesOut lib client input locale ->
      exists events,
        generateItinerary lib client cfg input locale w
        = (Throw (Error (kindMessage KTimeout)), events)
        /\ attemptCount events
           = (maxRetries cfg * List.length (models cfg))%nat).
Proof.
  intros Hdest Hdays. apply Z.ltb_ge in Hdays. split; [|split].
  - intros err events. unfold generateItinerary. rewrite Hdest, Hdays.
    destruct (cascade lib client cfg (models cfg) input locale w None)
      as [[[result|lastError] w'] evs] eqn:Hrun; [discriminate|].
    intros [= <- <-]. apply cascade_lastError in Hrun. rewrite <- Hrun.
    split; reflexivity.
  - intros k k' H.
    destruct k, k'; try reflexivity; vm_compute in H; discriminate H.
  - intros Hmodels Hpos Hall.
    destruct (@cascade_all_timeouts lib World client cfg input locale Hall
                Hpos (models cfg) w None)
      as (lastError & w' & events & Hrun & Hcount & Hkind & Hsome);
      [discriminate|].
    exists events. unfold generateItinerary.
    rewrite Hdest, Hdays, Hrun. split; [|exact Hcount].
    destruct lastError as [e|]; [|now elim Hsome].
    unfold handleError. now rewrite (Hkind e eq_refl).
Qed.

(* ================================================================== *)
(** * Facts on the response parser *)
(* ================================================================== *)

Lemma fromFirst_spec (c : N) (s suffix : jsstring) :
  fromFirst c s = Some suffix
  <-> exists pre r, s = pre ++ c :: r /\ suffix = c :: r /\ ~ In c pre.
Proof.
  induction s as [|d s IH]; simpl.
  - split; [discriminate|]. intros (pre & r & H & _). now destruct pre.
  - destruct (N.eqb_spec d c) as [->|Hdc].
    + split.
      * intros [= <-]. exists [], s. simpl. auto.
      * intros (pre & r & H & -> & Hpre). destruct pre as [|x pre].
        -- simpl in H. now rewrite H.
        -- injection H as <- _. elim Hpre. now left.
    + rewrite IH. split.
      * intros (pre & r & -> & -> & Hpre). exists (d :: pre), r.
        repeat split; auto. intros [Hd|Hin]; auto.
      * intros (pre & r & H & -> & Hpre). destruct pre as [|x pre].
        -- injection H as -> _. now elim Hdc.
        -- injection H as <- ->. exists pre, r. repeat split; auto.
           intros Hin. apply Hpre. now right.
Qed.

Lemma uptoLast_spec (c : N) (s prefix : jsstring) :
  uptoLast c s = Some prefix
  <-> exists r post, s = r ++ c :: post /\ prefix = r ++ [c] /\ ~ In c post.
Proof.
  unfold uptoLast. split.
  - destruct (fromFirst c (rev s)) as [suffix|] eqn:H; [|discriminate].
    simpl. intros [= <-]. apply fromFirst_spec in H.
    destruct H as (pre & r & Hs & -> & Hpre).
    exists (rev r), (rev pre). repeat split.
    + apply (f_equal (@rev N)) in Hs. rewrite rev_involutive in Hs.
      rewrite Hs, rev_app_distr. simpl. now rewrite <- app_assoc.
    + now rewrite <- in_rev.
  - intros (r & post & -> & -> & Hpost).
    assert (H : fromFirst c (rev (r ++ c :: post)) = Some (c :: rev r)).
    { apply fromFirst_spec. exists (rev post), (rev r). repeat split.
      - rewrite rev_app_distr. simpl. now rewrite <- app_assoc.
      - now rewrite <- in_rev. }
    rewrite H. simpl. now rewrite rev_involutive.
Qed.

(** The match of the fallback runs from the first opening brace of the text
    to its last closing brace. *)
Lemma matchBraces_spec (text found : jsstring) :
  matchBraces text = Some found
  <-> exists pre body post,
        text = pre ++ found ++ post
        /\ found = 123%N :: body ++ [125%N]
        /\ ~ In 123%N pre /\ ~ In 125%N post.
Proof.
  unfold matchBraces. split.
  - destruct (fromFirst 123 text) as [suffix|] eqn:Hfirst; [|discriminate].
    apply fromFirst_spec in Hfirst.
    destruct Hfirst as (pre & r & -> & -> & Hpre).
    intros Hlast. apply uptoLast_spec in Hlast.
    destruct Hlast as (r' & post & Hr & -> & Hpost).
    destruct r' as [|x body]; [discriminate|].
    injection Hr as <- ->.
    exists pre, body, post. repeat split; auto.
    simpl. now rewrite <- app_assoc.
  - intros (pre & body & post & -> & -> & Hpre & Hpost).
    assert (Hfirst : fromFirst 123 (pre ++ (123%N :: body ++ [125%N]) ++ post)
                     = Some (123%N :: body ++ 125%N :: post)).
    { apply fromFirst_spec. exists pre, (body ++ 125%N :: post).
      repeat split; auto. simpl. now rewrite <- app_assoc. }
    rewrite Hfirst. apply uptoLast_spec.
    exists (123%N :: body), post. repeat split; auto.
Qed.

Lemma trimStart_skip (a b : jsstring) :
  Forall (fun c => isWhiteSpace c = true) a ->
  trimStart (a ++ b) = trimStart b.
Proof.
  induction 1 as [|c r Hc _ IH]; simpl; [reflexivity|]. now rewrite Hc.
Qed.

Lemma trimStart_length (s : jsstring) :
  (List.length (trimStart s) <= List.length s)%nat.
Proof.
  induction s as [|c r IH]; simpl; [lia|].
  destruct (isWhiteSpace c); simpl; lia.
Qed.

Lemma trimStart_keep (b x : jsstring) :
  trimStart b = b -> b <> [] -> trimStart (b ++ x) = b ++ x.
Proof.
  destruct b as [|c r]; [congruence|]. simpl. intros H _.
  destruct (isWhiteSpace c); [|reflexivity].
  pose proof (trimStart_length r) as Hlen. rewrite H in Hlen. simpl in Hlen. lia.
Qed.

Lemma trimEnd_skip (b a : jsstring) :
  Forall (fun c => isWhiteSpace c = true) a ->
  trimEnd (b ++ a) = trimEnd b.
Proof.
  intros Ha. unfold trimEnd. rewrite rev_app_distr, trimStart_skip; auto.
  now apply Forall_rev.
Qed.

Lemma trimEnd_keep (x b : jsstring) :
  trimEnd b = b -> b <> [] -> trimEnd (x ++ b) = x ++ b.
Proof.
  unfold trimEnd. intros H Hb.
  assert (H' : trimStart (rev b) = rev b).
  { apply (f_equal (@rev N)) in H. now rewrite rev_involutive in H. }
  rewrite rev_app_distr, trimStart_keep; auto.
  - now rewrite rev_app_distr, !rev_involutive.
  - intros E. apply Hb. apply (f_equal (@rev N)) in E.
    now rewrite rev_involutive in E.
Qed.

Lemma endsWith_app (x p : jsstring) : endsWith (x ++ p) p = true.
Proof.
  unfold endsWith. rewrite rev_app_distr. apply startsWith_spec. eauto.
Qed.

(** The closing fence goes with the white space before it. *)
Lemma dropClosing_fenced (body space : jsstring) :
  trimEnd body = body ->
  Forall (fun c => isWhiteSpace c = true) space ->
  dropClosing (body ++ space ++ fence) = body.
Proof.
  intros Hbody Hspace. unfold dropClosing.
  rewrite app_assoc, endsWith_app.
  unfold Js.length. rewrite length_app, Nat.add_sub, firstn_app, firstn_all.
  rewrite Nat.sub_diag. simpl. rewrite app_nil_r.
  rewrite trimEnd_skip; auto.
Qed.

(** Text in a fence of the kind [json], with white space around it. *)
Lemma stripFences_json (before open body close after : jsstring) :
  Forall (fun c => isWhiteSpace c = true) before ->
  Forall (fun c => isWhiteSpace c = true) open ->
  Forall (fun c => isWhiteSpace c = true) close ->
  Forall (fun c => isWhiteSpace c = true) after ->
  trimStart body = body -> trimEnd body = body ->
  stripFences (before ++ fenceJson ++ open ++ body ++ close ++ fence ++ after)
  = body.
Proof.
  intros Hbefore Hopen Hclose Hafter Hstart Hend. unfold stripFences.
  set (core := fenceJson ++ open ++ body ++ close ++ fence).
  assert (Htrim : trim (before ++ fenceJson ++ open ++ body ++ close
                         ++ fence ++ after) = core).
  { unfold trim. rewrite trimStart_skip; auto.
    replace (fenceJson ++ open ++ body ++ close ++ fence ++ after)
      with (core ++ after) by (unfold core; now rewrite <- !app_assoc).
    rewrite (@trimStart_keep core after); [| reflexivity | discriminate].
    rewrite trimEnd_skip; auto.
    unfold core. rewrite !app_assoc. apply trimEnd_keep; [reflexivity|discriminate]. }
  rewrite Htrim.
  assert (Hjson : startsWith core fenceJson = true)
    by (apply startsWith_spec; unfold core; eauto).
  rewrite Hjson. unfold dropOpening.
  change (skipn (Js.length fenceJson) core)
    with (open ++ body ++ close ++ fence).
  rewrite trimStart_skip; auto.
  destruct body as [|c body'].
  - rewrite app_nil_l, trimStart_skip by auto.
    exact (@dropClosing_fenced [] [] eq_refl (Forall_nil _)).
  - rewrite trimStart_keep; [|exact Hstart|discriminate].
    now apply dropClosing_fenced.
Qed.

(** Text that does not start with a fence is only trimmed. *)
Lemma stripFences_plain (text : jsstring) :
  startsWith (trim text) fence = false -> stripFences text = trim text.
Proof.
  intros H. unfold stripFences. rewrite H.
  destruct (startsWith (trim text) fenceJson) eqn:Hjson; [|reflexivity].
  apply startsWith_spec in Hjson. destruct Hjson as [post Hpost].
  assert (Hf : startsWith (trim text) fence = true).
  { apply startsWith_spec. exists (lit "json" ++ post). now rewrite Hpost. }
  congruence.
Qed.

Lemma stripFences_bare (before open body close after : jsstring) :
  Forall (fun c => isWhiteSpace c = true) before ->
  Forall (fun c => isWhiteSpace c = true) open ->
  Forall (fun c => isWhiteSpace c = true) close ->
  Forall (fun c => isWhiteSpace c = true) after ->
  trimStart body = body -> trimEnd body = body ->
  startsWith (open ++ body ++ close ++ fence) (lit "json") = false ->
  stripFences (before ++ fence ++ open ++ body ++ close ++ fence ++ after)
  = body.
Proof.
  intros Hbefore Hopen Hclose Hafter Hstart Hend Hkind. unfold stripFences.
  set (core := fence ++ open ++ body ++ close ++ fence).
  assert (Htrim : trim (before ++ fence ++ open ++ body ++ close
                         ++ fence ++ after) = core).
  { unfold trim. rewrite trimStart_skip; auto.
    replace (fence ++ open ++ body ++ close ++ fence ++ after)
      with (core ++ after) by (unfold core; now rewrite <- !app_assoc).
    rewrite (@trimStart_keep core after); [| reflexivity | discriminate].
    rewrite trimEnd_skip; auto.
    unfold core. rewrite !app_assoc. apply trimEnd_keep; [reflexivity|discriminate]. }
  rewrite Htrim.
  assert (Hjson : startsWith core fenceJson = false).
  { change (startsWith core fenceJson)
      with (startsWith (open ++ body ++ close ++ fence) (lit "json")).
    exact Hkind. }
  assert (Hfence : startsWith core fence = true)
    by (apply startsWith_spec; unfold core; eauto).
  rewrite Hjson, Hfence. unfold dropOpening.
  change (skipn (Js.length fence) core) with (open ++ body ++ close ++ fence).
  rewrite trimStart_skip; auto.
  destruct body as [|c body'].
  - rewrite app_nil_l, trimStart_skip by auto.
    exact (@dropClosing_fenced [] [] eq_refl (Forall_nil _)).
  - rewrite trimStart_keep; [|exact Hstart|discriminate].
    now apply dropClosing_fenced.
Qed.

(** Without a closing fence at its end the text keeps all that follows the
    opening marker. *)
Lemma dropClosing_unfenced (s : jsstring) :
  endsWith s fence = false -> dropClosing s = s.
Proof. intros H. unfold dropClosing. now rewrite H. Qed.

Lemma trim_opened (marker before open body after : jsstring) :
  Forall (fun c => isWhiteSpace c = true) before ->
  Forall (fun c => isWhiteSpace c = true) open ->
  Forall (fun c => isWhiteSpace c = true) after ->
  trimStart marker = marker -> trimEnd marker = marker -> marker <> [] ->
  trimEnd body = body ->
  trim (before ++ marker ++ open ++ body ++ after)
  = match body with
    | [] => marker
    | _ => marker ++ open ++ body
    end.
Proof.
  intros Hbefore Hopen Hafter Hstart Hend Hne Hbody. unfold trim.
  rewrite trimStart_skip by exact Hbefore.
  rewrite (@trimStart_keep marker (open ++ body ++ after) Hstart Hne).
  destruct body as [|c body'].
  - rewrite app_nil_l, trimEnd_skip; [exact Hend|].
    apply Forall_app. split; assumption.
  - replace (marker ++ open ++ (c :: body') ++ after)
      with (((marker ++ open) ++ c :: body') ++ after)
      by (now rewrite <- !app_assoc).
    rewrite trimEnd_skip by exact Hafter.
    rewrite trimEnd_keep; [now rewrite <- app_assoc|exact Hbody|discriminate].
Qed.

(** Text that opens with a fence of the kind [json] and does not end with
    a fence. *)
Lemma stripFences_json_unclosed (before open body after : jsstring) :
  Forall (fun c => isWhiteSpace c = true) before ->
  Forall (fun c => isWhiteSpace c = true) open ->
  Forall (fun c => isWhiteSpace c = true) after ->
  trimStart body = body -> trimEnd body = body ->
  endsWith body fence = false ->
  stripFences (before ++ fenceJson ++ open ++ body ++ after) = body.
Proof.
  intros Hbefore Hopen Hafter Hstart Hend Hclosed. unfold stripFences.
  rewrite (@trim_opened fenceJson before open body after Hbefore Hopen Hafter
             eq_refl eq_refl) by (discriminate || exact Hend).
  destruct body as [|c body']; [reflexivity|].
  assert (Hjson : startsWith (fenceJson ++ open ++ c :: body') fenceJson = true)
    by (apply startsWith_spec; eauto).
  rewrite Hjson. unfold dropOpening.
  change (skipn (Js.length fenceJson) (fenceJson ++ open ++ c :: body'))
    with (open ++ c :: body').
  rewrite trimStart_skip by exact Hopen. rewrite Hstart.
  now apply dropClosing_unfenced.
Qed.

(** The same with a bare fence. *)
Lemma stripFences_bare_unclosed (before open body after : jsstring) :
  Forall (fun c => isWhiteSpace c = true) before ->
  Forall (fun c => isWhiteSpace c = true) open ->
  Forall (fun c => isWhiteSpace c = true) after ->
  trimStart body = body -> trimEnd body = body ->
  endsWith body fence = false ->
  startsWith (open ++ body) (lit "json") = false ->
  stripFences (before ++ fence ++ open ++ body ++ after) = body.
Proof.
  intros Hbefore Hopen Hafter Hstart Hend Hclosed Hkind. unfold stripFences.
  rewrite (@trim_opened fence before open body after Hbefore Hopen Hafter
             eq_refl eq_refl) by (discriminate || exact Hend).
  destruct body as [|c body']; [reflexivity|].
  assert (Hjson : startsWith (fence ++ open ++ c :: body') fenceJson = false).
  { change (startsWith (fence ++ open ++ c :: body') fenceJson)
      with (startsWith (open ++ c :: body') (lit "json")).
    exact Hkind. }
  assert (Hfence : startsWith (fence ++ open ++ c :: body') fence = true)
    by (apply startsWith_spec; eauto).
  rewrite Hjson, Hfence. unfold dropOpening.
  change (skipn (Js.length fence) (fence ++ open ++ c :: body'))
    with (open ++ c :: body').
  rewrite trimStart_skip by exact Hopen. rewrite Hstart.
  now apply dropClosing_unfenced.
Qed.

(** C8 (amended).  The parser trims the text.  When the trimmed text opens
    with a fence, it removes that marker (with the white space after it)
    and, if the text then ends with a fence, that closing fence (with the
    white space before it); without a closing fence at the very end it
    keeps all that follows the opening marker; a text that does not open
    with a fence is only trimmed.  It parses what is left; when that fails
    it takes, from the text as it came, the substring from the first
    opening brace to the last closing brace, not the first balanced one,
    and returns what [JSON.parse] makes of it; with no such substring it
    throws. *)
Theorem parser_falls_back_on_outer_braces (lib : Library) (text : jsstring) :
  (forall before open body close after,
      Forall (fun c => isWhiteSpace c = true) before ->
      Forall (fun c => isWhiteSpace c = true) open ->
      Forall (fun c => isWhiteSpace c = true) close ->
      Forall (fun c => isWhiteSpace c = true) after ->
      trimStart body = body -> trimEnd body = body ->
      (text = before ++ fenceJson ++ open ++ body ++ close ++ fence ++ after
       \/ text = before ++ fence ++ open ++ body ++ close ++ fence ++ after
          /\ startsWith (open ++ body ++ close ++ fence) (lit "json") = false) ->
      stripFences text = body)
  /\ (forall before open body after,
        Forall (fun c => isWhiteSpace c = true) before ->
        Forall (fun c => isWhiteSpace c = true) open ->
        Forall (fun c => isWhiteSpace c = true) after ->
        trimStart body = body -> trimEnd body = body ->
        endsWith body fence = false ->
        (text = before ++ fenceJson ++ open ++ body ++ after
         \/ text = before ++ fence ++ open ++ body ++ after
            /\ startsWith (open ++ body) (lit "json") = false) ->
        stripFences text = body)
  /\ (startsWith (trim text) fence = false -> stripFences text = trim text)
  /\ (forall v, JSON_parse lib (stripFences text) = Ok v ->
                parseAIResponse lib text = Ok v)
  /\ (forall e, JSON_parse lib (stripFences text) = Throw e ->
        (forall found, matchBraces text = Some found ->
                       parseAIResponse lib text = JSON_parse lib found)
        /\ (matchBraces text = None ->
            parseAIResponse lib text
            = Throw (Error (lit "No valid JSON found in AI response"))))
  /\ (forall found,
        matchBraces text = Some found
        <-> exists pre body post,
              text = pre ++ found ++ post
              /\ found = 123%N :: body ++ [125%N]
              /\ ~ In 123%N pre /\ ~ In 125%N post).
Proof.
  split; [|split; [|split; [|split; [|split]]]].
  - intros before open body close after Hb Ho Hc Ha Hs He [->|[-> Hkind]].
    + now apply stripFences_json.
    + now apply stripFences_bare.
  - intros before open body after Hb Ho Ha Hs He Hclosed [->|[-> Hkind]].
    + now apply stripFences_json_unclosed.
    + now apply stripFences_bare_unclosed.
  - apply stripFences_plain.
  - intros v H. unfold parseAIResponse. now rewrite H.
  - intros e H. split.
    + intros found Hfound. unfold parseAIResponse. now rewrite H, Hfound.
    + intros Hnone. unfold parseAIResponse. now rewrite H, Hnone.
  - intros found. apply matchBraces_spec.
Qed.

(* ================================================================== *)
(** * Closed examples *)
(* ================================================================== *)

(** Counterexample to C1 as stated: the first model answers [401], the
    second model is called all the same and its itinerary is returned. *)
Lemma auth_error_does_not_abort : ~ auth_error_aborts_cascade.
Proof.
  intros H.
  specialize (H referenceLibrary _ scripted defaultConfig sampleInput
                (lit "th")
                [Rejected unauthorized; Responded (Some sampleResponse)]
                [Responded (Some sampleResponse)]
                (lit "gemini-2.5-flash")
                [lit "gemini-2.5-pro"; lit "gemini-1.5-pro";
                 lit "gemini-1.5-flash"]
                unauthorized (lit "401 Unauthorized")
                eq_refl).
  assert (Hrun : generateItinerary referenceLibrary scripted defaultConfig
                   sampleInput (lit "th")
                   [Rejected unauthorized; Responded (Some sampleResponse)]
                 = (Throw (handleError unauthorized),
                    [Attempt (lit "gemini-2.5-flash") 1 (Some unauthorized)])).
  { apply H;
      [ simpl; lia | reflexivity | simpl; lia | reflexivity | reflexivity
      | right; reflexivity ]. }
  vm_compute in Hrun. discriminate Hrun.
Qed.

(** Counterexample to C3 as stated: the message carries [unavailable], a
    transient signal, and [not found]; the loop leaves the model without
    delay or second attempt. *)
Lemma transient_failure_not_always_retried : ~ transient_failure_always_retried.
Proof.
  intros H.
  destruct (H referenceLibrary _ scripted defaultConfig sampleInput (lit "th")
              [Rejected missingOrUnavailable] [] (lit "gemini-2.5-flash")
              None missingOrUnavailable
              (lit "Model is not found or temporarily unavailable")
              2%nat 1%nat eq_refl eq_refl)
    as (exit & w'' & next & events & Hrun).
  - exists (lit "unavailable"). split; [|reflexivity].
    unfold retryableTerms. simpl. tauto.
  - vm_compute. lia.
  - reflexivity.
  - vm_compute in Hrun. discriminate Hrun.
Qed.

Lemma silent_alwaysTimesOut (input : TripInput) (locale : jsstring) :
  alwaysTimesOut referenceLibrary silent input locale.
Proof.
  intros w model.
  exists (Error (lit "Request timeout")), w, (lit "Request timeout").
  split; [reflexivity|]. split; [reflexivity|].
  split; vm_compute; reflexivity.
Qed.

(** Counterexample to C4 as stated: with two models that always time out,
    three attempts each and two attempts each end in the same error, so no
    count read off the error can be [maxRetries * 2] in both runs. *)
Lemma error_does_not_carry_attempt_count : ~ error_carries_attempt_count.
Proof.
  intros [attemptCountOf H].
  assert (Hsix : attemptCountOf (Error (kindMessage KTimeout)) = 6%nat).
  { apply (H referenceLibrary _ silent twoModelConfig sampleInput (lit "th")
             tt (lit "gemini-2.5-flash") (lit "gemini-2.5-pro")
             (Error (kindMessage KTimeout))
             (snd (generateItinerary referenceLibrary silent twoModelConfig
                     sampleInput (lit "th") tt)));
      [ reflexivity | simpl; lia | reflexivity | simpl; lia
      | apply silent_alwaysTimesOut | vm_compute; reflexivity ]. }
  assert (Hfour : attemptCountOf (Error (kindMessage KTimeout)) = 4%nat).
  { apply (H referenceLibrary _ silent twoModelTwoTriesConfig sampleInput
             (lit "th") tt (lit "gemini-2.5-flash") (lit "gemini-2.5-pro")
             (Error (kindMessage KTimeout))
             (snd (generateItinerary referenceLibrary silent
                     twoModelTwoTriesConfig sampleInput (lit "th") tt)));
      [ reflexivity | simpl; lia | reflexivity | simpl; lia
      | apply silent_alwaysTimesOut | vm_compute; reflexivity ]. }
  congruence.
Qed.

(** Counterexample to C5 as stated: a one-day response whose only schedule
    is numbered 7 is accepted, and the result keeps the 7. *)
Lemma days_need_not_equal_positions : ~ days_equal_positions.
Proof.
  intros H.
  destruct (buildItinerary referenceLibrary scripted sampleInput []
              responseDaySeven) as [it|e] eqn:Hbuild;
    [|vm_compute in Hbuild; discriminate Hbuild].
  pose proof Hbuild as Hit. vm_compute in Hit. injection Hit as <-.
  specialize (H _ _ _ _ _ _ _ Hbuild 0%nat _ eq_refl).
  vm_compute in H. discriminate H.
Qed.

(** Counterexample to C6 as stated: the times [25:61] and [99:99] pass the
    schema. *)
Lemma times_outside_the_clock_accepted : ~ times_within_the_clock.
Proof.
  intros H.
  destruct (ItineraryResponseSchema lateHourParsed) as [r|] eqn:Hschema;
    [|vm_compute in Hschema; discriminate Hschema].
  pose proof Hschema as Hr. vm_compute in Hr. injection Hr as <-.
  specialize (H _ _ Hschema).
  match type of H with
  | forall s a, In s (?l) -> _ =>
    specialize (H (nth 0 l {| DailySchedule.day := 0; DailySchedule.activities := [] |}))
  end.
  specialize (H {| Activity.time := lit "25:61"; Activity.name := lit "a";
                   Activity.location := lit "b";
                   Activity.description := lit "c" |}).
  assert (Hvalid : validHHmm (lit "25:61") = true).
  { apply H; vm_compute; auto. }
  vm_compute in Hvalid. discriminate Hvalid.
Qed.

(** Counterexample to C8 as stated: on an answer with two objects the first
    balanced substring parses, while the code takes the text from the first
    opening brace to the last closing brace, which does not. *)
Lemma parser_departs_from_specification : ~ parser_follows_specification.
Proof.
  intros H. specialize (H referenceLibrary responseTwoObjects).
  vm_compute in H. exact H.
Qed.

(** Counterexample to C9 as stated: the [id] that a parsed recommendation
    brings is replaced by a generated one. *)
Lemma recommendation_id_replaced : ~ recommendation_fields_pass_through.
Proof.
  intros H.
  assert (Hparse : parseAIResponse referenceLibrary responseExtraKeys
                   = Ok (JObj extraKeysMembers)) by (vm_compute; reflexivity).
  destruct (buildItinerary referenceLibrary scripted sampleInput []
              responseExtraKeys) as [it|e] eqn:Hbuild;
    [|vm_compute in Hbuild; discriminate Hbuild].
  pose proof Hbuild as Hit. vm_compute in Hit. injection Hit as <-.
  specialize (H _ _ _ _ _ _ _ _ Hparse Hbuild).
  match type of H with
  | forall recs i ro r key x, _ = _ -> _ -> nth_error ?l _ = _ -> _ =>
    assert (Hid : lookup (recommendationMembers
                            (nth 0 l {| Recommendation.id := [];
                                        Recommendation.category := place;
                                        Recommendation.name := [];
                                        Recommendation.description := [];
                                        Recommendation.location := None |}))
                         (lit "id")
                  = Some (JStr (lit "rec-1")))
  end.
  { eapply (H _ 0%nat); vm_compute; reflexivity. }
  vm_compute in Hid. discriminate Hid.
Qed.

(** Proves [transientFailure] for a concrete error, given the signal. *)
Ltac transient term :=
  eexists; split; [reflexivity|];
  split; [exists (lit term); split;
          [unfold retryableTerms; simpl; tauto | vm_compute; reflexivity]|];
  split; vm_compute; reflexivity.

(** C10 at a destination of three spaces. *)
Lemma invalid_input_rejected_witness :
  exists msg,
    generateItinerary referenceLibrary scripted defaultConfig blankInput
      (lit "th") [Responded (Some sampleResponse)]
    = (Throw (Error msg), [])
    /\ (Forall (fun c => isWhiteSpace c = true) (destination blankInput) ->
        msg = lit "Destination is required")
    /\ (~ Forall (fun c => isWhiteSpace c = true) (destination blankInput) ->
        msg = lit "Duration must be at least 1 day").
Proof.
  apply (@invalid_input_rejected referenceLibrary _ scripted defaultConfig
           blankInput (lit "th") [Responded (Some sampleResponse)]).
  left. vm_compute. repeat constructor.
Defined.

(** C2 at a first model that answers 404. *)
Lemma model_not_found_skips_retries_witness :
  (forall (remaining attempt : nat) (lastError : option JsError),
      attempts referenceLibrary scripted defaultConfig (S remaining) attempt
        (lit "gemini-2.5-flash") sampleInput (lit "th")
        [Rejected modelMissing; Responded (Some sampleResponse)] lastError
      = (Break (Some modelMissing), [Responded (Some sampleResponse)],
         [Attempt (lit "gemini-2.5-flash") attempt (Some modelMissing)]))
  /\ (forall (rest : list jsstring) (lastError : option JsError),
        cascade referenceLibrary scripted defaultConfig
          (lit "gemini-2.5-flash" :: rest) sampleInput (lit "th")
          [Rejected modelMissing; Responded (Some sampleResponse)] lastError
        = let '(exit, w'', events) :=
            cascade referenceLibrary scripted defaultConfig rest sampleInput
              (lit "th") [Responded (Some sampleResponse)] (Some modelMissing) in
          (exit, w'',
           Attempt (lit "gemini-2.5-flash") 1 (Some modelMissing) :: events)).
Proof.
  apply (@model_not_found_skips_retries referenceLibrary _ scripted
           defaultConfig sampleInput (lit "th") (lit "gemini-2.5-flash")
           [Rejected modelMissing; Responded (Some sampleResponse)]
           [Responded (Some sampleResponse)] modelMissing
           (lit "404 models/gemini-2.5-flash is not found")).
  - simpl. lia.
  - reflexivity.
  - reflexivity.
  - right. vm_compute. reflexivity.
Defined.

(** C3 at a model that answers 429, then a rate limit, then an itinerary. *)
Lemma transient_failure_backs_off_witness :
  (exists exit w'' next events,
      attempts referenceLibrary scripted defaultConfig 3 1
        (lit "gemini-2.5-flash") sampleInput (lit "th")
        [Rejected tooManyRequests; Rejected rateLimited;
         Responded (Some sampleResponse)] None
      = (exit, w'',
         Attempt (lit "gemini-2.5-flash") 1 (Some tooManyRequests)
           :: Sleep 1000
           :: Attempt (lit "gemini-2.5-flash") 2 next
           :: events))
  /\ generateItinerary referenceLibrary scripted defaultConfig sampleInput
       (lit "th")
       [Rejected tooManyRequests; Rejected rateLimited;
        Responded (Some sampleResponse)]
     = (Ok sampleItinerary,
        [ Attempt (lit "gemini-2.5-flash") 1 (Some tooManyRequests);
          Sleep 1000;
          Attempt (lit "gemini-2.5-flash") 2 (Some rateLimited);
          Sleep 2000;
          Attempt (lit "gemini-2.5-flash") 3 None ]).
Proof.
  destruct transient_failure_backs_off as [Hstep Hscenario]. split.
  - apply (Hstep referenceLibrary _ scripted defaultConfig sampleInput
             (lit "th") (lit "gemini-2.5-flash")
             [Rejected tooManyRequests; Rejected rateLimited;
              Responded (Some sampleResponse)]
             [Rejected rateLimited; Responded (Some sampleResponse)]
             None tooManyRequests 2%nat 1%nat).
    + reflexivity.
    + transient "429"%string.
    + simpl. lia.
    + reflexivity.
  - apply (Hscenario referenceLibrary _ scripted defaultConfig sampleInput
             (lit "th") (lit "gemini-2.5-flash")
             [lit "gemini-2.5-pro"; lit "gemini-1.5-pro";
              lit "gemini-1.5-flash"]
             [Rejected tooManyRequests; Rejected rateLimited;
              Responded (Some sampleResponse)]
             [Rejected rateLimited; Responded (Some sampleResponse)]
             [Responded (Some sampleResponse)] []
             tooManyRequests rateLimited sampleItinerary).
    + reflexivity.
    + reflexivity.
    + reflexivity.
    + reflexivity.
    + simpl. lia.
    + reflexivity.
    + transient "429"%string.
    + reflexivity.
    + transient "rate limit"%string.
    + vm_compute. reflexivity.
Defined.

(** C1 at a single model that answers 401. *)
Lemma auth_error_moves_to_next_model_witness :
  (forall (rest : list jsstring) (lastError : option JsError),
      cascade referenceLibrary scripted oneModelConfig
        (lit "gemini-2.5-flash" :: rest) sampleInput (lit "th")
        [Rejected unauthorized; Responded (Some sampleResponse)] lastError
      = let '(exit, w'', events) :=
          cascade referenceLibrary scripted oneModelConfig rest sampleInput
            (lit "th") [Responded (Some sampleResponse)] (Some unauthorized) in
        (exit, w'',
         Attempt (lit "gemini-2.5-flash") 1 (Some unauthorized) :: events))
  /\ generateItinerary referenceLibrary scripted oneModelConfig sampleInput
       (lit "th") [Rejected unauthorized; Responded (Some sampleResponse)]
     = (Throw (handleError unauthorized),
        [Attempt (lit "gemini-2.5-flash") 1 (Some unauthorized)]).
Proof.
  destruct (@auth_error_moves_to_next_model referenceLibrary _ scripted
              oneModelConfig sampleInput (lit "th") (lit "gemini-2.5-flash")
              [Rejected unauthorized; Responded (Some sampleResponse)]
              [Responded (Some sampleResponse)] unauthorized
              (lit "401 Unauthorized")) as [Hnext Hlast].
  - simpl. lia.
  - reflexivity.
  - reflexivity.
  - right. vm_compute. reflexivity.
  - intros (term & Hin & Hinc). simpl in Hin.
    repeat (destruct Hin as [<-|Hin];
            [vm_compute in Hinc; discriminate Hinc|]).
    exact Hin.
  - vm_compute. reflexivity.
  - vm_compute. reflexivity.
  - split; [exact Hnext|].
    apply Hlast; [reflexivity|reflexivity|simpl; lia].
Defined.

(** C4 at two models and a client that never answers. *)
Lemma exhausted_cascade_returns_last_error_witness :
  (forall (err : JsError) (events : list Event),
      generateItinerary referenceLibrary silent twoModelConfig sampleInput
        (lit "th") tt = (Throw err, events) ->
      let last := match lastErrorOf None events with
                  | Some e => e
                  | None => Error (lit "All models failed")
                  end in
      err = handleError last /\ err = Error (kindMessage (classify last)))
  /\ (exists events,
        generateItinerary referenceLibrary silent twoModelConfig sampleInput
          (lit "th") tt
        = (Throw (Error (kindMessage KTimeout)), events)
        /\ attemptCount events = 6%nat).
Proof.
  destruct (@exhausted_cascade_returns_last_error referenceLibrary _ silent
              twoModelConfig sampleInput (lit "th") tt)
    as (Hlast & _ & Htimeouts).
  - reflexivity.
  - simpl. lia.
  - split; [exact Hlast|].
    apply Htimeouts.
    + discriminate.
    + simpl. lia.
    + intros w model.
      exists (Error (lit "Request timeout")), w, (lit "Request timeout").
      split; [reflexivity|]. split; [reflexivity|].
      split; vm_compute; reflexivity.
Defined.

(** C5 at the sample response, asked for one day, for two, and for 1e21
    days. *)
Lemma schedules_match_duration_witness :
  (exists it,
      buildItinerary referenceLibrary scripted sampleInput [] sampleResponse
      = Ok it
      /\ Z.of_nat (List.length (Itinerary.dailySchedules it))
         = duration sampleInput
      /\ Forall (fun s => (3 <= List.length (DailySchedule.activities s))%nat
                          /\ (0 < DailySchedule.day s)%Z)
                (Itinerary.dailySchedules it)
      /\ map DailySchedule.day (Itinerary.dailySchedules it)
         = map DailySchedule.day (ItineraryResponse.dailySchedules sampleValidated)
      /\ readsResponse sampleParsed sampleValidated)
  /\ buildItinerary referenceLibrary scripted twoDayInput [] sampleResponse
     = Throw (Error (lit "Expected 2 days but got 1"))
  /\ buildItinerary referenceLibrary scripted longTripInput [] sampleResponse
     = Throw (Error (lit "Expected 1e+21 days but got 1")).
Proof.
  assert (Hparse : parseAIResponse referenceLibrary sampleResponse
                   = Ok sampleParsed) by (vm_compute; reflexivity).
  assert (Hschema : ItineraryResponseSchema sampleParsed = Some sampleValidated)
    by (vm_compute; reflexivity).
  split; [|split].
  - exact (@schedules_match_duration referenceLibrary _ scripted sampleInput
             [] sampleResponse sampleParsed sampleValidated Hparse Hschema).
  - refine (proj1 (_ : _ /\ ((Z.abs (duration twoDayInput) < 2 ^ 53)%Z -> _))).
    exact (@schedules_match_duration referenceLibrary _ scripted twoDayInput
             [] sampleResponse sampleParsed sampleValidated Hparse Hschema).
  - refine (proj1 (_ : _ /\ ((Z.abs (duration longTripInput) < 2 ^ 53)%Z -> _))).
    exact (@schedules_match_duration referenceLibrary _ scripted longTripInput
             [] sampleResponse sampleParsed sampleValidated Hparse Hschema).
Defined.

(** C6 at a response with the time [9:00]. *)
Lemma malformed_time_rejected_witness :
  ItineraryResponseSchema shortHourParsed = None
  /\ buildItinerary referenceLibrary scripted sampleInput [] responseShortHour
     = Throw (ZodError referenceLibrary shortHourParsed).
Proof.
  apply (@malformed_time_rejected referenceLibrary _ scripted sampleInput []
           responseShortHour shortHourParsed (JStr (lit "9:00"))).
  - vm_compute. reflexivity.
  - unfold hasActivityTime, shortHourParsed.
    eexists _, _, 0%nat, _, _, 0%nat, _.
    repeat (split; [reflexivity|]). reflexivity.
  - intros s [= <-] (h1 & h2 & m1 & m2 & Heq & _).
    vm_compute in Heq. discriminate Heq.
Defined.

(** C7 at the sample response, whose times come as 14:00, 09:00, 12:00. *)
Lemma activities_sorted_by_time_witness :
  exists v validated,
    parseAIResponse referenceLibrary sampleResponse = Ok v
    /\ readsResponse v validated
    /\ Forall2 (fun given s =>
                  Permutation (DailySchedule.activities given)
                              (DailySchedule.activities s)
                  /\ StronglySorted timeLe (DailySchedule.activities s))
               (ItineraryResponse.dailySchedules validated)
               (Itinerary.dailySchedules sampleItinerary).
Proof.
  apply (@activities_sorted_by_time referenceLibrary _ scripted sampleInput
           [] sampleResponse sampleItinerary).
  vm_compute. reflexivity.
Defined.

(** C9 at the sample response. *)
Lemma declared_fields_pass_through_witness :
  exists v validated,
    parseAIResponse referenceLibrary sampleResponse = Ok v
    /\ readsResponse v validated
    /\ Forall2 (fun given s =>
                  DailySchedule.day s = DailySchedule.day given
                  /\ Permutation (DailySchedule.activities given)
                                 (DailySchedule.activities s))
               (ItineraryResponse.dailySchedules validated)
               (Itinerary.dailySchedules sampleItinerary)
    /\ map recommendationData (Itinerary.recommendations sampleItinerary)
       = ItineraryResponse.recommendations validated
    /\ map Recommendation.id (Itinerary.recommendations sampleItinerary)
       = map (fun i => generateId scripted [] (S i))
             (seq 0 (List.length (ItineraryResponse.recommendations validated))).
Proof.
  apply (@declared_fields_pass_through referenceLibrary _ scripted sampleInput
           [] sampleResponse sampleItinerary).
  vm_compute. reflexivity.
Defined.

(** C8 at a fenced answer, at a fenced answer with a sentence after it,
    and at an answer inside a sentence. *)
Lemma parser_falls_back_on_outer_braces_witness :
  stripFences responseFenced = quoted "{'a':1}"
  /\ stripFences responseFencedThenProse = responseFencedThenProseBody
  /\ parseAIResponse referenceLibrary responseFencedThenProse
     = Reader.parse (quoted "{'a':1}")
  /\ parseAIResponse referenceLibrary responseInProse
     = Reader.parse (quoted "{'a':1}").
Proof.
  split; [|split; [|split]].
  - destruct (parser_falls_back_on_outer_braces referenceLibrary responseFenced)
      as (Hfence & _).
    apply (Hfence [] [10%N] (quoted "{'a':1}") [10%N] []);
      [ repeat constructor | repeat constructor | repeat constructor
      | repeat constructor | reflexivity | reflexivity | left; reflexivity ].
  - destruct (parser_falls_back_on_outer_braces referenceLibrary
                responseFencedThenProse) as (_ & Hopened & _).
    apply (Hopened [] [10%N] responseFencedThenProseBody []);
      [ repeat constructor | repeat constructor | repeat constructor
      | vm_compute; reflexivity | vm_compute; reflexivity
      | vm_compute; reflexivity | left; vm_compute; reflexivity ].
  - destruct (parser_falls_back_on_outer_braces referenceLibrary
                responseFencedThenProse) as (_ & _ & _ & _ & Hfallback & _).
    destruct (Hfallback Reader.SyntaxError) as [Hfound _].
    + vm_compute. reflexivity.
    + apply Hfound. vm_compute. reflexivity.
  - destruct (parser_falls_back_on_outer_braces referenceLibrary responseInProse)
      as (_ & _ & _ & _ & Hfallback & _).
    destruct (Hfallback Reader.SyntaxError) as [Hfound _].
    + vm_compute. reflexivity.
    + apply Hfound. vm_compute. reflexivity.
Defined.


(* ================================================================== *)
(** * The sort: sorting again, and ties *)
(* ================================================================== *)

Section SortAgain.
Variable A : Type.
Variable compareFn : A -> A -> comparison.
Hypothesis compare_total :
  forall x y, compareFn x y = Gt -> orderedBy compareFn y x.
Hypothesis compare_trans :
  forall x y z, orderedBy compareFn x y -> orderedBy compareFn y z ->
                orderedBy compareFn x z.

Lemma sort_of_ordered (l : list A) :
  StronglySorted (orderedBy compareFn) l -> sort compareFn l = l.
Proof.
  induction 1 as [|y r Hr IH Hy]; simpl; [reflexivity|].
  rewrite IH. destruct r as [|x r']; [reflexivity|]. simpl.
  inversion Hy as [|? ? Hyx _]; subst.
  destruct (compareFn y x) eqn:E; try reflexivity. now elim Hyx.
Qed.

Lemma sort_idempotent (l : list A) :
  sort compareFn (sort compareFn l) = sort compareFn l.
Proof. apply sort_of_ordered. now apply sort_ordered. Qed.

(** Elements that the comparator separates from [x] are not picked by a
    test that picks [x] only together with its ties. *)
Lemma insert_filter (keep : A -> bool) (x : A) (l : list A) :
  (forall y, keep x = true -> keep y = true -> compareFn x y <> Gt) ->
  filter keep (insert compareFn x l) = filter keep (x :: l).
Proof.
  intros Hties. induction l as [|y r IH]; [reflexivity|].
  simpl insert. destruct (compareFn x y) eqn:Hxy; try reflexivity.
  simpl. simpl in IH. rewrite IH.
  destruct (keep x) eqn:Hx; [|reflexivity].
  destruct (keep y) eqn:Hy; [|reflexivity].
  now elim (Hties y eq_refl Hy).
Qed.

Lemma sort_filter (keep : A -> bool) (l : list A) :
  (forall x y, keep x = true -> keep y = true -> compareFn x y <> Gt) ->
  filter keep (sort compareFn l) = filter keep l.
Proof.
  intros Hties. induction l as [|x r IH]; [reflexivity|].
  simpl sort. rewrite insert_filter by (intros y; apply Hties).
  simpl. now rewrite IH.
Qed.
End SortAgain.

Lemma compare_refl (a : jsstring) : Js.compare a a = Eq.
Proof.
  induction a as [|x a IH]; simpl; [reflexivity|].
  now rewrite N.compare_refl.
Qed.

Lemma time_compare_total (x y : Activity.t) :
  localeCompare (Activity.time x) (Activity.time y) = Gt ->
  orderedBy (fun a b => localeCompare (Activity.time a) (Activity.time b)) y x.
Proof.
  intros H. unfold orderedBy, localeCompare in *.
  rewrite compare_flip, H. discriminate.
Qed.

Lemma time_compare_trans (x y z : Activity.t) :
  orderedBy (fun a b => localeCompare (Activity.time a) (Activity.time b)) x y ->
  orderedBy (fun a b => localeCompare (Activity.time a) (Activity.time b)) y z ->
  orderedBy (fun a b => localeCompare (Activity.time a) (Activity.time b)) x z.
Proof. unfold orderedBy, localeCompare. apply compare_le_trans. Qed.

(** X1.  Sorting the activities of a day a second time changes nothing:
    the normalisation of a result is idempotent. *)
Theorem sortActivities_idempotent (s : DailySchedule.t) :
  sortActivities (sortActivities s) = sortActivities s.
Proof.
  unfold sortActivities. simpl. f_equal.
  apply sort_idempotent; [exact time_compare_total|exact time_compare_trans].
Qed.

(** X2.  The sort is stable: the activities that share a time come out in
    the order in which the response listed them. *)
Theorem sortActivities_keeps_ties (s : DailySchedule.t) (t : jsstring) :
  filter (fun a => Js.eqb (Activity.time a) t)
         (DailySchedule.activities (sortActivities s))
  = filter (fun a => Js.eqb (Activity.time a) t)
           (DailySchedule.activities s).
Proof.
  unfold sortActivities. simpl. apply sort_filter.
  intros x y Hx Hy. apply eqb_eq in Hx, Hy. unfold localeCompare.
  rewrite Hx, Hy, compare_refl. discriminate.
Qed.

(* ================================================================== *)
(** * The shape of a run *)
(* ================================================================== *)

Lemma attemptsMade_app (xs ys : list Event) :
  attemptsMade (xs ++ ys) = attemptsMade xs ++ attemptsMade ys.
Proof.
  induction xs as [|[model k f|ms] xs IH]; simpl; auto. now rewrite IH.
Qed.

Lemma delays_app (xs ys : list Event) :
  delays (xs ++ ys) = delays xs ++ delays ys.
Proof.
  induction xs as [|[model k f|ms] xs IH]; simpl; auto. now rewrite IH.
Qed.

Lemma attemptCount_attemptsMade (events : list Event) :
  attemptCount events = List.length (attemptsMade events).
Proof.
  induction events as [|[model k f|ms] events IH]; simpl; auto.
Qed.

Lemma sumZ_app (xs ys : list Z) : sumZ (xs ++ ys) = (sumZ xs + sumZ ys)%Z.
Proof. induction xs as [|x xs IH]; simpl; [reflexivity|]. rewrite IH. lia. Qed.

(** The delays before attempts [a + 1] to [a + j] add up as a geometric
    series. *)
Lemma backoff_sum (delay : Z) (a j : nat) :
  (1 <= a)%nat ->
  sumZ (map (fun k => (delay * 2 ^ (Z.of_nat k - 1))%Z) (seq a j))
  = (delay * (2 ^ Z.of_nat (a + j - 1) - 2 ^ Z.of_nat (a - 1)))%Z.
Proof.
  intros Ha. revert a Ha. induction j as [|j IH]; intros a Ha.
  - simpl. rewrite Nat.add_0_r. lia.
  - simpl. rewrite IH by lia.
    replace (Z.of_nat a - 1)%Z with (Z.of_nat (a - 1)) by lia.
    replace (S a + j - 1)%nat with (S (a - 1 + j))%nat by lia.
    replace (S a - 1)%nat with (S (a - 1)) by lia.
    replace (a + S j - 1)%nat with (S (a - 1 + j))%nat by lia.
    rewrite !Nat2Z.inj_succ, !Z.pow_succ_r by lia. lia.
Qed.

Section RunShape.
Variable lib : Library.
Variable World : Type.
Variable client : Client World.
Variable cfg : Config.
Variable input : TripInput.
Variable locale : jsstring.

(** A successful attempt came from a response of the client that
    [buildItinerary] accepted. *)
Lemma generateWithTimeout_ok (model : jsstring) (w w' : World)
  (result : Itinerary.t) :
  generateWithTimeout lib client model input locale w = (Ok result, w') ->
  exists text,
    generateContent client w model input locale = (Responded (Some text), w')
    /\ buildItinerary lib client input w' text = Ok result.
Proof.
  unfold generateWithTimeout, callGeminiAPI.
  destruct (generateContent client w model input locale)
    as [[e|[[|c text]|]|] w1]; try discriminate.
  intros [= H <-]. exists (c :: text). auto.
Qed.

(** One pass of the retry loop: [n] attempts numbered from [attempt], with
    the backoff delay after each of them but the last; only the last can be
    a success. *)
Lemma attempts_shape (remaining attempt : nat) (model : jsstring)
  (w w' : World) (lastError : option JsError) (exit : LoopExit)
  (events : list Event) :
  (attempt + remaining = S (maxRetries cfg))%nat ->
  attempts lib client cfg remaining attempt model input locale w lastError
  = (exit, w', events) ->
  exists n,
    (n <= remaining)%nat
    /\ (1 <= remaining -> 1 <= n)%nat
    /\ attemptsMade events = map (pair model) (seq attempt n)
    /\ delays events
       = map (fun k => (retryDelay cfg * 2 ^ (Z.of_nat k - 1))%Z)
             (seq attempt (n - 1))
    /\ match exit with
       | Return result =>
         (exists w0 w1,
             generateWithTimeout lib client model input locale w0
             = (Ok result, w1))
         /\ exists failures k,
             events = failures ++ [Attempt model k None]
             /\ Forall (fun ev => succeeded ev = false) failures
       | Break _ => Forall (fun ev => succeeded ev = false) events
       end.
Proof.
  revert attempt w w' lastError exit events.
  induction remaining as [|remaining IH];
    intros attempt w w' lastError exit events Hinv; simpl.
  - intros [= <- _ <-]. exists 0%nat. simpl.
    split; [lia|]. split; [lia|]. split; [reflexivity|].
    split; [reflexivity|constructor].
  - destruct (generateWithTimeout lib client model input locale w)
      as [[result|e] w1] eqn:Hcall.
    + intros [= <- _ <-]. exists 1%nat. simpl.
      split; [lia|]. split; [lia|]. split; [reflexivity|].
      split; [reflexivity|]. split; [eauto|].
      exists [], attempt. split; [reflexivity|constructor].
    + destruct (isNotFound e).
      { intros [= <- _ <-]. exists 1%nat. simpl.
        split; [lia|]. split; [lia|]. split; [reflexivity|].
        split; [reflexivity|]. repeat constructor. }
      destruct (isRetryableError e && (attempt <? maxRetries cfg)%nat)
        eqn:Hretry.
      2:{ intros [= <- _ <-]. exists 1%nat. simpl.
          split; [lia|]. split; [lia|]. split; [reflexivity|].
          split; [reflexivity|]. repeat constructor. }
      destruct (attempts lib client cfg remaining (S attempt) model input
                  locale w1 (Some e)) as [[exit' w2] evs] eqn:Hrec.
      intros [= <- _ <-].
      apply andb_prop in Hretry. destruct Hretry as [_ Hlt].
      apply Nat.ltb_lt in Hlt.
      destruct (IH (S attempt) w1 w2 (Some e) exit' evs) as
        (n & Hn & Hpos & Hmade & Hdelays & Hexit); [lia|exact Hrec|].
      destruct n as [|n]; [lia|].
      exists (S (S n)). simpl in *. rewrite Hmade, Hdelays.
      rewrite Nat.sub_0_r.
      split; [lia|]. split; [lia|]. split; [reflexivity|].
      split; [reflexivity|].
      destruct exit' as [result|le].
      * destruct Hexit as [Hcame (failures & k & -> & Hfail)].
        split; [exact Hcame|].
        exists (Attempt model attempt (Some e)
                  :: Sleep (retryDelay cfg * 2 ^ (Z.of_nat attempt - 1))
                  :: failures), k.
        split; [reflexivity|]. repeat constructor. exact Hfail.
      * repeat constructor. exact Hexit.
Qed.
End RunShape.

Lemma blocksOf_none (ms : list jsstring) :
  blocksOf ms (repeat 0%nat (List.length ms)) = [].
Proof. induction ms as [|m ms IH]; [reflexivity|exact IH]. Qed.

Lemma backoffOf_none (cfg : Config) (n : nat) :
  backoffOf cfg (repeat 0%nat n) = [].
Proof. induction n as [|n IH]; [reflexivity|exact IH]. Qed.

Section CascadeShape.
Variable lib : Library.
Variable World : Type.
Variable client : Client World.
Variable cfg : Config.
Variable input : TripInput.
Variable locale : jsstring.

Lemma cascade_shape (ms : list jsstring) (w w' : World)
  (lastError : option JsError) (exit : LoopExit) (events : list Event) :
  cascade lib client cfg ms input locale w lastError = (exit, w', events) ->
  exists counts,
    List.length counts = List.length ms
    /\ Forall (fun k => (k <= maxRetries cfg)%nat) counts
    /\ attemptsMade events = blocksOf ms counts
    /\ delays events = backoffOf cfg counts
    /\ match exit with
       | Return result =>
         (exists model w0 w1,
             generateWithTimeout lib client model input locale w0
             = (Ok result, w1))
         /\ exists failures model k,
             events = failures ++ [Attempt model k None]
             /\ Forall (fun ev => succeeded ev = false) failures
             /\ In model ms
       | Break _ => Forall (fun ev => succeeded ev = false) events
       end.
Proof.
  revert w w' lastError exit events.
  induction ms as [|m rest IH]; intros w w' lastError exit events; simpl.
  - intros [= <- _ <-]. exists []. repeat split; auto.
  - destruct (attempts lib client cfg (maxRetries cfg) 1 m input locale w
                lastError) as [[exit1 w1] evs1] eqn:Hloop.
    destruct (@attempts_shape lib World client cfg input locale
                (maxRetries cfg) 1 m w w1 lastError exit1 evs1 eq_refl Hloop)
      as (n & Hn & _ & Hmade & Hdelays & Hexit).
    destruct exit1 as [result|le].
    + intros [= <- _ <-].
      exists (n :: repeat 0%nat (List.length rest)).
      split; [simpl; now rewrite repeat_length|].
      split; [constructor; [exact Hn|]; apply Forall_forall;
              intros k Hk; apply repeat_spec in Hk; lia|].
      split; [unfold blocksOf; simpl; fold (blocksOf rest
                (repeat 0%nat (List.length rest)));
              now rewrite blocksOf_none, app_nil_r|].
      split; [unfold backoffOf; simpl; fold (backoffOf cfg
                (repeat 0%nat (List.length rest)));
              now rewrite backoffOf_none, app_nil_r|].
      destruct Hexit as [(w0 & w2 & Hcame) (failures & k & Hev & Hfail)].
      split; [eauto|]. exists failures, m, k. repeat split; auto.
    + destruct (cascade lib client cfg rest input locale w1 le)
        as [[exit2 w2] evs2] eqn:Hrest.
      intros [= <- _ <-].
      destruct (IH _ _ _ _ _ Hrest)
        as (counts & Hlen & Hall & Hmade' & Hdelays' & Hexit').
      exists (n :: counts).
      split; [simpl; now rewrite Hlen|].
      split; [now constructor|].
      split; [rewrite attemptsMade_app, Hmade, Hmade'; reflexivity|].
      split; [rewrite delays_app, Hdelays, Hdelays'; reflexivity|].
      destruct exit2 as [result|le'].
      * destruct Hexit' as [Hcame (failures & model & k & -> & Hfail & Hin)].
        split; [exact Hcame|].
        exists (evs1 ++ failures), model, k.
        split; [now rewrite app_assoc|].
        split; [apply Forall_app; now split|now right].
      * apply Forall_app. now split.
Qed.
End CascadeShape.

(** What an itinerary that comes out of the cascade owes to the schema and
    to the sort. *)
Lemma cascade_returns
  (lib : Library) (World : Type) (client : Client World) (cfg : Config)
  (input : TripInput) (locale : jsstring) (ms : list jsstring)
  (w w' : World) (lastError : option JsError)
  (it : Itinerary.t) (events : list Event) :
  cascade lib client cfg ms input locale w lastError = (Return it, w', events) ->
  Itinerary.destination it = destination input
  /\ Itinerary.duration it = duration input
  /\ Z.of_nat (List.length (Itinerary.dailySchedules it)) = duration input
  /\ Forall (fun s =>
               (0 < DailySchedule.day s)%Z
               /\ (3 <= List.length (DailySchedule.activities s))%nat
               /\ StronglySorted timeLe (DailySchedule.activities s)
               /\ Forall (fun a => twoDigitsColonTwoDigits (Activity.time a))
                         (DailySchedule.activities s))
            (Itinerary.dailySchedules it).
Proof.
  intros Hrun. apply cascade_shape in Hrun.
  destruct Hrun as (_ & _ & _ & _ & _ & (model & w0 & w1 & Hcame) & _).
  apply generateWithTimeout_ok in Hcame. destruct Hcame as (text & _ & Hbuild).
  apply buildItinerary_accepts in Hbuild.
  destruct Hbuild as (v & validated & _ & Hschema & Hn & Hds & _ & _ & Hd & Hn').
  apply ItineraryResponseSchema_inv in Hschema. destruct Hschema as [_ Hall].
  repeat split; auto.
  - rewrite Hds, length_map. exact Hn.
  - rewrite Hds. apply Forall_map. eapply Forall_impl; [|exact Hall].
    intros s (Hday & Hlen & Htimes).
    pose proof (sortActivities_permutation s) as Hperm.
    split; [exact Hday|].
    split; [now rewrite <- (Permutation_length Hperm)|].
    split; [apply sortActivities_ordered|].
    eapply Permutation_Forall; [exact Hperm|].
    eapply Forall_impl; [|exact Htimes].
    intros a Ha. now apply timeRegex_spec.
Qed.

(** What the caller of [generateItinerary] can rely on when it returns. *)
Lemma generateItinerary_ok
  (lib : Library) (World : Type) (client : Client World) (cfg : Config)
  (input : TripInput) (locale : jsstring) (w : World)
  (it : Itinerary.t) (events : list Event) :
  generateItinerary lib client cfg input locale w = (Ok it, events) ->
  isBlank (destination input) = false
  /\ (1 <= duration input)%Z
  /\ Itinerary.destination it = destination input
  /\ Itinerary.duration it = duration input
  /\ Z.of_nat (List.length (Itinerary.dailySchedules it)) = duration input.
Proof.
  unfold generateItinerary.
  destruct (isBlank (destination input)) eqn:Hdest; [discriminate|].
  destruct (duration input <? 1)%Z eqn:Hdays; [discriminate|].
  apply Z.ltb_ge in Hdays.
  destruct (cascade lib client cfg (models cfg) input locale w None)
    as [[[result|le] w'] evs] eqn:Hrun; [|discriminate].
  intros [= -> _]. apply cascade_returns in Hrun.
  destruct Hrun as (Hd & Hn & Hlen & _). auto.
Qed.

(** X3.  An itinerary that [generateItinerary] returns is for the request:
    it carries the destination and the duration of the input, which passed
    the validation, and it has one schedule per day, each with a positive
    day, at least three activities, times of two digits, a colon and two
    digits, in ascending order. *)
Theorem returned_itinerary_fits_request
  (lib : Library) (World : Type) (client : Client World) (cfg : Config)
  (input : TripInput) (locale : jsstring) (w : World)
  (it : Itinerary.t) (events : list Event) :
  generateItinerary lib client cfg input locale w = (Ok it, events) ->
  isBlank (destination input) = false
  /\ (1 <= duration input)%Z
  /\ Itinerary.destination it = destination input
  /\ Itinerary.duration it = duration input
  /\ Z.of_nat (List.length (Itinerary.dailySchedules it)) = duration input
  /\ Forall (fun s =>
               (0 < DailySchedule.day s)%Z
               /\ (3 <= List.length (DailySchedule.activities s))%nat
               /\ StronglySorted timeLe (DailySchedule.activities s)
               /\ Forall (fun a => twoDigitsColonTwoDigits (Activity.time a))
                         (DailySchedule.activities s))
            (Itinerary.dailySchedules it).
Proof.
  unfold generateItinerary.
  destruct (isBlank (destination input)) eqn:Hdest; [discriminate|].
  destruct (duration input <? 1)%Z eqn:Hdays; [discriminate|].
  apply Z.ltb_ge in Hdays.
  destruct (cascade lib client cfg (models cfg) input locale w None)
    as [[[result|le] w'] evs] eqn:Hrun; [|discriminate].
  intros [= -> _]. apply cascade_returns in Hrun.
  destruct Hrun as (Hd & Hn & Hlen & Hall).
  split; [reflexivity|]. split; [exact Hdays|].
  split; [exact Hd|]. split; [exact Hn|]. split; [exact Hlen|exact Hall].
Qed.

(** X4.  A run stops at the first success: an attempt that returned an
    itinerary is the last event of the run, on a model of the list; a run
    that ends in an error holds failed attempts and delays only. *)
Theorem success_ends_the_run
  (lib : Library) (World : Type) (client : Client World) (cfg : Config)
  (input : TripInput) (locale : jsstring) (w : World) :
  let '(outcome, events) := generateItinerary lib client cfg input locale w in
  match outcome with
  | Ok _ =>
    exists failures model k,
      events = failures ++ [Attempt model k None]
      /\ Forall (fun ev => succeeded ev = false) failures
      /\ In model (models cfg)
  | Throw _ => Forall (fun ev => succeeded ev = false) events
  end.
Proof.
  unfold generateItinerary.
  destruct (isBlank (destination input)); [constructor|].
  destruct (duration input <? 1)%Z; [constructor|].
  destruct (cascade lib client cfg (models cfg) input locale w None)
    as [[[result|le] w'] evs] eqn:Hrun;
    apply cascade_shape in Hrun;
    destruct Hrun as (_ & _ & _ & _ & _ & Hexit).
  - now destruct Hexit as [_ Hlast].
  - exact Hexit.
Qed.

(** X5.  The attempts of a run are, in order, one block for each model of
    the list, in the order of the list: the attempts numbered 1 to [k] on
    that model, with [k] at most [maxRetries] (and none on a model that the
    run does not reach).  The delays of the run are, in order, those of the
    blocks: [retryDelay * 2 ^ (i - 1)] milliseconds for [i] from 1 to
    [k - 1]. *)
Theorem models_tried_in_order
  (lib : Library) (World : Type) (client : Client World) (cfg : Config)
  (input : TripInput) (locale : jsstring) (w : World) :
  let events := snd (generateItinerary lib client cfg input locale w) in
  exists counts,
    List.length counts = List.length (models cfg)
    /\ Forall (fun k => (k <= maxRetries cfg)%nat) counts
    /\ attemptsMade events = blocksOf (models cfg) counts
    /\ delays events = backoffOf cfg counts.
Proof.
  unfold generateItinerary.
  assert (Hnone : exists counts,
             List.length counts = List.length (models cfg)
             /\ Forall (fun k => (k <= maxRetries cfg)%nat) counts
             /\ @nil (jsstring * nat) = blocksOf (models cfg) counts
             /\ @nil Z = backoffOf cfg counts).
  { exists (repeat 0%nat (List.length (models cfg))).
    rewrite repeat_length, blocksOf_none, backoffOf_none.
    repeat split; auto. apply Forall_forall.
    intros k Hk. apply repeat_spec in Hk. lia. }
  destruct (isBlank (destination input)); [exact Hnone|].
  destruct (duration input <? 1)%Z; [exact Hnone|].
  destruct (cascade lib client cfg (models cfg) input locale w None)
    as [[exit w'] evs] eqn:Hrun.
  apply cascade_shape in Hrun.
  destruct Hrun as (counts & Hlen & Hall & Hmade & Hdelays & _).
  exists counts. destruct exit; simpl; auto.
Qed.

Lemma blocksOf_length (ms : list jsstring) (counts : list nat) (bound : nat) :
  List.length counts = List.length ms ->
  Forall (fun k => (k <= bound)%nat) counts ->
  (List.length (blocksOf ms counts) <= bound * List.length ms)%nat.
Proof.
  revert counts. induction ms as [|m ms IH]; intros [|k counts];
    simpl; try discriminate; [lia|].
  intros [= Hlen] Hall. inversion Hall as [|? ? Hk Hrest]; subst.
  unfold blocksOf. simpl. fold (blocksOf ms counts).
  rewrite length_app. unfold block. rewrite length_map, length_seq.
  specialize (IH counts Hlen Hrest). lia.
Qed.

Lemma backoff_total (cfg : Config) (k : nat) :
  sumZ (backoff cfg k)
  = (retryDelay cfg * (2 ^ Z.of_nat (k - 1) - 1))%Z.
Proof.
  unfold backoff. rewrite (backoff_sum (retryDelay cfg) (a:=1)) by lia.
  replace (1 + (k - 1) - 1)%nat with (k - 1)%nat by lia. reflexivity.
Qed.

Lemma backoff_length (cfg : Config) (k : nat) :
  List.length (backoff cfg k) = (k - 1)%nat.
Proof. unfold backoff. now rewrite length_map, length_seq. Qed.

Lemma backoffOf_bounds (cfg : Config) (counts : list nat) :
  (0 <= retryDelay cfg)%Z ->
  Forall (fun k => (k <= maxRetries cfg)%nat) counts ->
  (List.length (backoffOf cfg counts)
   <= (maxRetries cfg - 1) * List.length counts)%nat
  /\ (0 <= sumZ (backoffOf cfg counts)
      <= Z.of_nat (List.length counts)
         * (retryDelay cfg * (2 ^ Z.of_nat (maxRetries cfg - 1) - 1)))%Z.
Proof.
  intros Hdelay. induction 1 as [|k counts Hk _ IH]; [simpl; lia|].
  unfold backoffOf in *. cbn [map List.concat List.length].
  rewrite length_app, sumZ_app, backoff_total, Nat2Z.inj_succ.
  destruct IH as [IHlen IHsum].
  assert (Hpow : (1 <= 2 ^ Z.of_nat (k - 1)
                  <= 2 ^ Z.of_nat (maxRetries cfg - 1))%Z).
  { split; [apply (Z.pow_le_mono_r 2 0); lia|apply Z.pow_le_mono_r; lia]. }
  split.
  - rewrite backoff_length, Nat.mul_succ_r.
    assert (Hk1 : (k - 1 <= maxRetries cfg - 1)%nat) by lia.
    revert IHlen Hk1. generalize (maxRetries cfg - 1)%nat. intros m.
    generalize (m * List.length counts)%nat. intros total. lia.
  - revert IHsum Hpow. generalize (2 ^ Z.of_nat (maxRetries cfg - 1))%Z.
    generalize (2 ^ Z.of_nat (k - 1))%Z. intros p m IHsum Hpow.
    assert (Hlow : (0 <= retryDelay cfg * (p - 1))%Z)
      by (apply Z.mul_nonneg_nonneg; lia).
    assert (Hhigh : (retryDelay cfg * (p - 1) <= retryDelay cfg * (m - 1))%Z)
      by (apply Z.mul_le_mono_nonneg_l; lia).
    rewrite Z.mul_succ_l. lia.
Qed.

(** X6.  The effort of a run is bounded: it makes at most [maxRetries]
    attempts on each model of the list and sleeps at most [maxRetries - 1]
    times for each, for a total that does not exceed
    [retryDelay * (2 ^ (maxRetries - 1) - 1)] milliseconds per model. *)
Theorem run_effort_bounded
  (lib : Library) (World : Type) (client : Client World) (cfg : Config)
  (input : TripInput) (locale : jsstring) (w : World) :
  (0 <= retryDelay cfg)%Z ->
  let events := snd (generateItinerary lib client cfg input locale w) in
  (attemptCount events <= maxRetries cfg * List.length (models cfg))%nat
  /\ (List.length (delays events)
      <= (maxRetries cfg - 1) * List.length (models cfg))%nat
  /\ (0 <= sumZ (delays events)
      <= Z.of_nat (List.length (models cfg))
         * (retryDelay cfg * (2 ^ Z.of_nat (maxRetries cfg - 1) - 1)))%Z.
Proof.
  intros Hdelay. unfold generateItinerary.
  assert (Hpow : (1 <= 2 ^ Z.of_nat (maxRetries cfg - 1))%Z)
    by (apply (Z.pow_le_mono_r 2 0); lia).
  assert (Hnone : (attemptCount [] <= maxRetries cfg * List.length (models cfg))%nat
            /\ (List.length (delays [])
                <= (maxRetries cfg - 1) * List.length (models cfg))%nat
            /\ (0 <= sumZ (delays [])
                <= Z.of_nat (List.length (models cfg))
                   * (retryDelay cfg
                      * (2 ^ Z.of_nat (maxRetries cfg - 1) - 1)))%Z)
    by (simpl; repeat split; try lia; nia).
  destruct (isBlank (destination input)); [exact Hnone|].
  destruct (duration input <? 1)%Z; [exact Hnone|].
  destruct (cascade lib client cfg (models cfg) input locale w None)
    as [[exit w'] evs] eqn:Hrun.
  apply cascade_shape in Hrun.
  destruct Hrun as (counts & Hlen & Hall & Hmade & Hdelays & _).
  assert (Hgoal : (attemptCount evs <= maxRetries cfg * List.length (models cfg))%nat
            /\ (List.length (delays evs)
                <= (maxRetries cfg - 1) * List.length (models cfg))%nat
            /\ (0 <= sumZ (delays evs)
                <= Z.of_nat (List.length (models cfg))
                   * (retryDelay cfg
                      * (2 ^ Z.of_nat (maxRetries cfg - 1) - 1)))%Z).
  { rewrite attemptCount_attemptsMade, Hmade, Hdelays, <- Hlen.
    split; [rewrite Hlen; now apply blocksOf_length|].
    now apply backoffOf_bounds. }
  destruct exit; exact Hgoal.
Qed.

Section PersistentFailure.
Variable lib : Library.
Variable World : Type.
Variable client : Client World.
Variable cfg : Config.
Variable input : TripInput.
Variable locale : jsstring.
Variable model : jsstring.
Hypothesis every_attempt_fails : alwaysTransient lib client model input locale.

Lemma attempts_all_transient (remaining attempt : nat) (w : World)
  (lastError : option JsError) :
  (attempt + remaining = maxRetries cfg)%nat ->
  exists e w' events,
    attempts lib client cfg (S remaining) attempt model input locale w
      lastError
    = (Break (Some e), w', events)
    /\ transientFailure e
    /\ attemptCount events = S remaining.
Proof.
  revert attempt w lastError.
  induction remaining as [|remaining IH]; intros attempt w lastError Hinv;
    destruct (every_attempt_fails w) as (e & w1 & Hfail & Htr);
    destruct (transientFailure_tests Htr) as [Hnf Hre].
  - exists e, w1, [Attempt model attempt (Some e)].
    split; [|split; [exact Htr|reflexivity]].
    apply attempts_give_up; [exact Hfail|].
    apply andb_false_iff. right. apply Nat.ltb_ge. lia.
  - destruct (IH (S attempt) w1 (Some e)) as (e' & w2 & evs & Hloop & Htr' & Hn);
      [lia|].
    exists e', w2, (Attempt model attempt (Some e)
                     :: Sleep (retryDelay cfg * 2 ^ (Z.of_nat attempt - 1))
                     :: evs).
    split; [|split; [exact Htr'|simpl; now rewrite Hn]].
    rewrite (@attempts_retry lib World client cfg input locale (S remaining)
               attempt model w w1 lastError e Hfail Hnf Hre); [|lia].
    now rewrite Hloop.
Qed.
End PersistentFailure.


Lemma cascade_without_retries (lib : Library) (World : Type)
  (client : Client World) (cfg : Config) (input : TripInput)
  (locale : jsstring) (ms : list jsstring) (w : World)
  (lastError : option JsError) :
  maxRetries cfg = 0%nat ->
  cascade lib client cfg ms input locale w lastError = (Break lastError, w, []).
Proof.
  intros Hmax. induction ms as [|m ms IH]; simpl; [reflexivity|].
  rewrite Hmax. simpl. now rewrite IH.
Qed.

(** X8.  With no model in the list, or with [maxRetries] at zero, a valid
    request fails at once with the general error of [handleError]: the
    client is never called, and the text [All models failed] never reaches
    the caller. *)
Theorem nothing_to_try
  (lib : Library) (World : Type) (client : Client World) (cfg : Config)
  (input : TripInput) (locale : jsstring) (w : World) :
  isBlank (destination input) = false ->
  (1 <= duration input)%Z ->
  models cfg = [] \/ maxRetries cfg = 0%nat ->
  generateItinerary lib client cfg input locale w
  = (Throw (Error (kindMessage KUnknown)), []).
Proof.
  intros Hdest Hdays Hnone. apply Z.ltb_ge in Hdays.
  unfold generateItinerary. rewrite Hdest, Hdays.
  destruct Hnone as [Hmodels|Hmax].
  - rewrite Hmodels. reflexivity.
  - rewrite cascade_without_retries by exact Hmax. reflexivity.
Qed.

(** X9.  A response without text, and a text in which neither the direct
    parse nor the search for braces finds JSON, are not worth a retry: the
    attempt fails with [Empty response from AI] or [No valid JSON found in
    AI response], and the loop leaves the model at once, without delay. *)
Theorem unusable_response_not_retried
  (lib : Library) (World : Type) (client : Client World) (cfg : Config)
  (input : TripInput) (locale : jsstring) (model : jsstring)
  (w w' : World) (generatedText : option jsstring)
  (remaining attempt : nat) (lastError : option JsError) :
  generateContent client w model input locale
  = (Responded generatedText, w') ->
  match generatedText with
  | None | Some [] => True
  | Some text =>
    (exists e, JSON_parse lib (stripFences text) = Throw e)
    /\ matchBraces text = None
  end ->
  let error :=
    match generatedText with
    | None | Some [] => Error (lit "Empty response from AI")
    | Some _ => Error (lit "No valid JSON found in AI response")
    end in
  attempts lib client cfg (S remaining) attempt model input locale w lastError
  = (Break (Some error), w', [Attempt model attempt (Some error)]).
Proof.
  intros Hcall Htext error.
  assert (Hfail : generateWithTimeout lib client model input locale w
                  = (Throw error, w')).
  { unfold generateWithTimeout, callGeminiAPI. rewrite Hcall.
    destruct generatedText as [[|c text]|]; try reflexivity.
    destruct Htext as [[e He] Hnone].
    unfold buildItinerary, parseAIResponse. now rewrite He, Hnone. }
  apply attempts_give_up; [exact Hfail|].
  unfold error. destruct generatedText as [[|c text]|]; reflexivity.
Qed.


(* ================================================================== *)
(** * The schemas: what is refused *)
(* ================================================================== *)

Lemma ItineraryResponseSchema_sound (v : json) (r : ItineraryResponse.t) :
  ItineraryResponseSchema v = Some r ->
  readsResponse v r
  /\ Forall wellFormedSchedule (ItineraryResponse.dailySchedules r).
Proof.
  intros H. apply ItineraryResponseSchema_inv in H. destruct H as [Hreads Hall].
  split; [exact Hreads|].
  eapply Forall_impl; [|exact Hall].
  intros s (Hday & Hlen & Htimes). repeat split; auto.
  eapply Forall_impl; [|exact Htimes]. intros a Ha. now apply timeRegex_spec.
Qed.

(** What an accepted value holds at each of its schedules and at each of
    its recommendations. *)
Lemma accepted_schedule (v : json) (r : ItineraryResponse.t)
  (so : list (jsstring * json)) :
  ItineraryResponseSchema v = Some r -> hasSchedule v so ->
  exists s, readsSchedule (JObj so) s /\ wellFormedSchedule s.
Proof.
  intros Hschema (o & schedules & i & -> & Hds & Hi).
  apply ItineraryResponseSchema_sound in Hschema.
  destruct Hschema as [(o' & schedules' & recs & Ho & Hds' & Hread & _) Hall].
  injection Ho as <-.
  rewrite Hds in Hds'. injection Hds' as <-.
  destruct (Forall2_nth_error Hread _ Hi) as (s & Hs & Hrs).
  exists s. split; [exact Hrs|].
  rewrite Forall_forall in Hall. apply Hall. eapply nth_error_In; eauto.
Qed.

Lemma accepted_recommendation (v : json) (r : ItineraryResponse.t)
  (ro : list (jsstring * json)) :
  ItineraryResponseSchema v = Some r -> hasRecommendation v ro ->
  exists rec, readsRecommendation (JObj ro) rec.
Proof.
  intros Hschema (o & recs & i & -> & Hrecs & Hi).
  apply ItineraryResponseSchema_sound in Hschema.
  destruct Hschema as [(o' & schedules & recs' & Ho & _ & _ & Hrecs' & Hread) _].
  injection Ho as <-.
  rewrite Hrecs in Hrecs'. injection Hrecs' as <-.
  destruct (Forall2_nth_error Hread _ Hi) as (rec & _ & Hrec).
  now exists rec.
Qed.

(** X11.  A response in which some day lists fewer than three activities
    is refused by the schema, whatever else it holds. *)
Theorem too_few_activities_refused (v : json) (so : list (jsstring * json))
  (items : list json) :
  hasSchedule v so ->
  lookup so (lit "activities") = Some (JArr items) ->
  (List.length items < 3)%nat ->
  ItineraryResponseSchema v = None.
Proof.
  intros Hso Hitems Hlen.
  destruct (ItineraryResponseSchema v) as [r|] eqn:Hschema; [exfalso|reflexivity].
  destruct (accepted_schedule Hschema Hso)
    as (s & (o & m & e & items' & Ho & _ & _ & Hitems' & Hacts) & _ & Hmin & _).
  injection Ho as <-. rewrite Hitems in Hitems'. injection Hitems' as <-.
  apply Forall2_length in Hacts. lia.
Qed.

(** X12.  A response in which the [day] of some schedule is not a
    number (a string, [null], an object, ...) or is a number that is not
    above zero is refused by the schema. *)
Theorem day_not_positive_refused (v : json)
  (so : list (jsstring * json)) (d : json) :
  hasSchedule v so ->
  lookup so (lit "day") = Some d ->
  (forall m e, d = JNum m e -> (m <= 0)%Z) ->
  ItineraryResponseSchema v = None.
Proof.
  intros Hso Hday Hbad.
  destruct (ItineraryResponseSchema v) as [r|] eqn:Hschema; [exfalso|reflexivity].
  destruct (accepted_schedule Hschema Hso)
    as (s & (o & m & e & items & Ho & Hday' & Hval & _) & Hpos & _).
  injection Ho as <-. rewrite Hday in Hday'. injection Hday' as ->.
  specialize (Hbad m e eq_refl). unfold numberIs in Hval.
  destruct (0 <=? e)%Z eqn:He.
  - apply Z.leb_le in He.
    assert (0 < 10 ^ e)%Z by (apply Z.pow_pos_nonneg; lia). nia.
  - apply Z.leb_gt in He.
    assert (0 < 10 ^ (- e))%Z by (apply Z.pow_pos_nonneg; lia). nia.
Qed.

(** X13.  A response in which the [category] of some recommendation is
    not one of the strings [place], [restaurant], [experience] is refused
    by the schema. *)
Theorem unknown_category_refused (v : json) (ro : list (jsstring * json))
  (c : json) :
  hasRecommendation v ro ->
  lookup ro (lit "category") = Some c ->
  (forall k, c <> JStr (categoryName k)) ->
  ItineraryResponseSchema v = None.
Proof.
  intros Hro Hcategory Hbad.
  destruct (ItineraryResponseSchema v) as [r|] eqn:Hschema; [exfalso|reflexivity].
  destruct (accepted_recommendation Hschema Hro)
    as (rec & o & Ho & Hcategory' & _).
  injection Ho as <-. rewrite Hcategory in Hcategory'. injection Hcategory' as ->.
  now apply (Hbad (RecommendationData.category rec)).
Qed.

(* ================================================================== *)
(** * Closed examples of the further properties *)
(* ================================================================== *)

(** X3 at the sample response. *)
Lemma returned_itinerary_fits_request_witness :
  generateItinerary referenceLibrary scripted defaultConfig sampleInput
    (lit "th") [Responded (Some sampleResponse)]
  = (Ok sampleItinerary, [Attempt (lit "gemini-2.5-flash") 1 None])
  /\ Z.of_nat (List.length (Itinerary.dailySchedules sampleItinerary))
     = duration sampleInput
  /\ Forall (fun s =>
               (0 < DailySchedule.day s)%Z
               /\ (3 <= List.length (DailySchedule.activities s))%nat
               /\ StronglySorted timeLe (DailySchedule.activities s)
               /\ Forall (fun a => twoDigitsColonTwoDigits (Activity.time a))
                         (DailySchedule.activities s))
            (Itinerary.dailySchedules sampleItinerary).
Proof.
  assert (Hrun : generateItinerary referenceLibrary scripted defaultConfig
                   sampleInput (lit "th") [Responded (Some sampleResponse)]
                 = (Ok sampleItinerary, [Attempt (lit "gemini-2.5-flash") 1 None]))
    by (vm_compute; reflexivity).
  split; [exact Hrun|].
  destruct (returned_itinerary_fits_request _ _ _ _ _ _ Hrun)
    as (_ & _ & _ & _ & Hlen & Hall).
  split; [exact Hlen|exact Hall].
Defined.

(** X6 on a run that succeeds at the third attempt. *)
Lemma run_effort_bounded_witness :
  let events :=
    snd (generateItinerary referenceLibrary scripted defaultConfig sampleInput
           (lit "th")
           [Rejected tooManyRequests; Rejected rateLimited;
            Responded (Some sampleResponse)]) in
  (attemptCount events <= 3 * 4)%nat
  /\ (List.length (delays events) <= 2 * 4)%nat
  /\ (0 <= sumZ (delays events) <= 4 * (1000 * (2 ^ 2 - 1)))%Z.
Proof.
  apply (@run_effort_bounded referenceLibrary _ scripted defaultConfig
           sampleInput (lit "th")
           [Rejected tooManyRequests; Rejected rateLimited;
            Responded (Some sampleResponse)]).
  simpl. lia.
Defined.


(** X8 with an empty list of models. *)
Lemma nothing_to_try_witness :
  generateItinerary referenceLibrary scripted noModelConfig sampleInput
    (lit "th") [Responded (Some sampleResponse)]
  = (Throw (Error (kindMessage KUnknown)), []).
Proof.
  apply nothing_to_try.
  - vm_compute; reflexivity.
  - simpl. lia.
  - left. reflexivity.
Defined.

(** X9 at an answer in prose. *)
Lemma unusable_response_not_retried_witness :
  attempts referenceLibrary scripted defaultConfig 3 1
    (lit "gemini-2.5-flash") sampleInput (lit "th")
    [Responded (Some responseNoJson); Responded (Some sampleResponse)] None
  = (Break (Some (Error (lit "No valid JSON found in AI response"))),
     [Responded (Some sampleResponse)],
     [Attempt (lit "gemini-2.5-flash") 1
        (Some (Error (lit "No valid JSON found in AI response")))]).
Proof.
  apply (@unusable_response_not_retried referenceLibrary _ scripted
           defaultConfig sampleInput (lit "th") (lit "gemini-2.5-flash")
           [Responded (Some responseNoJson); Responded (Some sampleResponse)]
           [Responded (Some sampleResponse)] (Some responseNoJson)
           2%nat 1%nat None).
  - reflexivity.
  - vm_compute. split; [eexists; reflexivity|reflexivity].
Defined.

(** X11 at a day of two activities. *)
Lemma too_few_activities_refused_witness :
  ItineraryResponseSchema (parsed responseTwoActivities) = None.
Proof.
  eapply too_few_activities_refused.
  - eexists _, _, 0%nat. split; [vm_compute; reflexivity|].
    split; [vm_compute; reflexivity|vm_compute; reflexivity].
  - vm_compute; reflexivity.
  - simpl. lia.
Defined.

(** X12 at a day numbered zero. *)
Lemma day_not_positive_refused_witness :
  ItineraryResponseSchema (parsed responseDayZero) = None.
Proof.
  eapply day_not_positive_refused.
  - eexists _, _, 0%nat. split; [vm_compute; reflexivity|].
    split; [vm_compute; reflexivity|vm_compute; reflexivity].
  - vm_compute; reflexivity.
  - intros m e [= <- <-]. lia.
Defined.

(** X13 at a recommendation of the category [hotel]. *)
Lemma unknown_category_refused_witness :
  ItineraryResponseSchema (parsed responseHotel) = None.
Proof.
  eapply unknown_category_refused.
  - eexists _, _, 0%nat. split; [vm_compute; reflexivity|].
    split; [vm_compute; reflexivity|vm_compute; reflexivity].
  - vm_compute; reflexivity.
  - intros k. destruct k; vm_compute; discriminate.
Defined.

(* ================================================================== *)
(** * The route: facts on the request schema *)
(* ================================================================== *)

Lemma ItineraryRequestSchema_inv (body : json) (input : TripInput) :
  ItineraryRequestSchema body = inl input ->
  readsRequest body input
  /\ destination input <> []
  /\ (1 <= duration input)%Z.
Proof.
  destruct body as [| | | | |o]; try discriminate.
  unfold ItineraryRequestSchema.
  destruct (lookup o (lit "destination")) as [[| | |s| |]|] eqn:Hdest;
    try discriminate;
    destruct (lookup o (lit "duration")) as [[| |m e| | |]|] eqn:Hdur;
    try discriminate.
  unfold destinationIssues, durationIssues.
  destruct (Js.length s <? 1)%nat eqn:Hlen; [discriminate|].
  destruct (isInteger m e) eqn:Hint; [|discriminate].
  destruct (belowOne m e) eqn:Hone; [discriminate|].
  intros [= <-]. cbn [destination duration].
  apply Nat.ltb_ge in Hlen.
  unfold isInteger in Hint. unfold belowOne in Hone.
  unfold readsRequest, numberIs, integerValue. cbn [destination duration].
  split; [|split].
  - exists o, m, e. repeat split; auto.
    destruct (0 <=? e)%Z eqn:He; [reflexivity|].
    simpl in Hint. apply Z.eqb_eq in Hint. apply Z.leb_gt in He.
    assert (Hp : (0 < 10 ^ (- e))%Z) by (apply Z.pow_pos_nonneg; lia).
    pose proof (Z.div_mod m (10 ^ (- e))) as D. lia.
  - destruct s; [simpl in Hlen; lia|discriminate].
  - destruct (0 <=? e)%Z eqn:He.
    + apply Z.ltb_ge in Hone. exact Hone.
    + simpl in Hint. apply Z.eqb_eq in Hint. apply Z.leb_gt in He.
      apply Z.ltb_ge in Hone.
      assert (Hp : (0 < 10 ^ (- e))%Z) by (apply Z.pow_pos_nonneg; lia).
      apply Z.div_le_lower_bound; lia.
Qed.

Lemma numberIs_integer (m e n : Z) :
  numberIs m e n -> isInteger m e = true /\ integerValue m e = n.
Proof.
  unfold numberIs, isInteger, integerValue.
  destruct (0 <=? e)%Z eqn:He; [now intros ->|].
  intros ->. apply Z.leb_gt in He.
  assert (Hp : (0 < 10 ^ (- e))%Z) by (apply Z.pow_pos_nonneg; lia).
  rewrite Z.mod_mul, Z.div_mul by lia. split; reflexivity.
Qed.

Lemma numberIs_belowOne (m e n : Z) :
  numberIs m e n -> belowOne m e = (n <? 1)%Z.
Proof.
  unfold numberIs, belowOne.
  destruct (0 <=? e)%Z eqn:He; [now intros ->|].
  intros ->. apply Z.leb_gt in He.
  assert (Hp : (0 < 10 ^ (- e))%Z) by (apply Z.pow_pos_nonneg; lia).
  destruct (n <? 1)%Z eqn:Hn.
  - apply Z.ltb_lt in Hn. apply Z.ltb_lt. nia.
  - apply Z.ltb_ge in Hn. apply Z.ltb_ge. nia.
Qed.

Lemma ItineraryRequestSchema_complete (body : json) (input : TripInput) :
  readsRequest body input ->
  destination input <> [] ->
  (1 <= duration input)%Z ->
  ItineraryRequestSchema body = inl input.
Proof.
  intros (o & m & e & -> & Hdest & Hdur & Hval) Hne Hdays.
  unfold ItineraryRequestSchema. rewrite Hdest, Hdur.
  unfold destinationIssues, durationIssues.
  destruct (@numberIs_integer m e _ Hval) as [Hint Hn].
  rewrite Hint, (@numberIs_belowOne m e _ Hval), Hn.
  apply Z.ltb_ge in Hdays. rewrite Hdays.
  destruct input as [d n]. cbn [destination duration] in *.
  destruct d; [congruence|reflexivity].
Qed.

Lemma orElse_nonempty (a b : jsstring) : a <> [] -> orElse a b = a.
Proof. destruct a; [congruence|reflexivity]. Qed.

Lemma errorMessage_Error (m : jsstring) :
  m <> [] -> errorMessage (Error m) = m.
Proof. intros H. unfold errorMessage. cbn [message Error]. now apply orElse_nonempty. Qed.

Lemma destinationRequired_nonempty : lit "Destination is required" <> [].
Proof. vm_compute. discriminate. Qed.

Lemma validation_messages_nonempty :
  th.validation_destinationRequired <> []
  /\ th.validation_durationMinimum <> [].
Proof. split; vm_compute; discriminate. Qed.

Lemma kindMessage_nonempty (k : ErrorKind) (fallback : jsstring) :
  orElse (kindMessage k) fallback = kindMessage k.
Proof. destruct k; vm_compute; reflexivity. Qed.

(** The errors that [generateItinerary] throws. *)
Lemma generateItinerary_throws
  (lib : Library) (World : Type) (client : Client World) (cfg : Config)
  (input : TripInput) (locale : jsstring) (w : World)
  (error : JsError) (events : list Event) :
  generateItinerary lib client cfg input locale w = (Throw error, events) ->
  (isBlank (destination input) = true
   /\ error = Error (lit "Destination is required") /\ events = [])
  \/ (isBlank (destination input) = false /\ (duration input < 1)%Z
      /\ error = Error (lit "Duration must be at least 1 day") /\ events = [])
  \/ (isBlank (destination input) = false /\ (1 <= duration input)%Z
      /\ exists k, error = Error (kindMessage k)).
Proof.
  unfold generateItinerary.
  destruct (isBlank (destination input)) eqn:Hdest.
  - intros [= <- <-]. left. auto.
  - destruct (duration input <? 1)%Z eqn:Hdays.
    + intros [= <- <-]. right. left. apply Z.ltb_lt in Hdays. auto.
    + apply Z.ltb_ge in Hdays.
      destruct (cascade lib client cfg (models cfg) input locale w None)
        as [[[result|le] w'] evs]; [discriminate|].
      intros [= <- <-]. right. right. repeat split; auto.
      eexists. reflexivity.
Qed.

Lemma servedAs_run (server : Server) (request : NextRequest.t) (user : User.t) :
  servedAs server request user ->
  (if isDev server request then Ok (Authenticated devUser)
   else requireAuth server request) = Ok (Authenticated user).
Proof.
  unfold servedAs, requireAuth.
  destruct (isDev server request); [now intros ->|].
  now intros ->.
Qed.

Lemma run_servedAs (server : Server) (request : NextRequest.t) (user : User.t) :
  (if isDev server request then Ok (Authenticated devUser)
   else requireAuth server request) = Ok (Authenticated user) ->
  servedAs server request user.
Proof.
  unfold servedAs, requireAuth.
  destruct (isDev server request); [now intros [= <-]|].
  destruct (verifyAuth server request) as [[u|]|e]; try discriminate.
  now intros [= <-].
Qed.

(** The issues that the request schema raises: of type, or below a minimum
    with one of the two messages of the schema. *)
Lemma destinationIssues_messages (v : option json) :
  Forall (fun issue =>
            match issue with
            | invalid_type _ _ _ => True
            | too_small _ message =>
              message = th.validation_destinationRequired
              \/ message = th.validation_durationMinimum
            end) (destinationIssues v).
Proof.
  unfold destinationIssues.
  destruct v as [[| | |s| |]|]; try (constructor; [exact I|constructor]).
  destruct (Js.length s <? 1)%nat; [|constructor].
  constructor; [left; reflexivity|constructor].
Qed.

Lemma durationIssues_messages (v : option json) :
  Forall (fun issue =>
            match issue with
            | invalid_type _ _ _ => True
            | too_small _ message =>
              message = th.validation_destinationRequired
              \/ message = th.validation_durationMinimum
            end) (durationIssues v).
Proof.
  unfold durationIssues.
  destruct v as [[| |m e| | |]|]; try (constructor; [exact I|constructor]).
  apply Forall_app. split.
  - destruct (isInteger m e); [constructor|].
    constructor; [exact I|constructor].
  - destruct (belowOne m e); [|constructor].
    constructor; [right; reflexivity|constructor].
Qed.

Lemma ItineraryRequestSchema_issues (body : json) (issues : list ZodIssue) :
  ItineraryRequestSchema body = inr issues ->
  Forall (fun issue =>
            match issue with
            | invalid_type _ _ _ => True
            | too_small _ message =>
              message = th.validation_destinationRequired
              \/ message = th.validation_durationMinimum
            end) issues.
Proof.
  destruct body as [| | | | |o];
    try (intros [= <-]; constructor; [exact I|constructor]).
  unfold ItineraryRequestSchema.
  pose proof (destinationIssues_messages (lookup o (lit "destination"))) as H1.
  pose proof (durationIssues_messages (lookup o (lit "duration"))) as H2.
  assert (Hall := proj2 (Forall_app _ _ _) (conj H1 H2)).
  destruct (lookup o (lit "destination")) as [[| | |s| |]|];
    try (intros [= <-]; exact Hall);
    destruct (lookup o (lit "duration")) as [[| |m e| | |]|];
    try (intros [= <-]; exact Hall).
  destruct (destinationIssues (Some (JStr s))
            ++ durationIssues (Some (JNum m e))) as [|i l];
    [discriminate|].
  intros [= <-]. exact Hall.
Qed.

(* ================================================================== *)
(** * Properties of the route *)
(* ================================================================== *)

(** X14.  The route calls the model, or hands a record to the repository,
    only for a request that is served for a user (a session, or the
    development bypass) and whose body holds a destination that is not
    blank and a duration that is an integer of at least one. *)
Theorem generation_needs_valid_request
  (lib : Library) (World : Type) (client : Client World) (server : Server)
  (request : NextRequest.t) (w : World) :
  let run := POST lib client server request w in
  modelEvents run <> [] \/ createCalls run <> [] ->
  exists user body input,
    servedAs server request user
    /\ NextRequest.json request = Ok body
    /\ readsRequest body input
    /\ isBlank (destination input) = false
    /\ (1 <= duration input)%Z.
Proof.
  unfold POST.
  destruct (if isDev server request then Ok (Authenticated devUser)
            else requireAuth server request) as [[user|r]|e] eqn:Hauth;
    try (simpl; intros [H|H]; congruence).
  apply run_servedAs in Hauth.
  destruct (NextRequest.json request) as [body|e];
    [|simpl; intros [H|H]; congruence].
  destruct (ItineraryRequestSchema body) as [input|issues] eqn:Hschema;
    [|simpl; intros [H|H]; congruence].
  apply ItineraryRequestSchema_inv in Hschema.
  destruct Hschema as (Hreads & _ & _).
  destruct (generateItinerary lib client defaultConfig input (lit "th") w)
    as [[itinerary|error] events] eqn:Hrun.
  - apply generateItinerary_ok in Hrun. destruct Hrun as (Hdest & Hdays & _).
    intros _. exists user, body, input. auto.
  - apply generateItinerary_throws in Hrun.
    destruct Hrun as [(_ & _ & ->)|[(_ & _ & _ & ->)|(Hdest & Hdays & _)]];
      try (simpl; intros [H|H]; congruence).
    intros _. exists user, body, input. auto.
Qed.

(** X15.  A response with the status 201 answers a request that was served
    for a user and validated, for which the generator returned an
    itinerary; exactly one record went to the repository, made of the
    user's id, the destination and the duration of the request and the
    generated schedules (one per day) and recommendations; the itinerary
    in the response is the record that the repository returned, not the
    generated one. *)
Theorem created_response_is_the_stored_record
  (lib : Library) (World : Type) (client : Client World) (server : Server)
  (request : NextRequest.t) (w : World) :
  let run := POST lib client server request w in
  status (response run) = 201%nat ->
  exists user body input itinerary savedItinerary,
    let data :=
      {| NewItinerary.userId := User.id user;
         NewItinerary.destination := destination input;
         NewItinerary.duration := duration input;
         NewItinerary.dailySchedules := Itinerary.dailySchedules itinerary;
         NewItinerary.recommendations := Itinerary.recommendations itinerary |} in
    servedAs server request user
    /\ NextRequest.json request = Ok body
    /\ readsRequest body input
    /\ generateItinerary lib client defaultConfig input (lit "th") w
       = (Ok itinerary, modelEvents run)
    /\ Z.of_nat (List.length (Itinerary.dailySchedules itinerary))
       = duration input
    /\ createCalls run = [data]
    /\ create server data = Ok savedItinerary
    /\ response run
       = {| status := 201;
            body := CreatedBody th.success_itineraryGenerated savedItinerary |}.
Proof.
  unfold POST.
  destruct (if isDev server request then Ok (Authenticated devUser)
            else requireAuth server request) as [[user|r]|e] eqn:Hauth.
  - apply run_servedAs in Hauth.
    destruct (NextRequest.json request) as [body|e]; [|discriminate].
    destruct (ItineraryRequestSchema body) as [input|issues] eqn:Hschema;
      [|discriminate].
    apply ItineraryRequestSchema_inv in Hschema.
    destruct Hschema as (Hreads & _ & _).
    destruct (generateItinerary lib client defaultConfig input (lit "th") w)
      as [[itinerary|error] events] eqn:Hrun; [|discriminate].
    pose proof (generateItinerary_ok _ _ _ _ _ _ Hrun)
      as (_ & _ & Hd & Hn & Hlen).
    rewrite Hd, Hn.
    destruct (create server _) as [saved|e] eqn:Hcreate; [|discriminate].
    intros _. exists user, body, input, itinerary, saved.
    cbn [response modelEvents createCalls]. repeat split; auto.
  - revert Hauth. unfold requireAuth.
    destruct (isDev server request); [discriminate|].
    destruct (verifyAuth server request) as [[u|]|e]; try discriminate.
    intros [= <-]. discriminate.
  - discriminate.
Qed.

(** X16.  A destination of white space only (and at least one character)
    passes the schema of the route, which asks for a string of length one;
    the generator refuses it, so the answer is the status 500 with the
    generator's English message, and the model is not called. *)
Theorem blank_destination_is_a_server_error
  (lib : Library) (World : Type) (client : Client World) (server : Server)
  (request : NextRequest.t) (w : World)
  (user : User.t) (o : list (jsstring * json)) (s : jsstring) (m e n : Z) :
  servedAs server request user ->
  NextRequest.json request = Ok (JObj o) ->
  lookup o (lit "destination") = Some (JStr s) ->
  s <> [] ->
  Forall (fun c => isWhiteSpace c = true) s ->
  lookup o (lit "duration") = Some (JNum m e) ->
  numberIs m e n ->
  (1 <= n)%Z ->
  POST lib client server request w
  = early (errorResponse 500 (lit "Destination is required")).
Proof.
  intros Hserved Hbody Hdest Hne Hblank Hdur Hval Hdays.
  unfold POST. rewrite (@servedAs_run server request user Hserved), Hbody.
  rewrite (@ItineraryRequestSchema_complete (JObj o)
             {| destination := s; duration := n |});
    [|exists o, m, e; auto|exact Hne|exact Hdays].
  apply isBlank_spec in Hblank.
  unfold generateItinerary. cbn [destination]. rewrite Hblank.
  rewrite (errorMessage_Error destinationRequired_nonempty).
  reflexivity.
Qed.


(** X18.  For a request that is served for a user, an empty destination
    is answered with the status 400 and the message for the destination,
    whatever the duration; a destination of at least one character with an
    integer duration below one is answered with the status 400 and the
    message for the duration.  In both cases the model is not called. *)
Theorem invalid_trip_refused_by_the_route
  (lib : Library) (World : Type) (client : Client World) (server : Server)
  (request : NextRequest.t) (w : World)
  (user : User.t) (o : list (jsstring * json)) :
  servedAs server request user ->
  NextRequest.json request = Ok (JObj o) ->
  (lookup o (lit "destination") = Some (JStr []) ->
   POST lib client server request w
   = early (errorResponse 400 th.validation_destinationRequired))
  /\ (forall s m e n,
        lookup o (lit "destination") = Some (JStr s) ->
        s <> [] ->
        lookup o (lit "duration") = Some (JNum m e) ->
        numberIs m e n ->
        (n < 1)%Z ->
        POST lib client server request w
        = early (errorResponse 400 th.validation_durationMinimum)).
Proof.
  intros Hserved Hbody.
  destruct validation_messages_nonempty as [Hdestination Hduration]. split.
  - intros Hdest.
    assert (Hschema : exists rest,
               ItineraryRequestSchema (JObj o)
               = inr (too_small [lit "destination"]
                        th.validation_destinationRequired :: rest)).
    { unfold ItineraryRequestSchema. rewrite Hdest.
      destruct (lookup o (lit "duration")) as [[| |m e| | |]|];
        eexists; reflexivity. }
    destruct Hschema as [rest Hschema]. unfold POST.
    rewrite (@servedAs_run server request user Hserved), Hbody, Hschema.
    unfold firstMessage. cbn [map issueMessage].
    rewrite (orElse_nonempty _ Hdestination). reflexivity.
  - intros s m e n Hdest Hne Hdur Hval Hlt.
    assert (Hschema : ItineraryRequestSchema (JObj o)
                      = inr [too_small [lit "duration"]
                               th.validation_durationMinimum]).
    { unfold ItineraryRequestSchema. rewrite Hdest, Hdur.
      unfold destinationIssues, durationIssues.
      destruct (@numberIs_integer m e _ Hval) as [Hint _].
      rewrite Hint, (@numberIs_belowOne m e _ Hval).
      apply Z.ltb_lt in Hlt. rewrite Hlt.
      destruct s as [|c s]; [congruence|]. reflexivity. }
    unfold POST.
    rewrite (@servedAs_run server request user Hserved), Hbody, Hschema.
    unfold firstMessage. cbn [map issueMessage].
    rewrite (orElse_nonempty _ Hduration). reflexivity.
Qed.

(* ================================================================== *)
(** * The form: what it submits *)
(* ================================================================== *)

Lemma trim_not_blank (s : jsstring) : trim s <> [] -> isBlank (trim s) = false.
Proof.
  intros Hne. destruct (isBlank (trim s)) eqn:Hblank; [exfalso|reflexivity].
  apply isBlank_spec in Hblank. unfold trim, trimEnd in *.
  destruct (trimStart (rev (trimStart s))) as [|c t] eqn:Ht; [now apply Hne|].
  apply trimStart_head in Ht.
  apply Forall_rev in Hblank. rewrite rev_involutive in Hblank.
  inversion Hblank; subst. congruence.
Qed.

Lemma validateForm_passes (destinationText durationText : jsstring) :
  snd (validateForm destinationText durationText) = true ->
  trim destinationText <> []
  /\ exists n, parseInt durationText = Some n /\ (1 <= n)%Z.
Proof.
  unfold validateForm, validateDestination, validateDuration. cbn [snd].
  destruct (trim destinationText) as [|c t] eqn:Htrim; [discriminate|].
  destruct (negb (1 <=? Js.length (c :: t))%nat); [discriminate|].
  destruct durationText as [|d r]; [discriminate|].
  destruct (parseInt (d :: r)) as [n|]; [|discriminate].
  destruct (1 <=? n)%Z eqn:Hn; [|discriminate].
  intros _. split; [discriminate|].
  exists n. split; [reflexivity|]. now apply Z.leb_le.
Qed.

Lemma handleSubmit_inv (destinationText durationText : jsstring)
  (data : Submission.t) :
  handleSubmit destinationText durationText = Some data ->
  exists n,
    data = {| Submission.destination := trim destinationText;
              Submission.duration := Some n |}
    /\ parseInt durationText = Some n
    /\ (1 <= n)%Z
    /\ isBlank (trim destinationText) = false
    /\ ItineraryRequestSchema (requestBody data)
       = inl {| destination := trim destinationText; duration := n |}.
Proof.
  unfold handleSubmit.
  destruct (snd (validateForm destinationText durationText)) eqn:Hvalid;
    [|discriminate].
  apply validateForm_passes in Hvalid.
  destruct Hvalid as (Hne & n & Hparse & Hn).
  rewrite Hparse. intros [= <-]. exists n.
  split; [reflexivity|]. split; [reflexivity|]. split; [exact Hn|].
  split; [now apply trim_not_blank|].
  apply ItineraryRequestSchema_complete; [|exact Hne|exact Hn].
  unfold requestBody. cbn [Submission.destination Submission.duration].
  eexists _, n, 0%Z. split; [reflexivity|].
  cbn [destination duration].
  split; [vm_compute; reflexivity|]. split; [vm_compute; reflexivity|].
  unfold numberIs. cbn. lia.
Qed.

(** X19.  What the form submits is fit for the route and for the
    generator: the destination is the trimmed text, which is not blank,
    and the duration is the integer that [parseInt] reads at the head of
    the field, which is at least one; for a duration below 2^53 (where
    the number posted is the number read) the schema of the route accepts
    the body that the page posts, with these two values. *)
Theorem form_submission_passes_validation
  (destinationText durationText : jsstring) (data : Submission.t) :
  handleSubmit destinationText durationText = Some data ->
  exists n,
    data = {| Submission.destination := trim destinationText;
              Submission.duration := Some n |}
    /\ parseInt durationText = Some n
    /\ (1 <= n)%Z
    /\ isBlank (trim destinationText) = false
    /\ ((n < 2 ^ 53)%Z ->
        ItineraryRequestSchema (requestBody data)
        = inl {| destination := trim destinationText; duration := n |}).
Proof.
  intros H. apply handleSubmit_inv in H.
  destruct H as (n & Hdata & Hparse & Hn & Hblank & Hschema).
  exists n. auto.
Qed.

(** X20.  A submission of the form, posted by the page for a user who is
    served, is never refused as invalid: the answer has the status 201 or
    the status 500, never 400, and when it is 500 its message is neither
    of the two messages with which the generator refuses an input.  (For a
    duration below 2^53, where the number posted is the number read.) *)
Theorem form_submission_never_refused_as_invalid
  (lib : Library) (World : Type) (client : Client World) (server : Server)
  (request : NextRequest.t) (w : World)
  (destinationText durationText : jsstring) (data : Submission.t)
  (user : User.t) :
  handleSubmit destinationText durationText = Some data ->
  (forall n, Submission.duration data = Some n -> (n < 2 ^ 53)%Z) ->
  servedAs server request user ->
  NextRequest.json request = Ok (requestBody data) ->
  let r := response (POST lib client server request w) in
  match body r with
  | CreatedBody _ _ => status r = 201%nat
  | ErrorBody error =>
    status r = 500%nat
    /\ error <> lit "Destination is required"
    /\ error <> lit "Duration must be at least 1 day"
  end.
Proof.
  intros Hsubmit _ Hserved Hbody. apply handleSubmit_inv in Hsubmit.
  destruct Hsubmit as (n & _ & _ & Hn & Hblank & Hschema).
  unfold POST.
  rewrite (@servedAs_run server request user Hserved), Hbody, Hschema.
  destruct (generateItinerary lib client defaultConfig
              {| destination := trim destinationText; duration := n |}
              (lit "th") w) as [[itinerary|error] events] eqn:Hrun.
  - destruct (create server _) as [saved|e];
      cbn [response errorResponse body status]; [reflexivity|].
    split; [reflexivity|]. split; vm_compute; discriminate.
  - apply generateItinerary_throws in Hrun.
    cbn [destination duration] in Hrun.
    cbn [response errorResponse body status]. split; [reflexivity|].
    destruct Hrun as [(Hb & _)|[(_ & Hlt & _)|(_ & _ & k & ->)]];
      [congruence|lia|].
    unfold errorMessage. cbn [message Error]. rewrite kindMessage_nonempty.
    destruct k; split; vm_compute; discriminate.
Qed.

(* ================================================================== *)
(** * Closed examples of the route and of the form *)
(* ================================================================== *)

(** X14 on a request that reaches the model. *)
Lemma generation_needs_valid_request_witness :
  exists user body input,
    servedAs sampleServer sampleRequest user
    /\ NextRequest.json sampleRequest = Ok body
    /\ readsRequest body input
    /\ isBlank (destination input) = false
    /\ (1 <= duration input)%Z.
Proof.
  apply (@generation_needs_valid_request referenceLibrary _ scripted
           sampleServer sampleRequest [Responded (Some sampleResponse)]).
  left. vm_compute. discriminate.
Defined.

(** X15 on the same request. *)
Lemma created_response_is_the_stored_record_witness :
  exists user body input itinerary savedItinerary,
    let data :=
      {| NewItinerary.userId := User.id user;
         NewItinerary.destination := destination input;
         NewItinerary.duration := duration input;
         NewItinerary.dailySchedules := Itinerary.dailySchedules itinerary;
         NewItinerary.recommendations := Itinerary.recommendations itinerary |} in
    servedAs sampleServer sampleRequest user
    /\ NextRequest.json sampleRequest = Ok body
    /\ readsRequest body input
    /\ generateItinerary referenceLibrary scripted defaultConfig input
         (lit "th") [Responded (Some sampleResponse)]
       = (Ok itinerary,
          modelEvents (POST referenceLibrary scripted sampleServer
                         sampleRequest [Responded (Some sampleResponse)]))
    /\ Z.of_nat (List.length (Itinerary.dailySchedules itinerary))
       = duration input
    /\ createCalls (POST referenceLibrary scripted sampleServer
                      sampleRequest [Responded (Some sampleResponse)])
       = [data]
    /\ create sampleServer data = Ok savedItinerary
    /\ response (POST referenceLibrary scripted sampleServer
                   sampleRequest [Responded (Some sampleResponse)])
       = {| status := 201;
            body := CreatedBody th.success_itineraryGenerated savedItinerary |}.
Proof.
  apply (@created_response_is_the_stored_record referenceLibrary _ scripted
           sampleServer sampleRequest [Responded (Some sampleResponse)]).
  vm_compute. reflexivity.
Defined.

(** X16 at a destination of three spaces. *)
Lemma blank_destination_is_a_server_error_witness :
  POST referenceLibrary scripted sampleServer blankRequest
    [Responded (Some sampleResponse)]
  = early (errorResponse 500 (lit "Destination is required")).
Proof.
  eapply (@blank_destination_is_a_server_error referenceLibrary _ scripted
            sampleServer blankRequest [Responded (Some sampleResponse)]
            sampleUser _ (lit "   ") 3%Z 0%Z 3%Z).
  - vm_compute. reflexivity.
  - vm_compute. reflexivity.
  - vm_compute. reflexivity.
  - vm_compute. discriminate.
  - vm_compute. repeat constructor.
  - vm_compute. reflexivity.
  - vm_compute. reflexivity.
  - lia.
Defined.

(** X18 at an empty destination and at a duration of zero. *)
Lemma invalid_trip_refused_by_the_route_witness :
  POST referenceLibrary scripted sampleServer emptyDestinationRequest
    [Responded (Some sampleResponse)]
  = early (errorResponse 400 th.validation_destinationRequired)
  /\ POST referenceLibrary scripted sampleServer zeroDayRequest
       [Responded (Some sampleResponse)]
     = early (errorResponse 400 th.validation_durationMinimum).
Proof.
  split.
  - pose proof (fun o served given =>
                  proj1 (@invalid_trip_refused_by_the_route referenceLibrary _
                           scripted sampleServer emptyDestinationRequest
                           [Responded (Some sampleResponse)] sampleUser o
                           served given)) as refused.
    eapply refused.
    + vm_compute. reflexivity.
    + vm_compute. reflexivity.
    + vm_compute. reflexivity.
  - pose proof (fun o served given =>
                  proj2 (@invalid_trip_refused_by_the_route referenceLibrary _
                           scripted sampleServer zeroDayRequest
                           [Responded (Some sampleResponse)] sampleUser o
                           served given)
                        (lit "Chiang Mai") 0%Z 0%Z 0%Z) as refused.
    eapply refused.
    + vm_compute. reflexivity.
    + vm_compute. reflexivity.
    + vm_compute. reflexivity.
    + vm_compute. discriminate.
    + vm_compute. reflexivity.
    + vm_compute. reflexivity.
    + lia.
Defined.

(** X19 at the texts [  Chiang Mai ] and [1 day]. *)
Lemma form_submission_passes_validation_witness :
  exists n,
    sampleSubmission
    = {| Submission.destination := trim (lit "  Chiang Mai ");
         Submission.duration := Some n |}
    /\ parseInt (lit "1 day") = Some n
    /\ (1 <= n)%Z
    /\ isBlank (trim (lit "  Chiang Mai ")) = false
    /\ ((n < 2 ^ 53)%Z ->
        ItineraryRequestSchema (requestBody sampleSubmission)
        = inl {| destination := trim (lit "  Chiang Mai "); duration := n |}).
Proof.
  apply form_submission_passes_validation.
  vm_compute. reflexivity.
Defined.

(** X20 at the same submission, posted from a session. *)
Lemma form_submission_never_refused_as_invalid_witness :
  let r := response (POST referenceLibrary scripted sampleServer formRequest
                       [Responded (Some sampleResponse)]) in
  match body r with
  | CreatedBody _ _ => status r = 201%nat
  | ErrorBody error =>
    status r = 500%nat
    /\ error <> lit "Destination is required"
    /\ error <> lit "Duration must be at least 1 day"
  end.
Proof.
  apply (@form_submission_never_refused_as_invalid referenceLibrary _ scripted
           sampleServer formRequest [Responded (Some sampleResponse)]
           (lit "  Chiang Mai ") (lit "1 day") sampleSubmission sampleUser).
  - vm_compute. reflexivity.
  - intros n [= <-]. vm_compute. reflexivity.
  - vm_compute. reflexivity.
  - reflexivity.
Defined.
(* ================================================================== *)
(** * The final message and what the loop did *)
(* ================================================================== *)

Lemma retryable_by_term (e : JsError) (msg : jsstring) (term : String.string) :
  message e = Some msg ->
  In (lit term) retryableTerms ->
  toLowerCase (lit term) = lit term ->
  includes msg (lit term) = true ->
  isRetryableError e = true.
Proof.
  intros Hmsg Hin Hlow Hinc. apply (isRetryableError_spec _ Hmsg).
  exists (lit term). split; [exact Hin|]. now apply includes_toLowerCase.
Qed.

(** The message that [handleError] chooses, against the two tests of the
    loop. *)
Lemma classify_tests (e : JsError) :
  (classify e = KTimeout \/ classify e = KRateLimit ->
   isRetryableError e = true)
  /\ (classify e = KModelUnavailable -> isNotFound e = true).
Proof.
  destruct e as [[[|c m]|]];
    try (split; [intros [H|H]|intros H]; vm_compute in H; discriminate).
  unfold classify, isNotFound, messageIncludes. cbn [message].
  destruct (includes (c :: m) (lit "timeout")) eqn:Htimeout.
  { split; [intros _|discriminate].
    eapply timeout_is_retryable; [reflexivity|exact Htimeout]. }
  destruct (includes (c :: m) (lit "rate limit")) eqn:Hrate.
  { split; [intros _|discriminate].
    eapply (@retryable_by_term _ _ "rate limit"); [reflexivity| | |exact Hrate].
    - unfold retryableTerms. cbn [map]. right; left. reflexivity.
    - vm_compute. reflexivity. }
  destruct (includes (c :: m) (lit "429")) eqn:H429.
  { split; [intros _|discriminate].
    eapply (@retryable_by_term _ _ "429"); [reflexivity| | |exact H429].
    - unfold retryableTerms. cbn [map]. right; right; left. reflexivity.
    - vm_compute. reflexivity. }
  cbn [orb].
  destruct (includes (c :: m) (lit "API key") || includes (c :: m) (lit "401")).
  { split; [intros [H|H]|intros H]; discriminate. }
  destruct (includes (c :: m) (lit "not found") || includes (c :: m) (lit "404"))
    eqn:Hmissing.
  { split; [intros [H|H]; discriminate|intros _; reflexivity]. }
  split; [intros [H|H]|intros H]; discriminate.
Qed.

(** X21.  The message that [handleError] chooses for an error tells what
    the loop did at the attempt that failed with it.  An error reported as
    an unavailable model made the loop leave the model at once, with no
    delay.  An error reported as a timeout or as too much traffic made the
    loop sleep [retryDelay * 2 ^ (attempt - 1)] and try the same model
    again, unless its message also held [not found] or [404] or no
    attempt was left: then the loop left the model at once as well. *)
Theorem reported_kind_matches_the_loop
  (lib : Library) (World : Type) (client : Client World) (cfg : Config)
  (input : TripInput) (locale : jsstring) (model : jsstring)
  (w w' : World) (e : JsError) (remaining attempt : nat)
  (lastError : option JsError) :
  generateWithTimeout lib client model input locale w = (Throw e, w') ->
  let run :=
    attempts lib client cfg (S remaining) attempt model input locale w
             lastError in
  let leaves := run = (Break (Some e), w', [Attempt model attempt (Some e)]) in
  (classify e = KModelUnavailable -> leaves)
  /\ (classify e = KTimeout \/ classify e = KRateLimit ->
      if isNotFound e || negb (attempt <? maxRetries cfg)%nat
      then leaves
      else run
           = let '(exit, w'', events) :=
               attempts lib client cfg remaining (S attempt) model input
                        locale w' (Some e) in
             (exit, w'',
              Attempt model attempt (Some e)
                :: Sleep (retryDelay cfg * 2 ^ (Z.of_nat attempt - 1))
                :: events)).
Proof.
  intros Hfail run leaves. destruct (classify_tests e) as [Hretry Hmissing].
  split.
  - intros Hkind. apply attempts_not_found; [exact Hfail|now apply Hmissing].
  - intros Hkind. specialize (Hretry Hkind).
    destruct (isNotFound e) eqn:Hnf; cbn [orb].
    + now apply attempts_not_found.
    + destruct (attempt <? maxRetries cfg)%nat eqn:Hleft; cbn [negb].
      * apply attempts_retry; auto. now apply Nat.ltb_lt.
      * apply attempts_give_up; [exact Hfail|]. now rewrite Hretry, Hleft.
Qed.

(** X21 at a missing model, at the status 429, and at a timeout on a
    missing model. *)
Lemma reported_kind_matches_the_loop_witness :
  attempts referenceLibrary scripted defaultConfig 3 1
    (lit "gemini-2.5-flash") sampleInput (lit "th")
    [Rejected modelMissing; Responded (Some sampleResponse)] None
  = (Break (Some modelMissing), [Responded (Some sampleResponse)],
     [Attempt (lit "gemini-2.5-flash") 1 (Some modelMissing)])
  /\ attempts referenceLibrary scripted defaultConfig 3 1
       (lit "gemini-2.5-flash") sampleInput (lit "th")
       [Rejected tooManyRequests; Responded (Some sampleResponse)] None
     = (Return sampleItinerary, [],
        [ Attempt (lit "gemini-2.5-flash") 1 (Some tooManyRequests);
          Sleep 1000;
          Attempt (lit "gemini-2.5-flash") 2 None ])
  /\ attempts referenceLibrary scripted defaultConfig 3 1
       (lit "gemini-2.5-flash") sampleInput (lit "th")
       [Rejected timeoutOnMissingModel; Responded (Some sampleResponse)] None
     = (Break (Some timeoutOnMissingModel), [Responded (Some sampleResponse)],
        [Attempt (lit "gemini-2.5-flash") 1 (Some timeoutOnMissingModel)]).
Proof.
  split; [|split].
  - apply (proj1 (@reported_kind_matches_the_loop referenceLibrary _ scripted
                    defaultConfig sampleInput (lit "th")
                    (lit "gemini-2.5-flash")
                    [Rejected modelMissing; Responded (Some sampleResponse)]
                    [Responded (Some sampleResponse)] modelMissing
                    2%nat 1%nat None eq_refl)).
    vm_compute. reflexivity.
  - pose proof (proj2 (@reported_kind_matches_the_loop referenceLibrary _
                         scripted defaultConfig sampleInput (lit "th")
                         (lit "gemini-2.5-flash")
                         [Rejected tooManyRequests;
                          Responded (Some sampleResponse)]
                         [Responded (Some sampleResponse)] tooManyRequests
                         2%nat 1%nat None eq_refl)) as H.
    assert (Hkind : classify tooManyRequests = KRateLimit)
      by (vm_compute; reflexivity).
    specialize (H (or_intror Hkind)).
    assert (Htest : isNotFound tooManyRequests
                    || negb (1 <? maxRetries defaultConfig)%nat = false)
      by (vm_compute; reflexivity).
    rewrite Htest in H. rewrite H. vm_compute. reflexivity.
  - pose proof (proj2 (@reported_kind_matches_the_loop referenceLibrary _
                         scripted defaultConfig sampleInput (lit "th")
                         (lit "gemini-2.5-flash")
                         [Rejected timeoutOnMissingModel;
                          Responded (Some sampleResponse)]
                         [Responded (Some sampleResponse)]
                         timeoutOnMissingModel
                         2%nat 1%nat None eq_refl)) as H.
    assert (Hkind : classify timeoutOnMissingModel = KTimeout)
      by (vm_compute; reflexivity).
    specialize (H (or_introl Hkind)).
    assert (Htest : isNotFound timeoutOnMissingModel
                    || negb (1 <? maxRetries defaultConfig)%nat = true)
      by (vm_compute; reflexivity).
    rewrite Htest in H. exact H.
Defined.
